(** * RecallLens core: a shallow embedding of the matching and decision engine

    The development follows the TypeScript sources of [packages/core]:

    - [utils/upc]          barcode normalisation and checksum,
    - [parsers/lot]        lot-code / expiry-date parsing, lot patterns, date windows,
    - [matching/text]      text normalisation, Jaro-Winkler and n-gram cosine similarity,
    - [matching/decision]  the tiered decision engine.

    Conventions of the embedding.

    - JavaScript strings are Rocq [string]s; the character operations
      ([toLowerCase], [trim], the classes [\d], [\w], [\s]) are given on the
      ASCII range.
    - JavaScript numbers are exact: integers are [Z] or [nat], the scores and
      confidences are rationals [Q]; a [NaN] is [None].  A score is compared
      with a threshold at its exact value, where the doubles of JavaScript
      may round it to the other side of a tie.
    - A computation that can throw, or whose loop is not bounded by its
      syntax, returns a [Js] outcome: [Ok v], [Throw e] or [Diverge].
    - Regular-expression literals of the sources are terms of [Re.regex], run
      by the backtracking matcher [Re.run]; what the sources take from the
      JavaScript host at run time ([new RegExp] on a pattern string that is
      data, [new Date] on a string, [Math.sqrt]) is a field of [Host]. *)

From Stdlib Require Import Bool Arith ZArith QArith Lia Lqa List Ascii String DecimalString.
Import ListNotations.

Local Open Scope string_scope.
Local Open Scope list_scope.
Local Open Scope nat_scope.

(** ** Outcomes of JavaScript computations *)

Inductive JsError : Type :=
| SyntaxError
| TypeError.

Inductive Js (A : Type) : Type :=
| Ok (a : A)
| Throw (e : JsError)
| Diverge.

Arguments Ok {A} a.
Arguments Throw {A} e.
Arguments Diverge {A}.

Definition bind {A B : Type} (m : Js A) (k : A -> Js B) : Js B :=
  match m with
  | Ok a => k a
  | Throw e => Throw e
  | Diverge => Diverge
  end.

Notation "x <- m ;; k" := (bind m (fun x => k))
  (at level 61, m at next level, right associativity).

(** [try { m } catch { h }] *)
Definition try_catch {A : Type} (m : Js A) (h : JsError -> Js A) : Js A :=
  match m with
  | Throw e => h e
  | other => other
  end.

(** [xs.some(f)] for a callback that is itself a computation; like the
    JavaScript method it stops at the first element that answers [true]. *)
Fixpoint someM {A : Type} (f : A -> Js bool) (xs : list A) : Js bool :=
  match xs with
  | [] => Ok false
  | x :: rest => b <- f x ;; if b then Ok true else someM f rest
  end.

(** [xs.filter(f)] for such a callback. *)
Fixpoint filterM {A : Type} (f : A -> Js bool) (xs : list A) : Js (list A) :=
  match xs with
  | [] => Ok []
  | x :: rest => b <- f x ;; tl <- filterM f rest ;; Ok (if b then x :: tl else tl)
  end.

(** ** Characters and strings *)

Module Str.

Definition chars (s : string) : list ascii := list_ascii_of_string s.
Definition ofChars (l : list ascii) : string := string_of_list_ascii l.

Definition code (c : ascii) : nat := nat_of_ascii c.

Definition inRange (lo hi : nat) (c : ascii) : bool :=
  (lo <=? code c) && (code c <=? hi).

(** [\d] *)
Definition isDigit (c : ascii) : bool := inRange 48 57 c.
Definition isUpper (c : ascii) : bool := inRange 65 90 c.
Definition isLower (c : ascii) : bool := inRange 97 122 c.
(** [\w] is [[A-Za-z0-9_]] *)
Definition isWord (c : ascii) : bool :=
  isDigit c || isUpper c || isLower c || (code c =? 95).
(** [\s], and the characters [trim] removes: TAB, LF, VT, FF, CR, SP *)
Definition isSpace (c : ascii) : bool := inRange 9 13 c || (code c =? 32).

Definition toUpperChar (c : ascii) : ascii :=
  if isLower c then ascii_of_nat (code c - 32) else c.
Definition toLowerChar (c : ascii) : ascii :=
  if isUpper c then ascii_of_nat (code c + 32) else c.

(** [s.toUpperCase()] and [s.toLowerCase()] on text in the ASCII range, where
    they change the letters [a-z] and [A-Z] and nothing else.  Outside that
    range the case maps of JavaScript also change other characters, and may
    change the length of the text; properties that compare a text with its
    upper-case or lower-case form are stated for ASCII text. *)
Definition toUpperCase (s : string) : string := ofChars (map toUpperChar (chars s)).
Definition toLowerCase (s : string) : string := ofChars (map toLowerChar (chars s)).

Fixpoint dropSpaces (l : list ascii) : list ascii :=
  match l with
  | c :: t => if isSpace c then dropSpaces t else l
  | [] => []
  end.

Definition trimChars (l : list ascii) : list ascii :=
  rev (dropSpaces (rev (dropSpaces l))).

Definition trim (s : string) : string := ofChars (trimChars (chars s)).

(** [s.padStart(n, c)] *)
Definition padStart (n : nat) (c : ascii) (s : string) : string :=
  ofChars (repeat c (n - String.length s) ++ chars s).

(** [s.substring(0, n)] *)
Definition prefix (n : nat) (s : string) : string := String.substring 0 n s.

Definition digitValue (c : ascii) : Z := Z.of_nat (code c - 48).

Fixpoint parseDigits (acc : Z) (l : list ascii) : Z :=
  match l with
  | c :: t => if isDigit c then parseDigits (10 * acc + digitValue c) t else acc
  | [] => acc
  end.

Definition startsWithDigit (l : list ascii) : bool :=
  match l with
  | c :: _ => isDigit c
  | [] => false
  end.

(** [parseInt(s, 10)]: leading white space is skipped, a sign is read, then
    the longest run of decimal digits; [None] is [NaN], the answer when no
    digit is found there. *)
Definition parseInt (s : string) : option Z :=
  match dropSpaces (chars s) with
  | c :: t =>
      if isDigit c then Some (parseDigits 0 (c :: t))
      else if (Ascii.eqb c "-" || Ascii.eqb c "+") && startsWithDigit t then
        Some (if Ascii.eqb c "-" then - parseDigits 0 t else parseDigits 0 t)%Z
      else None
  | [] => None
  end.

(** The decimal text of a non-negative integer, as a template literal
    prints it. *)
Definition ofZ (z : Z) : string := NilZero.string_of_uint (N.to_uint (Z.to_N z)).

(** JavaScript truthiness of an optional string: [undefined] and [""] are
    falsy. *)
Definition truthy (o : option string) : bool :=
  match o with
  | Some s => negb (String.eqb s "")
  | None => false
  end.

(** [s.split(sep)] for a one-character separator: the pieces between the
    separators, of which there is always at least one. *)
Fixpoint splitChars (sep : ascii) (piece : list ascii) (l : list ascii)
  : list (list ascii) :=
  match l with
  | [] => [rev piece]
  | c :: t =>
      if Ascii.eqb c sep then rev piece :: splitChars sep [] t
      else splitChars sep (c :: piece) t
  end.

Definition split (sep : ascii) (s : string) : list string :=
  map ofChars (splitChars sep [] (chars s)).

End Str.

(** ** Regular expressions

    The fragment of ECMAScript regular expressions that the literals of the
    sources use, with the backtracking semantics of the language: greedy
    bounded and unbounded repetition, ordered alternation, numbered capture
    groups, the assertions [^], [$] and [\b], and the [i] flag. *)

Module Re.

Inductive regex : Type :=
| Eps
| Sym (neg : bool) (p : ascii -> bool)
| Bol
| Eol
| WordB
| Seq (a b : regex)
| Alt (a b : regex)
| Rep (lo : nat) (hi : option nat) (a : regex)
| Grp (i : nat) (a : regex).

(** A position in the subject: the characters already passed (nearest first),
    those still ahead, and the captures recorded so far (latest first), each
    the pair of offsets at which its group began and ended. *)
Record mstate : Type := MState {
  seen : list ascii;
  rest : list ascii;
  caps : list (nat * (nat * nat))
}.

Definition pos (s : mstate) : nat := List.length (seen s).

Definition advance (c : ascii) (t : list ascii) (s : mstate) : mstate :=
  MState (c :: seen s) t (caps s).

Definition setcap (i : nat) (s s' : mstate) : mstate :=
  MState (seen s') (rest s') ((i, (pos s, pos s')) :: caps s').

Fixpoint lookup (i : nat) (cs : list (nat * (nat * nat))) : option (nat * nat) :=
  match cs with
  | (j, v) :: t => if i =? j then Some v else lookup i t
  | [] => None
  end.

(** Membership of a character in a class; under the [i] flag both are
    compared after case canonicalisation. *)
Definition symTest (ci : bool) (p : ascii -> bool) (c : ascii) : bool :=
  p c || (ci && (p (Str.toUpperChar c) || p (Str.toLowerChar c))).

Definition wordAt (l : list ascii) : bool :=
  match l with
  | c :: _ => Str.isWord c
  | [] => false
  end.

Definition below (hi : option nat) (count : nat) : bool :=
  match hi with
  | Some h => count <? h
  | None => true
  end.

(** An iteration past the lower bound that consumes nothing is rejected, so
    an unbounded repetition runs at most [lo + |rest|] times. *)
Definition repFuel (lo : nat) (hi : option nat) (s : mstate) : nat :=
  match hi with
  | Some h => h
  | None => lo + List.length (rest s)
  end.

(** The iterations of a greedy repetition of [step], [count] of them done:
    one more if the upper bound allows and the rest of the match then
    succeeds, otherwise stop here if the lower bound is reached. *)
Fixpoint repLoop (step : (mstate -> option mstate) -> mstate -> option mstate)
  (lo : nat) (hi : option nat) (k : mstate -> option mstate)
  (fuel count : nat) (s0 : mstate) {struct fuel} : option mstate :=
  let stop := if lo <=? count then k s0 else None in
  match fuel with
  | O => stop
  | S fuel' =>
      if below hi count then
        match step
                (fun s1 =>
                   if (lo <=? count)
                      && (List.length (rest s1) =? List.length (rest s0))
                   then None
                   else repLoop step lo hi k fuel' (S count) s1) s0 with
        | Some m => Some m
        | None => stop
        end
      else stop
  end.

Fixpoint run (ci : bool) (r : regex) (k : mstate -> option mstate) (s : mstate)
  {struct r} : option mstate :=
  match r with
  | Eps => k s
  | Sym neg p =>
      match rest s with
      | c :: t => if xorb neg (symTest ci p c) then k (advance c t s) else None
      | [] => None
      end
  | Bol => match seen s with [] => k s | _ :: _ => None end
  | Eol => match rest s with [] => k s | _ :: _ => None end
  | WordB => if xorb (wordAt (seen s)) (wordAt (rest s)) then k s else None
  | Seq a b => run ci a (run ci b k) s
  | Alt a b =>
      match run ci a k s with
      | Some m => Some m
      | None => run ci b k s
      end
  | Grp i a => run ci a (fun s' => k (setcap i s s')) s
  | Rep lo hi a => repLoop (run ci a) lo hi k (repFuel lo hi s) 0 s
  end.

(** Number of capture groups: the largest group index. *)
Fixpoint groups (r : regex) : nat :=
  match r with
  | Seq a b | Alt a b => Nat.max (groups a) (groups b)
  | Rep _ _ a => groups a
  | Grp i a => Nat.max i (groups a)
  | _ => 0
  end.

(** The first match, trying each start position from left to right. *)
Fixpoint search (ci : bool) (r : regex) (before after : list ascii)
  : option (mstate * mstate) :=
  let s := MState before after [] in
  match run ci r Some s with
  | Some m => Some (s, m)
  | None =>
      match after with
      | c :: t => search ci r (c :: before) t
      | [] => None
      end
  end.

(** [text.substring(from, to)] *)
Definition slice (text : string) (span : nat * nat) : string :=
  String.substring (fst span) (snd span - fst span) text.

(** The match array of [text.match(re)] / [re.exec(text)] for a regex without
    the [g] flag: element 0 is the matched text, element [i] is group [i], and
    an element is [None] ([undefined]) when its group took no part. *)
Definition matchArray (r : regex) (text : string) (found : mstate * mstate)
  : list (option string) :=
  let '(s, m) := found in
  Some (slice text (pos s, pos m))
  :: map (fun i => option_map (slice text) (lookup i (caps m))) (seq 1 (groups r)).

Definition exec (ci : bool) (r : regex) (text : string) : option (list (option string)) :=
  option_map (matchArray r text) (search ci r [] (Str.chars text)).

Definition test (ci : bool) (r : regex) (text : string) : bool :=
  match search ci r [] (Str.chars text) with
  | Some _ => true
  | None => false
  end.

(** Element [i] of a match array; [None] is [undefined]. *)
Definition item (i : nat) (arr : list (option string)) : option string :=
  match nth_error arr i with
  | Some o => o
  | None => None
  end.

(** [text.replace(re, repl)] for a regex with the [g] flag and a replacement
    without [$] patterns.  [skip] counts the characters of the current match
    still to be passed over. *)
Fixpoint replaceFrom (ci : bool) (r : regex) (repl : list ascii) (skip : nat)
  (before after : list ascii) {struct after} : list ascii :=
  match skip with
  | S n =>
      match after with
      | c :: t => replaceFrom ci r repl n (c :: before) t
      | [] => []
      end
  | O =>
      match run ci r Some (MState before after []) with
      | Some m =>
          repl ++
          match after with
          | c :: t =>
              match List.length after - List.length (rest m) with
              | O => c :: replaceFrom ci r repl 0 (c :: before) t
              | S n => replaceFrom ci r repl n (c :: before) t
              end
          | [] => []
          end
      | None =>
          match after with
          | c :: t => c :: replaceFrom ci r repl 0 (c :: before) t
          | [] => []
          end
      end
  end.

Definition replaceAll (ci : bool) (r : regex) (repl : string) (text : string) : string :=
  Str.ofChars (replaceFrom ci r (Str.chars repl) 0 [] (Str.chars text)).

(** Abbreviations used to transcribe the literals. *)
Definition chr (c : ascii) : regex := Sym false (Ascii.eqb c).
Definition digit : regex := Sym false Str.isDigit.
Definition space : regex := Sym false Str.isSpace.
Definition star (a : regex) : regex := Rep 0 None a.
Definition plus (a : regex) : regex := Rep 1 None a.
Definition opt (a : regex) : regex := Rep 0 (Some 1) a.
Definition times (lo hi : nat) (a : regex) : regex := Rep lo (Some hi) a.

Fixpoint seqs (l : list regex) : regex :=
  match l with
  | [] => Eps
  | [a] => a
  | a :: t => Seq a (seqs t)
  end.

Fixpoint alts (l : list regex) : regex :=
  match l with
  | [] => Eps
  | [a] => a
  | a :: t => Alt a (alts t)
  end.

(** A literal word, character by character. *)
Definition lit (w : string) : regex := seqs (map chr (Str.chars w)).

End Re.

(** ** The JavaScript host

    What the sources obtain from the run-time library on data that is not
    known statically.  [RegExp_compile pattern flags] is [new RegExp(pattern,
    flags)], with [None] when the constructor throws its [SyntaxError];
    [Date_getTime s] is [new Date(s).getTime()], with [None] for [NaN]. *)

Record Host : Type := {
  RegExp : Type;
  RegExp_compile : string -> string -> option RegExp;
  RegExp_test : RegExp -> string -> bool;
  Date_getTime : string -> option Z;
  Math_sqrt : Q -> Q
}.

Definition newRegExp (host : Host) (pattern flags : string) : Js (RegExp host) :=
  match RegExp_compile host pattern flags with
  | Some re => Ok re
  | None => Throw SyntaxError
  end.

(** A regular-expression literal: its [i] flag and its body. *)
Record RegExpLiteral : Type := {
  ignoreCase : bool;
  body : Re.regex
}.

Definition matchLiteral (p : RegExpLiteral) (text : string) : option (list (option string)) :=
  Re.exec (ignoreCase p) (body p) text.

(** ** utils/upc *)

Module Upc.

Inductive UPCType : Type := UPC_A | EAN_13 | EAN_8 | invalid.

Record UPCDetails : Type := {
  type : UPCType;
  normalized : string;
  isValid : bool
}.

(** [parseInt(code[i], 10)] *)
Definition digitAt (code : string) (i : nat) : option Z :=
  match String.get i code with
  | Some c => Str.parseInt (String c EmptyString)
  | None => None
  end.

(** The weight of position [i] in [validateChecksum]:
    [(length === 8 && i % 2 === 0) ? 3 : (i % 2 === 0 ? 1 : 3)]. *)
Definition weight (length i : nat) : Z :=
  if (length =? 8) && (i mod 2 =? 0) then 3%Z
  else if i mod 2 =? 0 then 1%Z else 3%Z.

(** The loop [for (let i = 0; i < length - 1; i++) sum += digit * weight].
    (The constant [multiplier] that the function also declares is never
    read.) *)
Definition weightedSum (code : string) (length : nat) : option Z :=
  fold_left
    (fun (sum : option Z) (i : nat) =>
       match sum, digitAt code i with
       | Some s, Some digit => Some (s + digit * weight length i)%Z
       | _, _ => None
       end)
    (seq 0 (length - 1)) (Some 0%Z).

Definition validateChecksum (code : string) (length : nat) : bool :=
  if negb (String.length code =? length) then false
  else
    match digitAt code (length - 1), weightedSum code length with
    | Some checkDigit, Some sum =>
        let calculatedCheck := Z.rem (10 - Z.rem sum 10) 10 in
        Z.eqb checkDigit calculatedCheck
    | _, _ => false
    end.

(** [/\D/g] *)
Definition nonDigit : Re.regex := Re.Sym true Str.isDigit.

Definition normalizeUPC (input : string) : UPCDetails :=
  let cleaned := Re.replaceAll false nonDigit "" input in
  if String.length cleaned =? 8 then
    {| type := EAN_8; normalized := Str.padStart 8 "0" cleaned;
       isValid := validateChecksum cleaned 8 |}
  else if String.length cleaned =? 12 then
    {| type := UPC_A; normalized := Str.padStart 12 "0" cleaned;
       isValid := validateChecksum cleaned 12 |}
  else if String.length cleaned =? 13 then
    {| type := EAN_13; normalized := Str.padStart 13 "0" cleaned;
       isValid := validateChecksum cleaned 13 |}
  else
    {| type := invalid; normalized := cleaned; isValid := false |}.

Definition isType (t u : UPCType) : bool :=
  match t, u with
  | UPC_A, UPC_A | EAN_13, EAN_13 | EAN_8, EAN_8 | invalid, invalid => true
  | _, _ => false
  end.

Definition getManufacturerCode (upc : string) : option string :=
  let normalized := normalizeUPC upc in
  if isType (type normalized) UPC_A && isValid normalized
  then Some (Str.prefix 6 (Upc.normalized normalized))
  else None.

Definition areUPCEquivalent (upc1 upc2 : string) : bool :=
  let norm1 := normalizeUPC upc1 in
  let norm2 := normalizeUPC upc2 in
  if negb (isValid norm1) || negb (isValid norm2) then false
  else if isType (type norm1) UPC_A && isType (type norm2) UPC_A then
    String.eqb (Str.prefix 11 (normalized norm1)) (Str.prefix 11 (normalized norm2))
  else if isType (type norm1) EAN_13 && isType (type norm2) EAN_13 then
    String.eqb (Str.prefix 12 (normalized norm1)) (Str.prefix 12 (normalized norm2))
  else false.

(** The public check-digit rule, for comparison with [validateChecksum]: the
    weights alternate so that the digit next to the check digit weighs 3.  For
    8 and 12 digits that is 3,1,3,... from the first digit, for 13 digits
    1,3,1,... *)
Definition standardWeight (length i : nat) : Z :=
  if (length - 1 - i) mod 2 =? 1 then 3%Z else 1%Z.

Definition standardSum (code : string) (length : nat) : option Z :=
  fold_left
    (fun (sum : option Z) (i : nat) =>
       match sum, digitAt code i with
       | Some s, Some digit => Some (s + digit * standardWeight length i)%Z
       | _, _ => None
       end)
    (seq 0 (length - 1)) (Some 0%Z).

Definition standardValid (code : string) : bool :=
  let length := String.length code in
  ((length =? 8) || (length =? 12) || (length =? 13)) &&
  match digitAt code (length - 1), standardSum code length with
  | Some checkDigit, Some sum => Z.eqb checkDigit ((10 - sum mod 10) mod 10)%Z
  | _, _ => false
  end.

End Upc.

(** ** parsers/lot *)

Module Lot.

Record ParsedLot : Type := {
  raw : string;
  normalized : string;
  prefix : option string;
  date : option string;
  suffix : option string
}.

Record ParsedExpiry : Type := {
  expiryRaw : string;
  expiryNormalized : string;
  confidence : Q
}.

(** Character classes of the literals. *)
Definition isChar (c : ascii) : ascii -> bool := Ascii.eqb c.
Definition cls (ps : list (ascii -> bool)) : Re.regex :=
  Re.Sym false (fun c => existsb (fun p => p c) ps).

(** [[A-Z]], [[A-Z0-9]], [[:\s]], [[\/\-\s]], [[\/\-]], [[.:\s]] *)
Definition upper : Re.regex := cls [Str.isUpper].
Definition upperOrDigit : Re.regex := cls [Str.isUpper; Str.isDigit].
Definition colonOrSpace : Re.regex := cls [isChar ":"; Str.isSpace].
Definition sep : Re.regex := cls [isChar "/"; isChar "-"; Str.isSpace].
Definition slashOrDash : Re.regex := cls [isChar "/"; isChar "-"].
Definition dotColonOrSpace : Re.regex := cls [isChar "."; isChar ":"; Str.isSpace].

Definition literal (i : bool) (parts : list Re.regex) : RegExpLiteral :=
  {| ignoreCase := i; body := Re.seqs parts |}.

(** [(X?\d{4,})] for the labelled lot forms *)
Definition labelledLot (label : string) : RegExpLiteral :=
  literal true
    [Re.Bol; Re.lit label; Re.star colonOrSpace;
     Re.Grp 1 (Re.Seq (Re.opt upper) (Re.Rep 4 None Re.digit)); Re.Eol].

Definition LOT_PATTERNS : list RegExpLiteral :=
  [ (* /^(L?)(\d{4,6})([A-Z]?)$/i *)
    literal true
      [Re.Bol; Re.Grp 1 (Re.opt (Re.chr "L")); Re.Grp 2 (Re.times 4 6 Re.digit);
       Re.Grp 3 (Re.opt upper); Re.Eol];
    (* /^lot[:\s]*([A-Z]?\d{4,})$/i *)
    labelledLot "lot";
    (* /^batch[:\s]*([A-Z]?\d{4,})$/i *)
    labelledLot "batch";
    (* /^serial[:\s]*([A-Z]?\d{4,})$/i *)
    labelledLot "serial";
    (* /^model[:\s]*([A-Z0-9]+)$/i *)
    literal true
      [Re.Bol; Re.lit "model"; Re.star colonOrSpace;
       Re.Grp 1 (Re.plus upperOrDigit); Re.Eol] ].

(** [(\d{1,2})[\/\-\s](\d{1,2})[\/\-\s](\d{lo,hi})$], the tail shared by the
    month-first patterns *)
Definition monthDayYear (s : Re.regex) (lo hi : nat) : list Re.regex :=
  [Re.Grp 1 (Re.times 1 2 Re.digit); s; Re.Grp 2 (Re.times 1 2 Re.digit); s;
   Re.Grp 3 (Re.times lo hi Re.digit); Re.Eol].

Definition EXPIRY_PATTERNS : list RegExpLiteral :=
  [ (* /^(\d{1,2})[\/\-\s](\d{1,2})[\/\-\s](\d{4})$/ *)
    literal false (Re.Bol :: monthDayYear sep 4 4);
    (* /^(\d{1,2})[\/\-](\d{1,2})[\/\-](\d{2})$/ *)
    literal false (Re.Bol :: monthDayYear slashOrDash 2 2);
    (* /^(\d{4})-(\d{1,2})-(\d{1,2})$/ *)
    literal false
      [Re.Bol; Re.Grp 1 (Re.times 4 4 Re.digit); Re.chr "-";
       Re.Grp 2 (Re.times 1 2 Re.digit); Re.chr "-";
       Re.Grp 3 (Re.times 1 2 Re.digit); Re.Eol];
    (* /^best\s(?:if\s)?(?:used\s)?by\s(\d{1,2})[\/\-\s](\d{1,2})[\/\-\s](\d{2,4})$/i *)
    literal true
      ([Re.Bol; Re.lit "best"; Re.space; Re.opt (Re.Seq (Re.lit "if") Re.space);
        Re.opt (Re.Seq (Re.lit "used") Re.space); Re.lit "by"; Re.space]
       ++ monthDayYear sep 2 4);
    (* /^exp[.:\s]*(\d{1,2})[\/\-\s](\d{1,2})[\/\-\s](\d{2,4})$/i *)
    literal true
      ([Re.Bol; Re.lit "exp"; Re.star dotColonOrSpace] ++ monthDayYear sep 2 4);
    (* /^use\sby[:\s]*(\d{1,2})[\/\-\s](\d{1,2})[\/\-\s](\d{2,4})$/i *)
    literal true
      ([Re.Bol; Re.lit "use"; Re.space; Re.lit "by"; Re.star colonOrSpace]
       ++ monthDayYear sep 2 4);
    (* /^sell\sby[:\s]*(\d{1,2})[\/\-\s](\d{1,2})[\/\-\s](\d{2,4})$/i *)
    literal true
      ([Re.Bol; Re.lit "sell"; Re.space; Re.lit "by"; Re.star colonOrSpace]
       ++ monthDayYear sep 2 4) ].

(** [x || undefined] *)
Definition orUndefined (s : option string) : option string :=
  match s with
  | Some v => if String.eqb v "" then None else Some v
  | None => None
  end.

(** A destructuring default [x = ''] *)
Definition orEmpty (s : option string) : string :=
  match s with
  | Some v => v
  | None => ""
  end.

(** A value inside a template literal *)
Definition show (s : option string) : string :=
  match s with
  | Some v => v
  | None => "undefined"
  end.

Fixpoint parseLotLoop (rawText cleaned : string) (patterns : list RegExpLiteral)
  : option ParsedLot :=
  match patterns with
  | [] => None
  | pattern :: more =>
      match matchLiteral pattern cleaned with
      | Some m =>
          let prefix := orEmpty (Re.item 1 m) in
          let date := Re.item 2 m in
          let suffix := orEmpty (Re.item 3 m) in
          Some {| raw := Str.trim rawText;
                  normalized := (prefix ++ show date ++ suffix)%string;
                  prefix := orUndefined (Some prefix);
                  date := orUndefined date;
                  suffix := orUndefined (Some suffix) |}
      | None => parseLotLoop rawText cleaned more
      end
  end.

Definition parseLotCode (text : string) : option ParsedLot :=
  let cleaned := Str.toUpperCase (Str.trim text) in
  parseLotLoop text cleaned LOT_PATTERNS.

(** A property access [x.length], [x.padStart] on a value that may be
    [undefined] *)
Definition member (x : option string) : Js string :=
  match x with
  | Some v => Ok v
  | None => Throw TypeError
  end.

(** [parseInt(x, 10)] where [x] may be [undefined] *)
Definition parseIntOf (x : option string) : option Z :=
  match x with
  | Some v => Str.parseInt v
  | None => None
  end.

(** Comparisons with a number that may be [NaN] *)
Definition numLt (x : option Z) (n : Z) : bool :=
  match x with Some v => (v <? n)%Z | None => false end.
Definition numGt (x : option Z) (n : Z) : bool :=
  match x with Some v => (v >? n)%Z | None => false end.

Definition numPlus (n : Z) (x : option Z) : option Z := option_map (Z.add n) x.

Definition showNumber (x : option Z) : string :=
  match x with
  | Some v => Str.ofZ v
  | None => "NaN"
  end.

Section WithHost.

Variable host : Host.

(** [isNaN(new Date(s).getTime())] *)
Definition invalidDate (s : string) : bool :=
  match Date_getTime host s with
  | Some _ => false
  | None => true
  end.

Fixpoint parseExpiryLoop (text cleaned : string) (patterns : list RegExpLiteral)
  : Js (option ParsedExpiry) :=
  match patterns with
  | [] => Ok None
  | pattern :: more =>
      match matchLiteral pattern cleaned with
      | Some m =>
          let month := Re.item 1 m in
          let day := Re.item 2 m in
          let year := Re.item 3 m in
          yearText <- member year ;;
          let fullYear :=
            if String.length yearText =? 2 then
              (if numLt (parseIntOf year) 50 then numPlus 2000 (parseIntOf year)
               else numPlus 1900 (parseIntOf year))
            else parseIntOf year in
          let monthNum := parseIntOf month in
          let dayNum := parseIntOf day in
          if numLt monthNum 1 || numGt monthNum 12 || numLt dayNum 1 || numGt dayNum 31 then
            parseExpiryLoop text cleaned more
          else
            monthText <- member month ;;
            dayText <- member day ;;
            let isoDate :=
              (showNumber fullYear ++ "-" ++ Str.padStart 2 "0" monthText
               ++ "-" ++ Str.padStart 2 "0" dayText)%string in
            if invalidDate isoDate then parseExpiryLoop text cleaned more
            else
              Ok (Some {| expiryRaw := Str.trim text;
                          expiryNormalized := isoDate;
                          confidence := 0.9%Q |})
      | None => parseExpiryLoop text cleaned more
      end
  end.

Definition parseExpiryDate (text : string) : Js (option ParsedExpiry) :=
  let cleaned := Str.trim text in
  parseExpiryLoop text cleaned EXPIRY_PATTERNS.

Definition matchesLotPattern (lot pattern : string) : Js bool :=
  try_catch
    (regex <- newRegExp host pattern "i" ;;
     Ok (RegExp_test host regex lot))
    (fun _ => Ok false).

(** [isNaN(d.getTime()) || targetDate < d] and [... || targetDate > d] for a
    bound [d = new Date(s)] *)
Definition badStart (targetDate : Z) (s : string) : bool :=
  match Date_getTime host s with
  | None => true
  | Some startDate => (targetDate <? startDate)%Z
  end.

Definition badEnd (targetDate : Z) (s : string) : bool :=
  match Date_getTime host s with
  | None => true
  | Some endDate => (targetDate >? endDate)%Z
  end.

Definition isDateInRange (date : string) (start end_ : option string) : bool :=
  match Date_getTime host date with
  | None => false
  | Some targetDate =>
      if Str.truthy start && badStart targetDate (orEmpty start) then false
      else if Str.truthy end_ && badEnd targetDate (orEmpty end_) then false
      else true
  end.

Record Extracted : Type := {
  lots : list ParsedLot;
  expiries : list ParsedExpiry
}.

(** [text.split('\n').map(line => line.trim()).filter(line => line.length > 0)] *)
Definition linesOf (text : string) : list string :=
  filter (fun line => 0 <? String.length line)
    (map Str.trim (Str.split (ascii_of_nat 10) text)).

(** The loop of [extractFromOCRText] over the lines, with the two arrays it
    pushes to. *)
Fixpoint extractLoop (lines : list string) (lots : list ParsedLot)
  (expiries : list ParsedExpiry) : Js Extracted :=
  match lines with
  | [] => Ok {| lots := lots; expiries := expiries |}
  | line :: more =>
      match parseLotCode line with
      | Some lot => extractLoop more (lots ++ [lot]) expiries
      | None =>
          expiry <- parseExpiryDate line ;;
          match expiry with
          | Some e => extractLoop more lots (expiries ++ [e])
          | None => extractLoop more lots expiries
          end
      end
  end.

Definition extractFromOCRText (text : string) : Js Extracted :=
  extractLoop (linesOf text) [] [].

End WithHost.

End Lot.

(** ** matching/text *)

Module Text.

(** [/[^\w\s]/g] *)
Definition punctuation : Re.regex :=
  Re.Sym true (fun c => Str.isWord c || Str.isSpace c).

(** [/\s+/g] *)
Definition spaces : Re.regex := Re.plus Re.space.

(** [/\b(the|a|an|and|or|but|in|on|at|to|for|of|with|by)\b/g] *)
Definition stopWords : Re.regex :=
  Re.seqs
    [Re.WordB;
     Re.Grp 1
       (Re.alts
          (map Re.lit
             ["the"; "a"; "an"; "and"; "or"; "but"; "in"; "on"; "at"; "to";
              "for"; "of"; "with"; "by"]));
     Re.WordB].

Definition normalizeText (text : string) : string :=
  Str.trim
    (Re.replaceAll false stopWords ""
       (Re.replaceAll false spaces " "
          (Re.replaceAll false punctuation " "
             (Str.trim (Str.toLowerCase text))))).

(** [a[i] = true] *)
Fixpoint mark (i : nat) (a : list bool) : list bool :=
  match a, i with
  | [], _ => []
  | _ :: t, O => true :: t
  | b :: t, S j => b :: mark j t
  end.

(** [a[i]] of a boolean array; an index outside it reads [undefined], which
    is falsy. *)
Definition flag (a : list bool) (i : nat) : bool := nth i a false.

(** [s[i] === t[j]] *)
Definition sameChar (s : string) (i : nat) (t : string) (j : nat) : bool :=
  match String.get i s, String.get j t with
  | Some c, Some d => Ascii.eqb c d
  | None, None => true
  | _, _ => false
  end.

Record Marks : Type := {
  s1Matches : list bool;
  s2Matches : list bool;
  matches : nat
}.

(** The inner loop [for (let j = start; j < end; j++)]: the first [j] that is
    neither taken nor different, if any. *)
Fixpoint firstMatch (s1Norm s2Norm : string) (taken : list bool) (i : nat)
  (js : list nat) : option nat :=
  match js with
  | [] => None
  | j :: more =>
      if flag taken j || negb (sameChar s1Norm i s2Norm j)
      then firstMatch s1Norm s2Norm taken i more
      else Some j
  end.

(** One turn of the outer loop [for (let i = 0; i < s1Norm.length; i++)]. *)
Definition findMatch (s1Norm s2Norm : string) (matchWindow : nat) (m : Marks)
  (i : nat) : Marks :=
  let start := i - matchWindow in
  let end_ := Nat.min (i + matchWindow + 1) (String.length s2Norm) in
  match firstMatch s1Norm s2Norm (s2Matches m) i (seq start (end_ - start)) with
  | Some j =>
      {| s1Matches := mark i (s1Matches m);
         s2Matches := mark j (s2Matches m);
         matches := S (matches m) |}
  | None => m
  end.

Definition findMatches (s1Norm s2Norm : string) (matchWindow : nat) : Marks :=
  fold_left (findMatch s1Norm s2Norm matchWindow)
    (seq 0 (String.length s1Norm))
    {| s1Matches := repeat false (String.length s1Norm);
       s2Matches := repeat false (String.length s2Norm);
       matches := 0 |}.

(** [while (!s2Matches[k]) k++].  Once [k] has left the array every read is
    [undefined] and the loop cannot stop, so running out of [fuel] after
    [|s2Matches| + 1] turns is divergence. *)
Fixpoint skipUnmatched (fuel : nat) (taken : list bool) (k : nat) : Js nat :=
  match fuel with
  | O => Diverge
  | S fuel' => if flag taken k then Ok k else skipUnmatched fuel' taken (S k)
  end.

(** The loop that counts transpositions; the state is [(k, transpositions)]. *)
Fixpoint countTranspositions (s1Norm s2Norm : string) (m : Marks) (indices : list nat)
  (k transpositions : nat) : Js nat :=
  match indices with
  | [] => Ok transpositions
  | i :: more =>
      if negb (flag (s1Matches m) i)
      then countTranspositions s1Norm s2Norm m more k transpositions
      else
        k' <- skipUnmatched (S (List.length (s2Matches m))) (s2Matches m) k ;;
        countTranspositions s1Norm s2Norm m more (S k')
          (if sameChar s1Norm i s2Norm k' then transpositions else S transpositions)
  end.

(** The loop of the Winkler bonus:
    [for (i = 0; i < Math.min(len1, len2, 4); i++) if (s1[i] === s2[i]) prefix++; else break]. *)
Fixpoint commonPrefix (s1Norm s2Norm : string) (indices : list nat) : nat :=
  match indices with
  | [] => 0
  | i :: more =>
      if sameChar s1Norm i s2Norm i then S (commonPrefix s1Norm s2Norm more) else 0
  end.

Definition ofNat (n : nat) : Q := inject_Z (Z.of_nat n).

Definition jaroWinklerSimilarity (s1 s2 : string) : Js Q :=
  let s1Norm := normalizeText s1 in
  let s2Norm := normalizeText s2 in
  if String.eqb s1Norm s2Norm then Ok 1.0%Q
  else if (String.length s1Norm =? 0) || (String.length s2Norm =? 0) then Ok 0.0%Q
  else
    let matchWindow :=
      (Z.of_nat (Nat.max (String.length s1Norm) (String.length s2Norm)) / 2 - 1)%Z in
    if (matchWindow <? 0)%Z then Ok 0.0%Q
    else
      let m := findMatches s1Norm s2Norm (Z.to_nat matchWindow) in
      if matches m =? 0 then Ok 0.0%Q
      else
        transpositions <-
          countTranspositions s1Norm s2Norm m (seq 0 (String.length s1Norm)) 0 0 ;;
        let jaro :=
          ((ofNat (matches m) / ofNat (String.length s1Norm)
            + ofNat (matches m) / ofNat (String.length s2Norm)
            + (ofNat (matches m) - ofNat transpositions / 2) / ofNat (matches m))
           / 3)%Q in
        let prefix :=
          commonPrefix s1Norm s2Norm
            (seq 0 (Nat.min (Nat.min (String.length s1Norm) (String.length s2Norm)) 4)) in
        Ok (jaro + 0.1 * ofNat prefix * (1 - jaro))%Q.

(** A [Map<string, number>] in insertion order. *)
Definition NGrams : Type := list (string * nat).

Fixpoint get (key : string) (m : NGrams) : option nat :=
  match m with
  | [] => None
  | (k, v) :: t => if String.eqb k key then Some v else get key t
  end.

Fixpoint set (key : string) (v : nat) (m : NGrams) : NGrams :=
  match m with
  | [] => [(key, v)]
  | (k, w) :: t => if String.eqb k key then (k, v) :: t else (k, w) :: set key v t
  end.

(** [m.get(key) || 0] *)
Definition count (key : string) (m : NGrams) : nat :=
  match get key m with
  | Some v => v
  | None => 0
  end.

Definition getNGrams (text : string) (n : nat) : NGrams :=
  fold_left
    (fun ngrams i =>
       let ngram := String.substring i n text in
       set ngram (count ngram ngrams + 1) ngrams)
    (seq 0 (String.length text + 1 - n)) [].

(** [new Set([...a, ...b])]: the keys in order of first appearance. *)
Fixpoint unique (seenKeys keys : list string) : list string :=
  match keys with
  | [] => []
  | k :: t =>
      if existsb (String.eqb k) seenKeys then unique seenKeys t
      else k :: unique (k :: seenKeys) t
  end.

Section WithHost.

Variable host : Host.

Definition cosineSimilarity (s1 s2 : string) (n : nat) : Q :=
  let s1Norm := normalizeText s1 in
  let s2Norm := normalizeText s2 in
  if String.eqb s1Norm s2Norm then 1.0%Q
  else if (String.length s1Norm =? 0) || (String.length s2Norm =? 0) then 0.0%Q
  else
    let ngrams1 := getNGrams s1Norm n in
    let ngrams2 := getNGrams s2Norm n in
    let allKeys := unique [] (map fst ngrams1 ++ map fst ngrams2) in
    let '(dotProduct, norm1, norm2) :=
      fold_left
        (fun '(dotProduct, norm1, norm2) key =>
           let count1 := count key ngrams1 in
           let count2 := count key ngrams2 in
           (dotProduct + count1 * count2, norm1 + count1 * count1, norm2 + count2 * count2))
        allKeys (0, 0, 0) in
    if (norm1 =? 0) || (norm2 =? 0) then 0.0%Q
    else (ofNat dotProduct / (Math_sqrt host (ofNat norm1) * Math_sqrt host (ofNat norm2)))%Q.

Definition isBrandSimilar (brand1 brand2 : string) (threshold : Q) : Js bool :=
  similarity <- jaroWinklerSimilarity brand1 brand2 ;;
  Ok (Qle_bool threshold similarity).

(** [Math.max(a, b)] *)
Definition max (a b : Q) : Q := if Qle_bool a b then b else a.

Definition isProductSimilar (product1 product2 : string) (threshold : Q) : Js bool :=
  jaroSim <- jaroWinklerSimilarity product1 product2 ;;
  let cosineSim := cosineSimilarity product1 product2 2 in
  let maxSim := max jaroSim cosineSim in
  Ok (Qle_bool threshold maxSim).

Record BrandMatch : Type := {
  brand : string;
  brandSimilarity : Q
}.

Record ProductMatch : Type := {
  product : string;
  productSimilarity : Q
}.

(** [a > b] on numbers *)
Definition greater (a b : Q) : bool := negb (Qle_bool a b).

(** The loop of [findBestBrandMatch], with the best match so far. *)
Fixpoint bestBrandLoop (targetBrand : string) (candidateBrands : list string)
  (threshold : Q) (bestMatch : option BrandMatch) : Js (option BrandMatch) :=
  match candidateBrands with
  | [] => Ok bestMatch
  | candidate :: more =>
      similarity <- jaroWinklerSimilarity targetBrand candidate ;;
      if Qle_bool threshold similarity
         && match bestMatch with
            | None => true
            | Some best => greater similarity (brandSimilarity best)
            end
      then bestBrandLoop targetBrand more threshold
             (Some {| brand := candidate; brandSimilarity := similarity |})
      else bestBrandLoop targetBrand more threshold bestMatch
  end.

Definition findBestBrandMatch (targetBrand : string) (candidateBrands : list string)
  (threshold : Q) : Js (option BrandMatch) :=
  bestBrandLoop targetBrand candidateBrands threshold None.

(** The loop of [findBestProductMatch], with the best match so far. *)
Fixpoint bestProductLoop (targetProduct : string) (candidateProducts : list string)
  (threshold : Q) (bestMatch : option ProductMatch) : Js (option ProductMatch) :=
  match candidateProducts with
  | [] => Ok bestMatch
  | candidate :: more =>
      jaroSim <- jaroWinklerSimilarity targetProduct candidate ;;
      let cosineSim := cosineSimilarity targetProduct candidate 2 in
      let maxSim := max jaroSim cosineSim in
      if Qle_bool threshold maxSim
         && match bestMatch with
            | None => true
            | Some best => greater maxSim (productSimilarity best)
            end
      then bestProductLoop targetProduct more threshold
             (Some {| product := candidate; productSimilarity := maxSim |})
      else bestProductLoop targetProduct more threshold bestMatch
  end.

Definition findBestProductMatch (targetProduct : string)
  (candidateProducts : list string) (threshold : Q) : Js (option ProductMatch) :=
  bestProductLoop targetProduct candidateProducts threshold None.

End WithHost.

End Text.

(** ** schemas/recall *)

Module Schema.

Inductive RecallSource : Type := fda | fsis | cpsc.

Inductive Status : Type := ongoing | terminated | unknown.

Record Expiration : Type := {
  start : option string;
  end_ : option string
}.

Record Links : Type := {
  official : string;
  manufacturer : option string
}.

Record RecallRecord : Type := {
  id : string;
  source : RecallSource;
  brand : list string;
  product : string;
  upcs : list string;
  lotRegex : option (list string);
  expiration : option Expiration;
  hazard : string;
  actions : list string;
  jurisdictions : option (list string);
  links : Links;
  published : string;
  updated : option string;
  status : option Status
}.

Inductive Decision : Type := GREEN | YELLOW | RED.

Record MatchResult : Type := {
  decision : Decision;
  reasons : list string;
  matches : list RecallRecord;
  confidence : option Q
}.

End Schema.

(** ** matching/decision *)

Module Decision.

Import Schema.

Record DecisionInput : Type := {
  upc : option string;
  brand : option string;
  product : option string;
  lot : option string;
  expiry : option string;
  sourceHits : list RecallRecord
}.

(** An optional value read as a condition: an object or array is truthy
    whenever it is present. *)
Definition present {A : Type} (o : option A) : bool :=
  match o with
  | Some _ => true
  | None => false
  end.

(** The callback of [record.upcs.some(...)] in [findUPCMatches]. *)
Definition upcEntryMatches (normalizedUPC : Upc.UPCDetails) (recordUPC : string) : bool :=
  let normalizedRecordUPC := Upc.normalizeUPC recordUPC in
  Upc.isValid normalizedRecordUPC &&
  (String.eqb (Upc.normalized normalizedUPC) (Upc.normalized normalizedRecordUPC)
   || Upc.areUPCEquivalent (Upc.normalized normalizedUPC)
        (Upc.normalized normalizedRecordUPC)).

Definition findUPCMatches (upc : option string) (records : list RecallRecord)
  : list RecallRecord :=
  if negb (Str.truthy upc) then []
  else
    let normalizedUPC := Upc.normalizeUPC (Lot.orEmpty upc) in
    if negb (Upc.isValid normalizedUPC) then []
    else filter (fun record => existsb (upcEntryMatches normalizedUPC) (upcs record)) records.

Section WithHost.

Variable host : Host.

(** [record.lotRegex.some(pattern => matchesLotPattern(lot, pattern))] *)
Definition someLotPattern (lot : string) (patterns : list string) : Js bool :=
  someM (fun pattern => Lot.matchesLotPattern host lot pattern) patterns.

(** [record.lotRegex] and the bounds of [record.expiration], read where the
    sources have already tested that they are present. *)
Definition patternsOf (record : RecallRecord) : list string :=
  match lotRegex record with
  | Some patterns => patterns
  | None => []
  end.

Definition windowStart (record : RecallRecord) : option string :=
  match expiration record with
  | Some window => start window
  | None => None
  end.

Definition windowEnd (record : RecallRecord) : option string :=
  match expiration record with
  | Some window => end_ window
  | None => None
  end.

(** The filter of tier 1:
    [!record.lotRegex || !lot || record.lotRegex.some(...)]. *)
Definition lotAdmits (lot : option string) (record : RecallRecord) : Js bool :=
  if negb (present (lotRegex record)) || negb (Str.truthy lot) then Ok true
  else someLotPattern (Lot.orEmpty lot) (patternsOf record).

(** The filter of tier 2 that selects the constrained records:
    [record.lotRegex || record.expiration]. *)
Definition constrained (record : RecallRecord) : bool :=
  present (lotRegex record) || present (expiration record).

(** The filter of tier 2 that re-checks a constrained record:
    [if (record.lotRegex && lot) return record.lotRegex.some(...);
     if (record.expiration && expiry) return isDateInRange(...);
     return false]. *)
Definition constraintHolds (lot expiry : option string) (record : RecallRecord)
  : Js bool :=
  if present (lotRegex record) && Str.truthy lot then
    someLotPattern (Lot.orEmpty lot) (patternsOf record)
  else if present (expiration record) && Str.truthy expiry then
    Ok (Lot.isDateInRange host (Lot.orEmpty expiry)
          (windowStart record) (windowEnd record))
  else Ok false.

(** The body of the loop of [findBrandProductMatches]: whether [record] is
    pushed. *)
Definition brandProductMatch (brand product : option string) (record : RecallRecord)
  : Js bool :=
  brandMatch <-
    (if Str.truthy brand
     then someM (fun recordBrand =>
                   Text.isBrandSimilar (Lot.orEmpty brand) recordBrand 0.8%Q)
            (Schema.brand record)
     else Ok true) ;;
  productMatch <-
    (if Str.truthy product
     then Text.isProductSimilar host (Lot.orEmpty product) (Schema.product record) 0.7%Q
     else Ok true) ;;
  Ok (brandMatch && productMatch).

Definition findBrandProductMatches (brand product : option string)
  (records : list RecallRecord) : Js (list RecallRecord) :=
  if negb (Str.truthy brand) && negb (Str.truthy product) then Ok []
  else filterM (brandProductMatch brand product) records.

Definition noRecall : MatchResult :=
  {| decision := GREEN;
     reasons := ["No recalls found for this product"];
     matches := [];
     confidence := None |}.

Definition decide (input : DecisionInput) : Js MatchResult :=
  let '(Build_DecisionInput upc brand product lot expiry sourceHits) := input in
  if List.length sourceHits =? 0 then Ok noRecall
  else
    (* Tier 1: exact UPC match with lot/date validation *)
    let upcMatches := findUPCMatches upc sourceHits in
    if 0 <? List.length upcMatches then
      redMatches <- filterM (lotAdmits lot) upcMatches ;;
      if 0 <? List.length redMatches then
        Ok {| decision := RED;
              reasons :=
                ["Exact UPC match found";
                 if Str.truthy lot then "Lot code matches recall criteria"
                 else "No lot code restrictions in recall"];
              matches := redMatches;
              confidence := Some 0.95%Q |}
      else
        Ok {| decision := YELLOW;
              reasons :=
                ["Exact UPC match found";
                 "Your lot code does not match the recalled lots";
                 "Please verify your lot code matches the recall notice"];
              matches := upcMatches;
              confidence := Some 0.8%Q |}
    else
      (* Tier 2: brand + product fuzzy match *)
      brandProductMatches <- findBrandProductMatches brand product sourceHits ;;
      if 0 <? List.length brandProductMatches then
        let constrainedMatches := filter constrained brandProductMatches in
        if 0 <? List.length constrainedMatches then
          lotMatches <- filterM (constraintHolds lot expiry) constrainedMatches ;;
          if 0 <? List.length lotMatches then
            Ok {| decision := RED;
                  reasons :=
                    ["Brand and product match found";
                     "Lot/expiry date matches recall criteria"];
                  matches := lotMatches;
                  confidence := Some 0.85%Q |}
          else
            Ok {| decision := YELLOW;
                  reasons :=
                    ["Brand and product match found";
                     "Your lot/expiry date does not match the recalled range";
                     "Please verify your lot/expiry date matches the recall notice"];
                  matches := constrainedMatches;
                  confidence := Some 0.7%Q |}
        else
          Ok {| decision := YELLOW;
                reasons :=
                  ["Brand and product match found";
                   "No specific lot/date restrictions in recall";
                   "Please verify this matches your product"];
                matches := brandProductMatches;
                confidence := Some 0.6%Q |}
      else Ok noRecall.

End WithHost.

(** [matches.length === 1 ? one(matches[0].hazard) : many(matches.length)] *)
Definition hazardOrCount (matches : list RecallRecord)
  (one : string -> string) (many : string -> string) : string :=
  match matches with
  | [record] => one (hazard record)
  | _ => many (Str.ofZ (Z.of_nat (List.length matches)))
  end.

Definition generateReasons (decision : Schema.Decision) (matches : list RecallRecord)
  : list string :=
  match decision with
  | RED =>
      ["⚠️ This product has been recalled";
       hazardOrCount matches
         (fun hazard => "Recall: " ++ hazard)%string
         (fun count => "Found " ++ count ++ " matching recalls")%string]
  | YELLOW =>
      ["⚠️ Similar product has been recalled";
       "Please verify this matches your specific product";
       hazardOrCount matches
         (fun hazard => "Potential recall: " ++ hazard)%string
         (fun count => "Found " ++ count ++ " potential matches")%string]
  | GREEN =>
      ["✅ No recalls found for this product";
       "This product appears to be safe"]
  end.

End Decision.

(** ** A reference host

    A concrete [Host] on which the examples are evaluated.

    - [RegExp]: pattern strings are read by [parsePattern] into [Re.regex] and
      run by [Re.test].  The reader covers literals, [.], the escapes [\d \D
      \w \W \s \S \b \t \n \r \f \v] and escaped punctuation, classes with
      ranges and negation, capturing and [(?:...)] groups, alternation and the
      quantifiers [* + ? {n} {n,} {n,m}] (a lazy mark [?] does not change
      whether a match exists and is skipped).  It refuses what the
      constructor refuses on this fragment: an unclosed or unopened group, an
      unclosed class, a class range out of order, a quantifier with nothing
      to repeat or with its bounds out of order, a trailing backslash.
      Look-around, back-references and named groups are outside the fragment.
    - [Date]: the date-only ISO form [YYYY-MM-DD], read strictly: the day must
      exist in the month.  The time value is in milliseconds since the epoch.
    - [Math.sqrt]: the square root rounded down at ten decimal places. *)

Module Reference.

Record Frame : Type := {
  done : list Re.regex;        (* alternatives already closed, latest first *)
  current : list Re.regex;     (* atoms of the open alternative, latest first *)
  group : option nat           (* the capture index of the group, if any *)
}.

Inductive Last : Type := Nothing | Atom | Quantified.

Definition close (f : Frame) : Re.regex :=
  let r := Re.alts (rev (Re.seqs (rev (current f)) :: done f)) in
  match group f with
  | Some i => Re.Grp i r
  | None => r
  end.

Definition push (a : Re.regex) (f : Frame) : Frame :=
  {| done := done f; current := a :: current f; group := group f |}.

Definition quantify (lo : nat) (hi : option nat) (f : Frame) : option Frame :=
  match current f with
  | a :: t => Some {| done := done f; current := Re.Rep lo hi a :: t; group := group f |}
  | [] => None
  end.

Fixpoint readNat (acc : nat) (l : list ascii) : nat * list ascii :=
  match l with
  | c :: t => if Str.isDigit c then readNat (10 * acc + (Str.code c - 48)) t else (acc, l)
  | [] => (acc, l)
  end.

(** The text after an opening brace, when it is a quantifier. *)
Definition readBounds (l : list ascii) : option (nat * option nat * list ascii) :=
  if Str.startsWithDigit l then
    let '(lo, l1) := readNat 0 l in
    match l1 with
    | "}"%char :: l2 => Some (lo, Some lo, l2)
    | ","%char :: "}"%char :: l2 => Some (lo, None, l2)
    | ","%char :: l2 =>
        if Str.startsWithDigit l2 then
          let '(hi, l3) := readNat 0 l2 in
          match l3 with
          | "}"%char :: l4 => Some (lo, Some hi, l4)
          | _ => None
          end
        else None
    | _ => None
    end
  else None.

(** Bounds out of order: [{n,m}] with [m < n]. *)
Definition outOfOrder (hi : option nat) (lo : nat) : bool :=
  match hi with
  | Some h => h <? lo
  | None => false
  end.

Definition isLineEnd (c : ascii) : bool := (Str.code c =? 10) || (Str.code c =? 13).

(** The class or character an escape letter stands for. *)
Definition escapeSet (c : ascii) : ascii -> bool :=
  if Ascii.eqb c "d" then Str.isDigit
  else if Ascii.eqb c "D" then (fun x => negb (Str.isDigit x))
  else if Ascii.eqb c "w" then Str.isWord
  else if Ascii.eqb c "W" then (fun x => negb (Str.isWord x))
  else if Ascii.eqb c "s" then Str.isSpace
  else if Ascii.eqb c "S" then (fun x => negb (Str.isSpace x))
  else if Ascii.eqb c "t" then Ascii.eqb (ascii_of_nat 9)
  else if Ascii.eqb c "n" then Ascii.eqb (ascii_of_nat 10)
  else if Ascii.eqb c "v" then Ascii.eqb (ascii_of_nat 11)
  else if Ascii.eqb c "f" then Ascii.eqb (ascii_of_nat 12)
  else if Ascii.eqb c "r" then Ascii.eqb (ascii_of_nat 13)
  else Ascii.eqb c.

(** The members of a class, after its opening bracket and negation mark. *)
Fixpoint readClass (fuel : nat) (acc : list (ascii -> bool)) (l : list ascii)
  : option (list (ascii -> bool) * list ascii) :=
  match fuel with
  | O => None
  | S fuel' =>
      match l with
      | [] => None
      | "]"%char :: t => Some (acc, t)
      | "\"%char :: c :: t => readClass fuel' (escapeSet c :: acc) t
      | "\"%char :: [] => None
      | lo :: "-"%char :: hi :: t =>
          if Ascii.eqb hi "]" then readClass fuel' (Ascii.eqb lo :: acc) ("-"%char :: hi :: t)
          else if Ascii.eqb hi "\" then None
          else if Str.code hi <? Str.code lo then None
          else readClass fuel' (Str.inRange (Str.code lo) (Str.code hi) :: acc) t
      | c :: t => readClass fuel' (Ascii.eqb c :: acc) t
      end
  end.

Definition classOf (neg : bool) (members : list (ascii -> bool)) : Re.regex :=
  Re.Sym neg (fun c => existsb (fun p => p c) members).

Fixpoint parse (fuel : nat) (next : nat) (last : Last) (top : Frame)
  (stack : list Frame) (l : list ascii) : option Re.regex :=
  match fuel with
  | O => None
  | S fuel' =>
      let atom a t := parse fuel' next Atom (push a top) stack t in
      let assertion a t := parse fuel' next Nothing (push a top) stack t in
      let quantifier lo hi t :=
        match last with
        | Atom =>
            match quantify lo hi top with
            | Some top' => parse fuel' next Quantified top' stack t
            | None => None
            end
        | _ => None
        end in
      match l with
      | [] => match stack with [] => Some (close top) | _ :: _ => None end
      | "("%char :: "?"%char :: ":"%char :: t =>
          parse fuel' next Nothing {| done := []; current := []; group := None |}
            (top :: stack) t
      | "("%char :: "?"%char :: _ => None
      | "("%char :: t =>
          parse fuel' (S next) Nothing
            {| done := []; current := []; group := Some next |} (top :: stack) t
      | ")"%char :: t =>
          match stack with
          | parent :: stack' => parse fuel' next Atom (push (close top) parent) stack' t
          | [] => None
          end
      | "|"%char :: t =>
          parse fuel' next Nothing
            {| done := Re.seqs (rev (current top)) :: done top; current := [];
               group := group top |} stack t
      | "*"%char :: t => quantifier 0 None t
      | "+"%char :: t => quantifier 1 None t
      | "?"%char :: t =>
          match last with
          | Quantified => parse fuel' next Nothing top stack t
          | _ => quantifier 0 (Some 1) t
          end
      | "{"%char :: t =>
          match readBounds t with
          | Some (lo, hi, t') =>
              if outOfOrder hi lo then None else quantifier lo hi t'
          | None => atom (Re.chr "{") t
          end
      | "["%char :: "^"%char :: t =>
          match readClass (S (List.length t)) [] t with
          | Some (members, t') => atom (classOf true members) t'
          | None => None
          end
      | "["%char :: t =>
          match readClass (S (List.length t)) [] t with
          | Some (members, t') => atom (classOf false members) t'
          | None => None
          end
      | "\"%char :: "b"%char :: t => assertion Re.WordB t
      | "\"%char :: c :: t =>
          if Str.isDigit c || Ascii.eqb c "B" || Ascii.eqb c "k" then None
          else atom (Re.Sym false (escapeSet c)) t
      | "\"%char :: [] => None
      | "."%char :: t => atom (Re.Sym true isLineEnd) t
      | "^"%char :: t => assertion Re.Bol t
      | "$"%char :: t => assertion Re.Eol t
      | c :: t => atom (Re.chr c) t
      end
  end.

Definition parsePattern (pattern : string) : option Re.regex :=
  let l := Str.chars pattern in
  parse (S (List.length l)) 1 Nothing {| done := []; current := []; group := None |} [] l.

Definition compile (pattern flags : string) : option RegExpLiteral :=
  match parsePattern pattern with
  | Some r =>
      if String.eqb flags "" then Some {| ignoreCase := false; body := r |}
      else if String.eqb flags "i" then Some {| ignoreCase := true; body := r |}
      else None
  | None => None
  end.

Definition isLeap (y : Z) : bool :=
  ((y mod 4 =? 0) && negb (y mod 100 =? 0) || (y mod 400 =? 0))%Z.

Definition daysInMonth (y m : Z) : Z :=
  if (m =? 2)%Z then (if isLeap y then 29 else 28)%Z
  else if ((m =? 4) || (m =? 6) || (m =? 9) || (m =? 11))%Z then 30%Z
  else 31%Z.

(** Days from 1970-01-01 to the civil date [y-m-d]. *)
Definition daysFromCivil (y m d : Z) : Z :=
  let y' := (if m <=? 2 then y - 1 else y)%Z in
  let era := (y' / 400)%Z in
  let yoe := (y' - era * 400)%Z in
  let doy := ((153 * (if m >? 2 then m - 3 else m + 9) + 2) / 5 + d - 1)%Z in
  let doe := (yoe * 365 + yoe / 4 - yoe / 100 + doy)%Z in
  (era * 146097 + doe - 719468)%Z.

Definition number (l : list ascii) : Z := Str.parseDigits 0 l.

Definition getTime (s : string) : option Z :=
  match Str.chars s with
  | [y1; y2; y3; y4; "-"%char; m1; m2; "-"%char; d1; d2] =>
      if forallb Str.isDigit [y1; y2; y3; y4; m1; m2; d1; d2] then
        let y := number [y1; y2; y3; y4] in
        let m := number [m1; m2] in
        let d := number [d1; d2] in
        if ((1 <=? m) && (m <=? 12) && (1 <=? d) && (d <=? daysInMonth y m))%Z
        then Some (daysFromCivil y m d * 86400000)%Z
        else None
      else None
  | _ => None
  end.

Definition sqrt (q : Q) : Q :=
  Qmake (Z.sqrt (Qnum q * 10 ^ 20 / Zpos (Qden q))) (10 ^ 10).

Definition host : Host :=
  {| RegExp := RegExpLiteral;
     RegExp_compile := compile;
     RegExp_test := fun re text => Re.test (ignoreCase re) (body re) text;
     Date_getTime := getTime;
     Math_sqrt := sqrt |}.

End Reference.

(** * Properties *)

(** ** Computations that return *)

Definition returns {A : Type} (m : Js A) : Prop := exists a, m = Ok a.

Lemma returns_Ok {A : Type} (a : A) : returns (Ok a).
Proof. now exists a. Qed.

Lemma returns_bind {A B : Type} (m : Js A) (k : A -> Js B) :
  returns m -> (forall a, m = Ok a -> returns (k a)) -> returns (bind m k).
Proof.
  intros [a Ha] Hk. rewrite Ha. cbn. now apply Hk.
Qed.

Lemma someM_returns {A : Type} (f : A -> Js bool) (xs : list A) :
  (forall x, In x xs -> returns (f x)) -> returns (someM f xs).
Proof.
  induction xs as [|x xs IH]; intros Hf; cbn.
  - apply returns_Ok.
  - destruct (Hf x (or_introl eq_refl)) as [b Hb]. rewrite Hb. cbn.
    destruct b.
    + apply returns_Ok.
    + apply IH. intros y Hy. apply Hf. now right.
Qed.

Lemma filterM_spec {A : Type} (f : A -> Js bool) (xs : list A) :
  (forall x, In x xs -> returns (f x)) ->
  exists kept, filterM f xs = Ok kept
               /\ forall x, In x kept <-> In x xs /\ f x = Ok true.
Proof.
  induction xs as [|x xs IH]; intros Hf; cbn.
  - exists []. split; [reflexivity | intros x; cbn; tauto].
  - destruct (Hf x (or_introl eq_refl)) as [b Hb]. rewrite Hb. cbn.
    destruct IH as [kept [Hk Hin]]; [intros y Hy; apply Hf; now right|].
    rewrite Hk. cbn. eexists. split; [reflexivity|].
    intros y. destruct b; cbn; rewrite ?Hin.
    + split.
      * intros [Heq | [Hy Hfy]]; [subst y; split; [now left | exact Hb] | split; [now right | exact Hfy]].
      * intros [[Heq | Hy] Hfy]; [now left | right; now split].
    + split.
      * intros [Hy Hfy]. split; [now right | exact Hfy].
      * intros [[Heq | Hy] Hfy]; [subst y; rewrite Hb in Hfy; discriminate | now split].
Qed.

Section HostFacts.

Variable host : Host.

Lemma matchesLotPattern_value (lot pattern : string) :
  Lot.matchesLotPattern host lot pattern =
  Ok (match RegExp_compile host pattern "i" with
      | Some re => RegExp_test host re lot
      | None => false
      end).
Proof.
  unfold Lot.matchesLotPattern, newRegExp.
  destruct (RegExp_compile host pattern "i"); reflexivity.
Qed.

Lemma matchesLotPattern_returns (lot pattern : string) :
  returns (Lot.matchesLotPattern host lot pattern).
Proof. rewrite matchesLotPattern_value. apply returns_Ok. Qed.

Lemma someLotPattern_returns (lot : string) (patterns : list string) :
  returns (Decision.someLotPattern host lot patterns).
Proof.
  apply someM_returns. intros p _. apply matchesLotPattern_returns.
Qed.

Lemma lotAdmits_returns (lot : option string) (record : Schema.RecallRecord) :
  returns (Decision.lotAdmits host lot record).
Proof.
  unfold Decision.lotAdmits.
  destruct (negb _ || negb _); [apply returns_Ok | apply someLotPattern_returns].
Qed.

Lemma constraintHolds_returns (lot expiry : option string) (record : Schema.RecallRecord) :
  returns (Decision.constraintHolds host lot expiry record).
Proof.
  unfold Decision.constraintHolds.
  destruct (_ && _); [apply someLotPattern_returns|].
  destruct (_ && _); apply returns_Ok.
Qed.

End HostFacts.

Lemma findUPCMatches_nil (upc : option string) :
  Decision.findUPCMatches upc [] = [].
Proof.
  unfold Decision.findUPCMatches.
  destruct (negb (Str.truthy upc)); [reflexivity|].
  destruct (negb _); reflexivity.
Qed.

Lemma positive_length_true {A : Type} (l : list A) :
  (0 <? List.length l) = true <-> l <> [].
Proof. destruct l; cbn; split; congruence. Qed.

(** The two outcomes of the UPC tier. *)
Definition upcRed (lot : option string) (redMatches : list Schema.RecallRecord)
  : Schema.MatchResult :=
  {| Schema.decision := Schema.RED;
     Schema.reasons :=
       ["Exact UPC match found";
        if Str.truthy lot then "Lot code matches recall criteria"
        else "No lot code restrictions in recall"];
     Schema.matches := redMatches;
     Schema.confidence := Some 0.95%Q |}.

Definition upcYellow (upcMatches : list Schema.RecallRecord) : Schema.MatchResult :=
  {| Schema.decision := Schema.YELLOW;
     Schema.reasons :=
       ["Exact UPC match found";
        "Your lot code does not match the recalled lots";
        "Please verify your lot code matches the recall notice"];
     Schema.matches := upcMatches;
     Schema.confidence := Some 0.8%Q |}.

(** Whenever the UPC filter keeps a record, [decide] answers from tier 1. *)
Lemma decide_tier1 (host : Host) (input : Decision.DecisionInput) :
  Decision.findUPCMatches (Decision.upc input) (Decision.sourceHits input) <> [] ->
  exists redMatches,
    filterM (Decision.lotAdmits host (Decision.lot input))
      (Decision.findUPCMatches (Decision.upc input) (Decision.sourceHits input))
    = Ok redMatches
    /\ (forall r, In r redMatches <->
                  In r (Decision.findUPCMatches (Decision.upc input)
                          (Decision.sourceHits input))
                  /\ Decision.lotAdmits host (Decision.lot input) r = Ok true)
    /\ Decision.decide host input =
       Ok (if 0 <? List.length redMatches
           then upcRed (Decision.lot input) redMatches
           else upcYellow (Decision.findUPCMatches (Decision.upc input)
                             (Decision.sourceHits input))).
Proof.
  destruct input as [upc brand product lot expiry hits]. cbn [Decision.upc Decision.sourceHits Decision.lot].
  intros Hne.
  destruct (filterM_spec (Decision.lotAdmits host lot) (Decision.findUPCMatches upc hits))
    as [red [Hred Hin]]; [intros; apply lotAdmits_returns|].
  exists red. split; [exact Hred|]. split; [exact Hin|].
  unfold Decision.decide.
  destruct hits as [|h hits]; [now rewrite findUPCMatches_nil in Hne|].
  cbn [List.length Nat.eqb].
  apply positive_length_true in Hne. rewrite Hne, Hred. cbn [bind].
  destruct (0 <? List.length red); reflexivity.
Qed.

Lemma valid_upc_truthy (u : string) :
  Upc.isValid (Upc.normalizeUPC u) = true -> Str.truthy (Some u) = true.
Proof.
  destruct u; [vm_compute; discriminate | reflexivity].
Qed.

Lemma findUPCMatches_In (u : string) (records : list Schema.RecallRecord)
  (r : Schema.RecallRecord) (e : string) :
  Upc.isValid (Upc.normalizeUPC u) = true ->
  In r records -> In e (Schema.upcs r) ->
  Decision.upcEntryMatches (Upc.normalizeUPC u) e = true ->
  In r (Decision.findUPCMatches (Some u) records).
Proof.
  intros Hv Hr He Hm. unfold Decision.findUPCMatches.
  rewrite (valid_upc_truthy u Hv). cbn [negb Lot.orEmpty]. rewrite Hv. cbn [negb].
  apply filter_In. split; [exact Hr|].
  apply existsb_exists. now exists e.
Qed.

(** ** The UPC tier *)

(** The scan's lot code satisfies a lot restriction: there is a lot code and
    one of the patterns matches it. *)
Definition lotSatisfies (host : Host) (lot : option string) (patterns : list string)
  : Prop :=
  exists l, lot = Some l /\ Decision.someLotPattern host l patterns = Ok true.

(** The rule of the UPC tier with the lot restriction as the only test: RED
    when some UPC-matched record is unrestricted or satisfied, YELLOW when
    every UPC-matched record is restricted and not satisfied. *)
Definition upc_tier_by_lot_restriction (host : Host) (input : Decision.DecisionInput)
  : Prop :=
  let matched :=
    Decision.findUPCMatches (Decision.upc input) (Decision.sourceHits input) in
  forall res, Decision.decide host input = Ok res ->
    ((exists r, In r matched
                /\ (Schema.lotRegex r = None
                    \/ exists ps, Schema.lotRegex r = Some ps
                                  /\ lotSatisfies host (Decision.lot input) ps)) ->
     Schema.decision res = Schema.RED /\ Schema.confidence res = Some 0.95%Q)
    /\ ((forall r, In r matched ->
                   exists ps, Schema.lotRegex r = Some ps
                              /\ ~ lotSatisfies host (Decision.lot input) ps) ->
        Schema.decision res = Schema.YELLOW /\ Schema.confidence res = Some 0.8%Q).

Definition sampleLinks : Schema.Links :=
  {| Schema.official := "https://www.fda.gov/recalls/F-0001-2024";
     Schema.manufacturer := None |}.

(** The record of the example scenarios: one UPC-A code, the lot pattern
    [^L2201$], and a window of affected expiry dates. *)
Definition crackers : Schema.RecallRecord :=
  {| Schema.id := "F-0001-2024";
     Schema.source := Schema.fda;
     Schema.brand := ["acme foods"];
     Schema.product := "peanut butter crackers";
     Schema.upcs := ["012345678905"];
     Schema.lotRegex := Some ["^L2201$"];
     Schema.expiration :=
       Some {| Schema.start := Some "2024-01-01"; Schema.end_ := Some "2024-12-31" |};
     Schema.hazard := "Undeclared peanuts";
     Schema.actions := ["Do not consume"; "Return to store"];
     Schema.jurisdictions := None;
     Schema.links := sampleLinks;
     Schema.published := "2024-01-15";
     Schema.updated := None;
     Schema.status := Some Schema.ongoing |}.

Definition scanUpcOnly : Decision.DecisionInput :=
  {| Decision.upc := Some "012345678905";
     Decision.brand := None;
     Decision.product := None;
     Decision.lot := None;
     Decision.expiry := None;
     Decision.sourceHits := [crackers] |}.

Definition scanUpcAndLot : Decision.DecisionInput :=
  {| Decision.upc := Some "012345678905";
     Decision.brand := Some "Acme Foods";
     Decision.product := Some "Peanut Butter Crackers";
     Decision.lot := Some "L2205";
     Decision.expiry := None;
     Decision.sourceHits := [crackers] |}.

Example scanUpcAndLot_yellow :
  Decision.decide Reference.host scanUpcAndLot = Ok (upcYellow [crackers]).
Proof. vm_compute. reflexivity. Qed.

(** C1, as stated, fails: a scan with a valid UPC and no lot code against a
    UPC-matched record that carries a lot restriction.  No lot code satisfies
    the restriction, yet [decide] answers RED with confidence 0.95. *)
Lemma upc_tier_no_lot_counterexample :
  Decision.findUPCMatches (Decision.upc scanUpcOnly) (Decision.sourceHits scanUpcOnly)
  = [crackers]
  /\ Decision.decide Reference.host scanUpcOnly = Ok (upcRed None [crackers])
  /\ ~ upc_tier_by_lot_restriction Reference.host scanUpcOnly.
Proof.
  split; [vm_compute; reflexivity|].
  assert (Hd : Decision.decide Reference.host scanUpcOnly = Ok (upcRed None [crackers]))
    by (vm_compute; reflexivity).
  split; [exact Hd|].
  intros Hclaim.
  destruct (Hclaim _ Hd) as [_ Hyellow].
  assert (Hm : Decision.findUPCMatches (Decision.upc scanUpcOnly)
                 (Decision.sourceHits scanUpcOnly) = [crackers])
    by (vm_compute; reflexivity).
  cbv zeta in Hyellow. rewrite Hm in Hyellow.
  destruct Hyellow as [Hdec _].
  - intros r [<- | []]. exists ["^L2201$"]. split; [reflexivity|].
    intros [l [Hl _]]. discriminate Hl.
  - discriminate Hdec.
Qed.

(** C1 (amended): for a scan whose UPC is valid and a candidate set with a
    UPC-matched record, [decide] answers RED with confidence 0.95 when the scan
    has no lot code, or some UPC-matched record has no lot restriction or a
    lot pattern that matches the scan's lot code; it answers YELLOW with
    confidence 0.8 when the scan has a lot code and every UPC-matched record
    has a lot restriction none of whose patterns matches it. *)
Theorem decide_upc_tier (host : Host) (input : Decision.DecisionInput)
  (u : string) (r : Schema.RecallRecord) (e : string) :
  Decision.upc input = Some u ->
  Upc.isValid (Upc.normalizeUPC u) = true ->
  In r (Decision.sourceHits input) ->
  In e (Schema.upcs r) ->
  Decision.upcEntryMatches (Upc.normalizeUPC u) e = true ->
  let matched :=
    Decision.findUPCMatches (Decision.upc input) (Decision.sourceHits input) in
  let lot := Decision.lot input in
  exists res,
    Decision.decide host input = Ok res
    /\ ((Str.truthy lot = false
         \/ exists r', In r' matched
                       /\ (Schema.lotRegex r' = None
                           \/ Decision.someLotPattern host (Lot.orEmpty lot)
                                (Decision.patternsOf r') = Ok true)) ->
        Schema.decision res = Schema.RED /\ Schema.confidence res = Some 0.95%Q)
    /\ ((Str.truthy lot = true
         /\ forall r', In r' matched ->
                       Schema.lotRegex r' <> None
                       /\ Decision.someLotPattern host (Lot.orEmpty lot)
                            (Decision.patternsOf r') = Ok false) ->
        Schema.decision res = Schema.YELLOW /\ Schema.confidence res = Some 0.8%Q).
Proof.
  intros Hu Hv Hr He Hm matched lot.
  assert (Hin : In r matched).
  { subst matched. rewrite Hu. now apply findUPCMatches_In with (e := e). }
  destruct (decide_tier1 host input) as [red [_ [Hred Hdec]]].
  { fold matched. intros Hnil. rewrite Hnil in Hin. exact Hin. }
  fold matched in Hred, Hdec. fold lot in Hred, Hdec.
  eexists. split; [exact Hdec|]. split.
  - intros Hcase.
    assert (Hex : exists r', In r' red).
    { destruct Hcase as [Hlot | [r' [Hr' Hcase]]].
      - exists r. apply Hred. split; [exact Hin|].
        unfold Decision.lotAdmits. rewrite Hlot. now rewrite orb_true_r.
      - exists r'. apply Hred. split; [exact Hr'|].
        unfold Decision.lotAdmits. destruct Hcase as [Hnone | Hsome].
        + now rewrite Hnone.
        + destruct (negb _ || negb _); [reflexivity | exact Hsome]. }
    destruct Hex as [r' Hr']. destruct red; [destruct Hr'|]. cbn. now split.
  - intros [Hlot Hall].
    destruct red as [|r' red]; [cbn; now split|].
    exfalso. destruct (proj1 (Hred r') (or_introl eq_refl)) as [Hr' Had].
    destruct (Hall r' Hr') as [Hsome Hfail].
    unfold Decision.lotAdmits in Had. rewrite Hlot in Had.
    destruct (Schema.lotRegex r'); [|congruence].
    cbn in Had. congruence.
Qed.

Lemma decide_upc_tier_witness :
  exists res,
    Decision.decide Reference.host scanUpcAndLot = Ok res
    /\ Schema.decision res = Schema.YELLOW
    /\ Schema.confidence res = Some 0.8%Q.
Proof.
  destruct (decide_upc_tier Reference.host scanUpcAndLot "012345678905" crackers
              "012345678905") as [res [Hres [_ Hyellow]]].
  - reflexivity.
  - vm_compute. reflexivity.
  - left. reflexivity.
  - left. reflexivity.
  - vm_compute. reflexivity.
  - exists res. split; [exact Hres|]. apply Hyellow. split; [reflexivity|].
    intros r' Hr'. vm_compute in Hr'. destruct Hr' as [<- | []].
    split; [discriminate | vm_compute; reflexivity].
Defined.

(** ** Tier priority *)



(** ** The scan without any field *)

(** C7: for every candidate set, a scan in which [upc], [brand], [product],
    [lot] and [expiry] are all absent makes [decide] return, without failing,
    GREEN with no matches and no confidence. *)
Theorem decide_no_fields (host : Host) (candidates : list Schema.RecallRecord) :
  Decision.decide host
    {| Decision.upc := None; Decision.brand := None; Decision.product := None;
       Decision.lot := None; Decision.expiry := None;
       Decision.sourceHits := candidates |}
  = Ok {| Schema.decision := Schema.GREEN;
          Schema.reasons := ["No recalls found for this product"];
          Schema.matches := [];
          Schema.confidence := None |}.
Proof.
  unfold Decision.decide.
  destruct candidates as [|c candidates]; reflexivity.
Qed.

(** ** The constraint re-check of the brand and product tier *)

Lemma filterM_sub {A : Type} (f : A -> Js bool) (xs kept : list A) :
  filterM f xs = Ok kept -> forall x, In x kept -> In x xs.
Proof.
  revert kept. induction xs as [|x xs IH]; cbn; intros kept Hk y Hy.
  - injection Hk as <-. exact Hy.
  - destruct (f x) as [b| |]; cbn in Hk; try discriminate.
    destruct (filterM f xs) as [tl| |]; cbn in Hk; try discriminate.
    injection Hk as <-. destruct b.
    + destruct Hy as [<- | Hy]; [now left | right; now apply (IH tl)].
    + right. now apply (IH tl).
Qed.

Lemma findBrandProductMatches_sub (host : Host) (brand product : option string)
  (records matched : list Schema.RecallRecord) :
  Decision.findBrandProductMatches host brand product records = Ok matched ->
  forall r, In r matched -> In r records.
Proof.
  unfold Decision.findBrandProductMatches.
  destruct (negb _ && negb _).
  - intros H r Hr. injection H as <-. destruct Hr.
  - apply filterM_sub.
Qed.

(** C10: in the re-check of the brand and product tier, a record with both
    lot patterns and an expiration window, against a scan with both a lot
    code and an expiry date, is classified by the lot patterns alone: the
    re-check of the record is the lot-pattern test, the same for every
    record with these patterns whatever its window.  So when the lot code
    fails every pattern the record is constrained but unsatisfied, even if
    its window contains the scanned date: it is never among the records
    that pass.  [decide] then answers YELLOW with confidence 0.7 over all
    the constrained matches, this record among them, exactly when no
    matched record passes the re-check, in particular when no other record
    does; and it answers RED with confidence 0.85 over exactly the records
    that pass, this record not among them, when some do. *)
Theorem tier2_lot_patterns_decide (host : Host) (input : Decision.DecisionInput)
  (r : Schema.RecallRecord) (l e : string) (ps : list string)
  (w : Schema.Expiration) :
  Decision.lot input = Some l -> l <> "" ->
  Decision.expiry input = Some e -> e <> "" ->
  Schema.lotRegex r = Some ps ->
  Schema.expiration r = Some w ->
  Decision.constraintHolds host (Decision.lot input) (Decision.expiry input) r
  = Decision.someLotPattern host l ps
  /\ (forall r', Schema.lotRegex r' = Some ps ->
         Decision.constraintHolds host (Decision.lot input) (Decision.expiry input) r'
         = Decision.constraintHolds host (Decision.lot input) (Decision.expiry input) r)
  /\ (Decision.someLotPattern host l ps = Ok false ->
      Decision.findUPCMatches (Decision.upc input) (Decision.sourceHits input) = [] ->
      forall matched,
        Decision.findBrandProductMatches host (Decision.brand input)
          (Decision.product input) (Decision.sourceHits input) = Ok matched ->
        In r matched ->
        exists res kept,
          Decision.decide host input = Ok res
          /\ filterM (Decision.constraintHolds host (Decision.lot input)
                        (Decision.expiry input))
               (filter Decision.constrained matched) = Ok kept
          /\ (forall x, In x kept <->
                        In x matched /\ Decision.constrained x = true
                        /\ Decision.constraintHolds host (Decision.lot input)
                             (Decision.expiry input) x = Ok true)
          /\ ~ In r kept
          /\ In r (filter Decision.constrained matched)
          /\ match kept with
             | [] =>
                 Schema.decision res = Schema.YELLOW
                 /\ Schema.confidence res = Some 0.7%Q
                 /\ Schema.matches res = filter Decision.constrained matched
             | _ :: _ =>
                 Schema.decision res = Schema.RED
                 /\ Schema.confidence res = Some 0.85%Q
                 /\ Schema.matches res = kept
             end
          /\ ((forall x, In x matched -> x <> r ->
                         Decision.constraintHolds host (Decision.lot input)
                           (Decision.expiry input) x <> Ok true) ->
              Schema.decision res = Schema.YELLOW
              /\ Schema.confidence res = Some 0.7%Q
              /\ In r (Schema.matches res))).
Proof.
  intros Hl Hne He Hne' Hps Hw.
  assert (Htruthy : Str.truthy (Some l) = true).
  { cbn. destruct (String.eqb_spec l ""); [contradiction | reflexivity]. }
  assert (Hcheck : forall r', Schema.lotRegex r' = Some ps ->
            Decision.constraintHolds host (Decision.lot input)
              (Decision.expiry input) r' = Decision.someLotPattern host l ps).
  { intros r' Hps'. unfold Decision.constraintHolds, Decision.patternsOf.
    rewrite Hps', Hl, Htruthy. reflexivity. }
  split; [exact (Hcheck r Hps)|].
  split; [intros r' Hps'; now rewrite (Hcheck r' Hps'), (Hcheck r Hps)|].
  intros Hfail Hupc matched Hbp Hin.
  assert (Hc : In r (filter Decision.constrained matched)).
  { apply filter_In. split; [exact Hin|]. unfold Decision.constrained.
    now rewrite Hps. }
  destruct (filterM_spec
              (Decision.constraintHolds host (Decision.lot input) (Decision.expiry input))
              (filter Decision.constrained matched))
    as [kept [Hk Hkept]]; [intros; apply constraintHolds_returns|].
  assert (Hkept' : forall x, In x kept <->
            In x matched /\ Decision.constrained x = true
            /\ Decision.constraintHolds host (Decision.lot input)
                 (Decision.expiry input) x = Ok true).
  { intros x. rewrite Hkept, filter_In. tauto. }
  assert (Hout : ~ In r kept).
  { intros Hr. apply Hkept' in Hr. destruct Hr as (_ & _ & Hr).
    rewrite (Hcheck r Hps) in Hr. congruence. }
  assert (Hdec : exists res,
            Decision.decide host input = Ok res
            /\ match kept with
               | [] =>
                   Schema.decision res = Schema.YELLOW
                   /\ Schema.confidence res = Some 0.7%Q
                   /\ Schema.matches res = filter Decision.constrained matched
               | _ :: _ =>
                   Schema.decision res = Schema.RED
                   /\ Schema.confidence res = Some 0.85%Q
                   /\ Schema.matches res = kept
               end).
  { clear Hkept Hkept' Hout Hcheck.
    destruct input as [upc brand product lot expiry hits].
    cbn [Decision.upc Decision.brand Decision.product Decision.lot Decision.expiry
         Decision.sourceHits] in *.
    unfold Decision.decide.
    destruct hits as [|h hits].
    { exfalso. apply (findBrandProductMatches_sub _ _ _ _ _ Hbp r Hin). }
    cbn [List.length Nat.eqb]. rewrite Hupc. cbn [List.length Nat.ltb Nat.leb].
    rewrite Hbp. cbn [bind].
    destruct matched as [|m matched]; [destruct Hin|].
    cbn [List.length Nat.ltb Nat.leb].
    destruct (filter Decision.constrained (m :: matched)) as [|c cs] eqn:Hcs;
      [destruct Hc|].
    cbn [List.length Nat.ltb Nat.leb].
    rewrite Hk. cbn [bind].
    destruct kept as [|k kept]; cbn [List.length Nat.ltb Nat.leb];
      eexists; (split; [reflexivity|]); cbn; auto. }
  destruct Hdec as (res & Hres & Hshape).
  exists res, kept.
  split; [exact Hres|]. split; [exact Hk|]. split; [exact Hkept'|].
  split; [exact Hout|]. split; [exact Hc|]. split; [exact Hshape|].
  intros Hothers.
  destruct kept as [|k kept].
  - destruct Hshape as (Hd & Hconf & Hm). rewrite Hm. auto.
  - exfalso. destruct (Hkept' k) as [Hk' _].
    destruct (Hk' (or_introl eq_refl)) as (Hkm & _ & Hpass).
    assert (Hkr : k <> r) by (intros ->; apply Hout; now left).
    exact (Hothers k Hkm Hkr Hpass).
Qed.

Definition scanBrandLotExpiry : Decision.DecisionInput :=
  {| Decision.upc := None;
     Decision.brand := Some "Acme Foods";
     Decision.product := Some "Peanut Butter Crackers";
     Decision.lot := Some "L2205";
     Decision.expiry := Some "2024-06-01";
     Decision.sourceHits := [crackers] |}.

(** The window of [crackers] contains the scanned expiry date, and the answer
    is still the YELLOW of an unsatisfied constraint. *)
Example scanBrandLotExpiry_yellow :
  Lot.isDateInRange Reference.host "2024-06-01" (Some "2024-01-01") (Some "2024-12-31")
  = true
  /\ exists res,
       Decision.decide Reference.host scanBrandLotExpiry = Ok res
       /\ Schema.decision res = Schema.YELLOW
       /\ Schema.confidence res = Some 0.7%Q
       /\ Schema.matches res = [crackers].
Proof.
  split; [vm_compute; reflexivity|].
  eexists. split; [vm_compute; reflexivity|]. cbn. auto.
Qed.

Lemma tier2_lot_patterns_decide_witness :
  Lot.isDateInRange Reference.host "2024-06-01" (Some "2024-01-01") (Some "2024-12-31")
  = true
  /\ Decision.constraintHolds Reference.host (Decision.lot scanBrandLotExpiry)
       (Decision.expiry scanBrandLotExpiry) crackers
     = Decision.someLotPattern Reference.host "L2205" ["^L2201$"]
  /\ exists res,
       Decision.decide Reference.host scanBrandLotExpiry = Ok res
       /\ Schema.decision res = Schema.YELLOW
       /\ Schema.confidence res = Some 0.7%Q
       /\ In crackers (Schema.matches res).
Proof.
  split; [vm_compute; reflexivity|].
  destruct (tier2_lot_patterns_decide Reference.host scanBrandLotExpiry crackers
              "L2205" "2024-06-01" ["^L2201$"]
              {| Schema.start := Some "2024-01-01"; Schema.end_ := Some "2024-12-31" |})
    as (Hcheck & _ & Hdecide).
  - reflexivity.
  - discriminate.
  - reflexivity.
  - discriminate.
  - reflexivity.
  - reflexivity.
  - split; [exact Hcheck|].
    destruct (Hdecide eq_refl eq_refl [crackers]) as (res & kept & Hres & _ & _ & _ & _ & _ & Hyellow).
    + vm_compute. reflexivity.
    + left. reflexivity.
    + exists res. split; [exact Hres|]. apply Hyellow.
      intros x [<- | []] Hx. now contradiction Hx.
Defined.

(** ** Check digits *)

(** For eight digits every weight of [validateChecksum] is 3: the odd
    positions fall through to the second conditional, whose answer for an odd
    position is 3 as well. *)
Lemma weight_8_constant (i : nat) : Upc.weight 8 i = 3%Z.
Proof.
  unfold Upc.weight. cbn [Nat.eqb andb].
  destruct (i mod 2 =? 0); reflexivity.
Qed.

(** For twelve digits the weights are those of thirteen digits, 1,3,1,...,
    where the public rule weighs 3,1,3,... *)
Lemma weight_12_swapped (i : nat) :
  i < 11 ->
  Upc.weight 12 i = Upc.standardWeight 13 i
  /\ Upc.weight 12 i <> Upc.standardWeight 12 i.
Proof.
  intros Hi.
  do 11 (destruct i as [|i]; [split; [reflexivity | discriminate]|]).
  lia.
Qed.

Lemma digitAt_nonneg (code : string) (i : nat) (d : Z) :
  Upc.digitAt code i = Some d -> (0 <= d)%Z.
Proof.
  unfold Upc.digitAt, Str.parseInt.
  destruct (String.get i code) as [c|]; [|discriminate].
  cbn. destruct (Str.isSpace c); [discriminate|].
  destruct (Str.isDigit c).
  - intros H. injection H as <-. unfold Str.digitValue. lia.
  - rewrite andb_false_r. discriminate.
Qed.

Lemma weighted_fold_nonneg (code : string) (w : nat -> Z) (l : list nat)
  (acc : option Z) (s : Z) :
  (forall i, 0 <= w i)%Z ->
  (forall a, acc = Some a -> 0 <= a)%Z ->
  fold_left
    (fun (sum : option Z) (i : nat) =>
       match sum, Upc.digitAt code i with
       | Some s, Some digit => Some (s + digit * w i)%Z
       | _, _ => None
       end) l acc = Some s ->
  (0 <= s)%Z.
Proof.
  intros Hw. revert acc. induction l as [|i l IH]; cbn; intros acc Hacc Hs.
  - now apply Hacc.
  - refine (IH _ _ Hs).
    intros a Ha. destruct acc as [a0|]; [|discriminate].
    destruct (Upc.digitAt code i) as [d|] eqn:Hd; [|discriminate].
    injection Ha as <-.
    pose proof (digitAt_nonneg _ _ _ Hd). pose proof (Hacc a0 eq_refl).
    pose proof (Hw i). nia.
Qed.

(** For thirteen digits [validateChecksum] is the public rule. *)
Lemma validateChecksum_13_standard (code : string) :
  String.length code = 13 ->
  Upc.validateChecksum code 13 = Upc.standardValid code.
Proof.
  intros Hlen. unfold Upc.validateChecksum, Upc.standardValid.
  rewrite Hlen. cbn [Nat.eqb negb orb andb Nat.sub].
  destruct (Upc.digitAt code 12) as [c|]; [|reflexivity].
  assert (Hsame : Upc.weightedSum code 13 = Upc.standardSum code 13) by reflexivity.
  rewrite Hsame.
  destruct (Upc.standardSum code 13) as [s|] eqn:Hs; [|reflexivity].
  assert (0 <= s)%Z.
  { unfold Upc.standardSum in Hs.
    apply (weighted_fold_nonneg code (Upc.standardWeight 13) (seq 0 (13 - 1))
             (Some 0%Z) s); auto.
    - intros i. unfold Upc.standardWeight. destruct (_ =? 1); lia.
    - intros a Ha. injection Ha as <-. lia. }
  pose proof (Z.mod_pos_bound s 10 ltac:(lia)).
  rewrite (Z.rem_mod_nonneg s 10) by lia.
  rewrite (Z.rem_mod_nonneg (10 - s mod 10) 10) by lia.
  reflexivity.
Qed.

(** C2: [validateChecksum] is not the public rule for eight and for twelve
    digits.  The UPC-A code 036000291452 and the EAN-8 code 73513537 carry
    their standard check digits and are reported invalid, while the same
    payloads with the check digits 8 and 9 are reported valid. *)
Theorem validateChecksum_rejects_standard_codes :
  Upc.standardValid "036000291452" = true
  /\ Upc.normalizeUPC "036000291452"
     = {| Upc.type := Upc.UPC_A; Upc.normalized := "036000291452";
          Upc.isValid := false |}
  /\ Upc.standardValid "73513537" = true
  /\ Upc.normalizeUPC "73513537"
     = {| Upc.type := Upc.EAN_8; Upc.normalized := "73513537";
          Upc.isValid := false |}
  /\ Upc.standardValid "036000291458" = false
  /\ Upc.isValid (Upc.normalizeUPC "036000291458") = true
  /\ Upc.standardValid "73513539" = false
  /\ Upc.isValid (Upc.normalizeUPC "73513539") = true.
Proof. vm_compute. repeat split. Qed.

(** ** Equivalence of identifiers *)

Lemma areUPCEquivalent_ean8 (upc1 upc2 : string) :
  Upc.type (Upc.normalizeUPC upc1) = Upc.EAN_8 ->
  Upc.areUPCEquivalent upc1 upc2 = false.
Proof.
  intros Ht. unfold Upc.areUPCEquivalent. rewrite Ht.
  destruct (negb _ || negb _); reflexivity.
Qed.

Lemma normalizeUPC_invalid_type (upc : string) :
  Upc.type (Upc.normalizeUPC upc) = Upc.invalid ->
  Upc.isValid (Upc.normalizeUPC upc) = false.
Proof.
  unfold Upc.normalizeUPC.
  repeat (destruct (_ =? _); [discriminate|]).
  reflexivity.
Qed.

(** Identical valid UPC-A and EAN-13 identifiers are equivalent. *)
Lemma areUPCEquivalent_refl (upc : string) :
  Upc.isValid (Upc.normalizeUPC upc) = true ->
  Upc.type (Upc.normalizeUPC upc) <> Upc.EAN_8 ->
  Upc.areUPCEquivalent upc upc = true.
Proof.
  intros Hv Ht. unfold Upc.areUPCEquivalent. rewrite Hv. cbn [negb orb].
  destruct (Upc.type (Upc.normalizeUPC upc)) eqn:Hty; cbn.
  - apply String.eqb_refl.
  - apply String.eqb_refl.
  - contradiction.
  - rewrite (normalizeUPC_invalid_type _ Hty) in Hv. discriminate.
Qed.

(** C5: two identical valid EAN-8 identifiers are not reported equivalent.
    The code 40123318 is valid both by the public rule and by
    [validateChecksum], and normalises to itself. *)
Theorem areUPCEquivalent_identical_ean8 :
  Upc.standardValid "40123318" = true
  /\ Upc.normalizeUPC "40123318"
     = {| Upc.type := Upc.EAN_8; Upc.normalized := "40123318";
          Upc.isValid := true |}
  /\ Upc.areUPCEquivalent "40123318" "40123318" = false.
Proof. vm_compute. repeat split. Qed.

(** ** Jaro-Winkler on empty normalised text *)

(** The reading "0.0 as soon as one side normalises to the empty string". *)
Definition zero_when_either_empty : Prop :=
  forall (s1 s2 : string) (q : Q),
    Text.normalizeText s1 = "" \/ Text.normalizeText s2 = "" ->
    Text.jaroWinklerSimilarity s1 s2 = Ok q ->
    (q == 0.0)%Q.

(** C6, as stated, fails: "the" and "a" are both stop words, both normalise
    to the empty string, and the identity test, which comes first, answers
    1.0. *)
Lemma jaroWinkler_both_empty_counterexample :
  Text.normalizeText "the" = ""
  /\ Text.normalizeText "a" = ""
  /\ Text.jaroWinklerSimilarity "the" "a" = Ok 1.0%Q
  /\ ~ zero_when_either_empty.
Proof.
  split; [vm_compute; reflexivity|].
  split; [vm_compute; reflexivity|].
  assert (H : Text.jaroWinklerSimilarity "the" "a" = Ok 1.0%Q)
    by (vm_compute; reflexivity).
  split; [exact H|].
  intros Hclaim.
  specialize (Hclaim "the" "a" 1.0%Q (or_introl eq_refl) H).
  vm_compute in Hclaim. discriminate Hclaim.
Qed.

(** C6 (amended): when at least one of the two strings normalises to the
    empty string, [jaroWinklerSimilarity] returns 1.0 if both do (the
    normalised strings are then identical) and 0.0 if exactly one does. *)
Theorem jaroWinkler_empty (s1 s2 : string) :
  Text.normalizeText s1 = "" \/ Text.normalizeText s2 = "" ->
  Text.jaroWinklerSimilarity s1 s2 =
  Ok (if String.eqb (Text.normalizeText s1) (Text.normalizeText s2)
      then 1.0 else 0.0)%Q.
Proof.
  intros Hempty. unfold Text.jaroWinklerSimilarity.
  destruct (String.eqb (Text.normalizeText s1) (Text.normalizeText s2));
    [reflexivity|].
  destruct Hempty as [-> | ->]; cbn [String.length Nat.eqb orb].
  - reflexivity.
  - now rewrite orb_true_r.
Qed.

Lemma jaroWinkler_empty_witness :
  Text.jaroWinklerSimilarity "of the" "Acme Foods" = Ok 0.0%Q.
Proof.
  apply (jaroWinkler_empty "of the" "Acme Foods").
  left. vm_compute. reflexivity.
Defined.

(** ** The confidence of a parsed expiry date *)

(** C9, as stated, fails: a parsed date carries 0.9, not 1.0. *)
Lemma parseExpiryDate_confidence_counterexample :
  Lot.parseExpiryDate Reference.host "12/25/2024"
  = Ok (Some {| Lot.expiryRaw := "12/25/2024";
                Lot.expiryNormalized := "2024-12-25";
                Lot.confidence := 0.9%Q |})
  /\ ~ (forall (text : string) (p : Lot.ParsedExpiry),
          Lot.parseExpiryDate Reference.host text = Ok (Some p) ->
          (Lot.confidence p == 1.0)%Q).
Proof.
  assert (H : Lot.parseExpiryDate Reference.host "12/25/2024"
              = Ok (Some {| Lot.expiryRaw := "12/25/2024";
                            Lot.expiryNormalized := "2024-12-25";
                            Lot.confidence := 0.9%Q |}))
    by (vm_compute; reflexivity).
  split; [exact H|].
  intros Hclaim. specialize (Hclaim _ _ H).
  vm_compute in Hclaim. discriminate Hclaim.
Qed.

Lemma parseExpiryLoop_confidence (host : Host) (text cleaned : string)
  (patterns : list RegExpLiteral) (p : Lot.ParsedExpiry) :
  Lot.parseExpiryLoop host text cleaned patterns = Ok (Some p) ->
  Lot.confidence p = 0.9%Q.
Proof.
  induction patterns as [|pattern more IH]; cbn [Lot.parseExpiryLoop].
  - discriminate.
  - destruct (matchLiteral pattern cleaned) as [m|]; [|exact IH].
    destruct (Lot.member (Re.item 3 m)) as [yearText| |]; cbn [bind];
      try discriminate.
    destruct (_ || _); [exact IH|].
    destruct (Lot.member (Re.item 1 m)) as [monthText| |]; cbn [bind];
      try discriminate.
    destruct (Lot.member (Re.item 2 m)) as [dayText| |]; cbn [bind];
      try discriminate.
    destruct (Lot.invalidDate host _); [exact IH|].
    intros H. injection H as <-. reflexivity.
Qed.

(** C9 (amended): whenever [parseExpiryDate] succeeds, the confidence of the
    returned [ParsedExpiry] is exactly 0.9. *)
Theorem parseExpiryDate_confidence (host : Host) (text : string)
  (p : Lot.ParsedExpiry) :
  Lot.parseExpiryDate host text = Ok (Some p) ->
  Lot.confidence p = 0.9%Q.
Proof.
  unfold Lot.parseExpiryDate. apply parseExpiryLoop_confidence.
Qed.

Lemma parseExpiryDate_confidence_witness :
  exists p,
    Lot.parseExpiryDate Reference.host "EXP 02/29/24" = Ok (Some p)
    /\ Lot.confidence p = 0.9%Q.
Proof.
  eexists. split.
  - vm_compute. reflexivity.
  - apply (parseExpiryDate_confidence Reference.host "EXP 02/29/24").
    vm_compute. reflexivity.
Defined.


(** ** Matching up to a renaming of characters

    A match depends on the subject only through the tests of the character
    classes.  If a renaming [f] of the characters changes none of these
    tests, the matcher takes the same path on a text and on its renaming, and
    finds the same offsets. *)

Section Renaming.

Variable f : ascii -> ascii.
Variable ci : bool.

Hypothesis f_word : forall c, Str.isWord (f c) = Str.isWord c.

Definition mapState (s : Re.mstate) : Re.mstate :=
  Re.MState (map f (Re.seen s)) (map f (Re.rest s)) (Re.caps s).

(** Every class of the regex tests [f c] as it tests [c]. *)
Fixpoint blind (r : Re.regex) : Prop :=
  match r with
  | Re.Sym _ p => forall c, Re.symTest ci p (f c) = Re.symTest ci p c
  | Re.Seq a b | Re.Alt a b => blind a /\ blind b
  | Re.Rep _ _ a | Re.Grp _ a => blind a
  | _ => True
  end.

(** Two continuations that agree up to the renaming. *)
Definition agree (k k' : Re.mstate -> option Re.mstate) : Prop :=
  forall s, k' (mapState s) = option_map mapState (k s).

Lemma wordAt_map (l : list ascii) : Re.wordAt (map f l) = Re.wordAt l.
Proof. destruct l; [reflexivity | apply f_word]. Qed.

Lemma pos_mapState (s : Re.mstate) : Re.pos (mapState s) = Re.pos s.
Proof. unfold Re.pos, mapState. cbn. apply length_map. Qed.

Lemma setcap_mapState (i : nat) (s s' : Re.mstate) :
  Re.setcap i (mapState s) (mapState s') = mapState (Re.setcap i s s').
Proof.
  unfold Re.setcap. rewrite !pos_mapState. reflexivity.
Qed.

Lemma repLoop_agree (step : (Re.mstate -> option Re.mstate) -> Re.mstate -> option Re.mstate)
  (lo : nat) (hi : option nat) (k k' : Re.mstate -> option Re.mstate) :
  (forall j j', agree j j' -> agree (step j) (step j')) ->
  agree k k' ->
  forall fuel count, agree (Re.repLoop step lo hi k fuel count)
                       (Re.repLoop step lo hi k' fuel count).
Proof.
  intros Hstep Hk fuel.
  induction fuel as [|fuel IH]; intros count s; cbn [Re.repLoop].
  - destruct (lo <=? count); [apply Hk | reflexivity].
  - destruct (Re.below hi count).
    + rewrite (Hstep
                 (fun s1 =>
                    if (lo <=? count)
                       && (List.length (Re.rest s1) =? List.length (Re.rest s))
                    then None
                    else Re.repLoop step lo hi k fuel (S count) s1)
                 (fun s1 =>
                    if (lo <=? count)
                       && (List.length (Re.rest s1)
                           =? List.length (Re.rest (mapState s)))
                    then None
                    else Re.repLoop step lo hi k' fuel (S count) s1)).
      * destruct (step _ s) as [m|]; cbn [option_map]; [reflexivity|].
        destruct (lo <=? count); [apply Hk | reflexivity].
      * intros s1. cbn [mapState Re.rest]. rewrite !length_map.
        destruct (_ && _); [reflexivity | apply IH].
    + destruct (lo <=? count); [apply Hk | reflexivity].
Qed.

Lemma run_agree (r : Re.regex) :
  blind r -> forall k k', agree k k' -> agree (Re.run ci r k) (Re.run ci r k').
Proof.
  induction r as [| neg p | | | | a IHa b IHb | a IHa b IHb | lo hi a IHa | i a IHa];
    intros Hb k k' Hk s; cbn [Re.run].
  - apply Hk.
  - cbn [mapState Re.rest]. destruct (Re.rest s) as [|c t] eqn:Hrest; [reflexivity|].
    cbn [map]. cbn [blind] in Hb. rewrite Hb.
    destruct (xorb neg (Re.symTest ci p c)); [|reflexivity].
    rewrite <- Hk. reflexivity.
  - cbn [mapState Re.seen]. destruct (Re.seen s); [apply Hk | reflexivity].
  - cbn [mapState Re.rest]. destruct (Re.rest s); [apply Hk | reflexivity].
  - cbn [mapState Re.seen Re.rest]. rewrite !wordAt_map.
    destruct (xorb _ _); [apply Hk | reflexivity].
  - destruct Hb as [Ha Hb]. apply (IHa Ha). now apply IHb.
  - destruct Hb as [Ha Hb]. rewrite (IHa Ha k k' Hk), (IHb Hb k k' Hk).
    destruct (Re.run ci a k s); reflexivity.
  - cbn [blind] in Hb.
    assert (Hfuel : Re.repFuel lo hi (mapState s) = Re.repFuel lo hi s).
    { unfold Re.repFuel. cbn [mapState Re.rest]. now rewrite length_map. }
    rewrite Hfuel. apply repLoop_agree; [apply (IHa Hb) | exact Hk].
  - cbn [blind] in Hb.
    apply (IHa Hb (fun s' => k (Re.setcap i s s'))
             (fun s' => k' (Re.setcap i (mapState s) s'))).
    intros s'. rewrite setcap_mapState. apply Hk.
Qed.

Definition mapFound (found : Re.mstate * Re.mstate) : Re.mstate * Re.mstate :=
  (mapState (fst found), mapState (snd found)).

Lemma search_map (r : Re.regex) (before after : list ascii) :
  blind r ->
  Re.search ci r (map f before) (map f after)
  = option_map mapFound (Re.search ci r before after).
Proof.
  intros Hb. revert before.
  induction after as [|c t IH]; intros before; cbn [Re.search map].
  - change (Re.MState (map f before) [] [])
      with (mapState (Re.MState before [] [])).
    rewrite (run_agree r Hb Some Some) by (intros s; reflexivity).
    destruct (Re.run ci r Some _); reflexivity.
  - change (Re.MState (map f before) (f c :: map f t) [])
      with (mapState (Re.MState before (c :: t) [])).
    rewrite (run_agree r Hb Some Some) by (intros s; reflexivity).
    destruct (Re.run ci r Some _); [reflexivity|].
    apply (IH (c :: before)).
Qed.

Lemma matchArray_map (r : Re.regex) (text : string) (found : Re.mstate * Re.mstate) :
  Re.matchArray r text (mapFound found) = Re.matchArray r text found.
Proof.
  destruct found as [s m]. unfold Re.matchArray, mapFound. cbn [fst snd].
  rewrite !pos_mapState. reflexivity.
Qed.

(** The match array of a text is read off the match of its renaming. *)
Lemma exec_map (r : Re.regex) (text : string) :
  blind r ->
  Re.exec ci r text
  = option_map (Re.matchArray r text) (Re.search ci r [] (map f (Str.chars text))).
Proof.
  intros Hb. unfold Re.exec.
  pose proof (search_map r [] (Str.chars text) Hb) as Hs. cbn [map] in Hs.
  rewrite Hs.
  destruct (Re.search ci r [] (Str.chars text)) as [found|]; cbn [option_map];
    [now rewrite matchArray_map | reflexivity].
Qed.

End Renaming.

(** ** ISO dates *)

Definition digits : list ascii := ["0"; "1"; "2"; "3"; "4"; "5"; "6"; "7"; "8"; "9"]%char.

Lemma digit_cases (c : ascii) : Str.isDigit c = true -> In c digits.
Proof.
  destruct c as [[] [] [] [] [] [] [] []]; intros H; try discriminate H;
    cbn; tauto.
Qed.

(** The renaming that sends every digit to [0]. *)
Definition zeroDigits (c : ascii) : ascii := if Str.isDigit c then "0"%char else c.

Lemma zeroDigits_word (c : ascii) : Str.isWord (zeroDigits c) = Str.isWord c.
Proof.
  unfold zeroDigits. destruct (Str.isDigit c) eqn:Hd; [|reflexivity].
  unfold Str.isWord. rewrite Hd. reflexivity.
Qed.

(** A decidable test of [blind zeroDigits]: each class tests every digit as
    it tests [0]. *)
Fixpoint digitBlind (ci : bool) (r : Re.regex) : bool :=
  match r with
  | Re.Sym _ p =>
      forallb (fun d => Bool.eqb (Re.symTest ci p "0") (Re.symTest ci p d)) digits
  | Re.Seq a b | Re.Alt a b => digitBlind ci a && digitBlind ci b
  | Re.Rep _ _ a | Re.Grp _ a => digitBlind ci a
  | _ => true
  end.

Lemma digitBlind_sound (ci : bool) (r : Re.regex) :
  digitBlind ci r = true -> blind zeroDigits ci r.
Proof.
  induction r as [| neg p | | | | a IHa b IHb | a IHa b IHb | lo hi a IHa | i a IHa];
    cbn [digitBlind blind]; intros H; auto.
  - intros c. unfold zeroDigits. destruct (Str.isDigit c) eqn:Hd; [|reflexivity].
    rewrite forallb_forall in H. apply Bool.eqb_prop. apply H.
    now apply digit_cases.
  - apply andb_prop in H. destruct H. split; auto.
  - apply andb_prop in H. destruct H. split; auto.
Qed.

Lemma isSpace_digit (c : ascii) : Str.isDigit c = true -> Str.isSpace c = false.
Proof.
  intros H. apply digit_cases in H. cbn in H.
  repeat (destruct H as [<- | H]; [reflexivity|]). destruct H.
Qed.

Section IsoText.

Variables y1 y2 y3 y4 m1 m2 d1 d2 : ascii.

Hypothesis all_digits :
  forallb Str.isDigit [y1; y2; y3; y4; m1; m2; d1; d2] = true.

(** The text [YYYY-MM-DD]. *)
Definition isoChars : list ascii :=
  [y1; y2; y3; y4; "-"; m1; m2; "-"; d1; d2]%char.

Definition isoText : string := Str.ofChars isoChars.

Lemma iso_digits :
  Str.isDigit y1 = true /\ Str.isDigit y2 = true /\ Str.isDigit y3 = true
  /\ Str.isDigit y4 = true /\ Str.isDigit m1 = true /\ Str.isDigit m2 = true
  /\ Str.isDigit d1 = true /\ Str.isDigit d2 = true.
Proof.
  cbn [forallb] in all_digits.
  repeat (apply andb_prop in all_digits; destruct all_digits as [? all_digits]).
  repeat split; assumption.
Qed.

Lemma iso_zeroed : map zeroDigits (Str.chars isoText) = Str.chars "0000-00-00".
Proof.
  destruct iso_digits as (H1 & H2 & H3 & H4 & H5 & H6 & H7 & H8).
  unfold isoText, isoChars, Str.ofChars, Str.chars.
  cbn [string_of_list_ascii list_ascii_of_string map].
  unfold zeroDigits. rewrite H1, H2, H3, H4, H5, H6, H7, H8. reflexivity.
Qed.

Lemma iso_trim : Str.trim isoText = isoText.
Proof.
  destruct iso_digits as (H1 & _ & _ & _ & _ & _ & _ & H8).
  unfold Str.trim, Str.trimChars, isoText, isoChars, Str.ofChars, Str.chars.
  cbn [string_of_list_ascii list_ascii_of_string Str.dropSpaces].
  rewrite (isSpace_digit y1 H1). cbn [rev app Str.dropSpaces].
  rewrite (isSpace_digit d2 H8). reflexivity.
Qed.

(** What a literal makes of the text is what it makes of [0000-00-00], with
    the same offsets. *)
Lemma iso_match (p : RegExpLiteral) :
  digitBlind (ignoreCase p) (body p) = true ->
  matchLiteral p isoText
  = option_map (Re.matchArray (body p) isoText)
      (Re.search (ignoreCase p) (body p) [] (Str.chars "0000-00-00")).
Proof.
  intros Hb. unfold matchLiteral.
  rewrite (exec_map zeroDigits (ignoreCase p) zeroDigits_word (body p) isoText
             (digitBlind_sound _ _ Hb)).
  now rewrite iso_zeroed.
Qed.

End IsoText.

Lemma parseExpiryLoop_skip (host : Host) (text cleaned : string)
  (pattern : RegExpLiteral) (more : list RegExpLiteral) :
  matchLiteral pattern cleaned = None ->
  Lot.parseExpiryLoop host text cleaned (pattern :: more)
  = Lot.parseExpiryLoop host text cleaned more.
Proof. intros H. cbn [Lot.parseExpiryLoop]. now rewrite H. Qed.

Lemma iso_no_match (y1 y2 y3 y4 m1 m2 d1 d2 : ascii) (p : RegExpLiteral) :
  forallb Str.isDigit [y1; y2; y3; y4; m1; m2; d1; d2] = true ->
  digitBlind (ignoreCase p) (body p) = true ->
  Re.search (ignoreCase p) (body p) [] (Str.chars "0000-00-00") = None ->
  matchLiteral p (isoText y1 y2 y3 y4 m1 m2 d1 d2) = None.
Proof.
  intros Hd Hb Hs. rewrite (iso_match _ _ _ _ _ _ _ _ Hd p Hb), Hs. reflexivity.
Qed.

Lemma parseInt_digit (c : ascii) (s : string) :
  Str.isDigit c = true ->
  Str.parseInt (String c s) = Some (Str.parseDigits 0 (c :: Str.chars s)).
Proof.
  intros H. unfold Str.parseInt, Str.chars.
  cbn [list_ascii_of_string Str.dropSpaces].
  rewrite (isSpace_digit c H), H. reflexivity.
Qed.

Ltac skip_pattern Hd :=
  rewrite parseExpiryLoop_skip
    by (apply iso_no_match; [exact Hd | vm_compute; reflexivity ..]).

(** C4: an ISO date is not parsed.  The ISO literal captures year, month and
    day in that order, and the loop reads the three groups of every pattern
    as month, day and year: the four year digits are range-checked as a
    month.  So every text [YYYY-MM-DD] whose year is above 12 is refused,
    whatever the host's [Date] accepts. *)
Theorem parseExpiryDate_rejects_iso (host : Host)
  (y1 y2 y3 y4 m1 m2 d1 d2 : ascii) :
  forallb Str.isDigit [y1; y2; y3; y4; m1; m2; d1; d2] = true ->
  (12 < Str.parseDigits 0 [y1; y2; y3; y4])%Z ->
  Lot.parseExpiryDate host (isoText y1 y2 y3 y4 m1 m2 d1 d2) = Ok None.
Proof.
  intros Hd Hy.
  unfold Lot.parseExpiryDate. rewrite (iso_trim _ _ _ _ _ _ _ _ Hd).
  unfold Lot.EXPIRY_PATTERNS.
  do 2 skip_pattern Hd.
  match goal with
  | |- Lot.parseExpiryLoop _ _ _ (?p :: ?more) = _ =>
      remember more as labelled eqn:Hlabelled;
      cbn [Lot.parseExpiryLoop];
      rewrite (iso_match _ _ _ _ _ _ _ _ Hd p) by (vm_compute; reflexivity)
  end.
  match goal with
  | |- context [Re.search ?ci ?r [] ?l] =>
      let v := eval vm_compute in (Re.search ci r [] l) in
      replace (Re.search ci r [] l) with v by (vm_compute; reflexivity)
  end.
  cbn [option_map].
  match goal with
  | |- context [Re.matchArray ?r ?t ?found] =>
      remember (Re.matchArray r t found) as m eqn:Hm
  end.
  vm_compute in Hm. subst m.
  cbn [Re.item nth_error Lot.member bind String.length Nat.eqb Lot.parseIntOf].
  destruct (iso_digits _ _ _ _ _ _ _ _ Hd) as (H1 & _).
  rewrite (parseInt_digit y1 _ H1).
  change (Str.chars (String y2 (String y3 (String y4 "")))) with [y2; y3; y4].
  assert (Hgt : Lot.numGt (Some (Str.parseDigits 0 [y1; y2; y3; y4])) 12 = true).
  { cbn [Lot.numGt]. apply Z.gtb_lt. exact Hy. }
  rewrite Hgt, orb_true_r. cbn [orb]. subst labelled.
  do 4 skip_pattern Hd.
  reflexivity.
Qed.

Lemma parseExpiryDate_rejects_iso_witness :
  Lot.parseExpiryDate Reference.host "2024-03-15" = Ok None.
Proof.
  apply (parseExpiryDate_rejects_iso Reference.host "2" "0" "2" "4" "0" "3" "1" "5").
  - reflexivity.
  - vm_compute. reflexivity.
Defined.

(** The same date written month first is parsed. *)
Example parseExpiryDate_month_first :
  Lot.parseExpiryDate Reference.host "03/15/2024"
  = Ok (Some {| Lot.expiryRaw := "03/15/2024";
                Lot.expiryNormalized := "2024-03-15";
                Lot.confidence := 0.9%Q |}).
Proof. vm_compute. reflexivity. Qed.

(** ** Groups that a match always records *)

(** Groups on the spine of sequences: every match passes through them. *)
Fixpoint sets (r : Re.regex) : list nat :=
  match r with
  | Re.Grp i a => i :: sets a
  | Re.Seq a b => sets a ++ sets b
  | _ => []
  end.

Definition recorded (i : nat) (s : Re.mstate) : Prop :=
  Re.lookup i (Re.caps s) <> None.

(** [s'] has every group of [s], and those of [l]. *)
Definition extends (l : list nat) (s s' : Re.mstate) : Prop :=
  (forall i, recorded i s -> recorded i s') /\ (forall i, In i l -> recorded i s').

Lemma extends_refl (s : Re.mstate) : extends [] s s.
Proof. split; [auto | intros i []]. Qed.

Lemma extends_trans (l1 l2 : list nat) (s1 s2 s3 : Re.mstate) :
  extends l1 s1 s2 -> extends l2 s2 s3 -> extends (l1 ++ l2) s1 s3.
Proof.
  intros [H1 H1'] [H2 H2']. split.
  - auto.
  - intros i Hi. apply in_app_or in Hi. destruct Hi; auto.
Qed.

Lemma extends_weaken (l : list nat) (s s' : Re.mstate) :
  extends l s s' -> extends [] s s'.
Proof. intros [H _]. split; [exact H | intros i []]. Qed.

Lemma recorded_setcap (i j : nat) (s s' : Re.mstate) :
  recorded j s' -> recorded j (Re.setcap i s s').
Proof.
  unfold recorded, Re.setcap. cbn. destruct (j =? i); [discriminate | auto].
Qed.

Lemma recorded_setcap_same (i : nat) (s s' : Re.mstate) :
  recorded i (Re.setcap i s s').
Proof.
  unfold recorded, Re.setcap. cbn. rewrite Nat.eqb_refl. discriminate.
Qed.

(** A step that, when it succeeds, has called its continuation on a state
    with at least the groups of the start. *)
Definition monotone (step : (Re.mstate -> option Re.mstate) -> Re.mstate -> option Re.mstate)
  (l : list nat) : Prop :=
  forall k s m, step k s = Some m -> exists s', k s' = Some m /\ extends l s s'.

Lemma repLoop_monotone (step : (Re.mstate -> option Re.mstate) -> Re.mstate -> option Re.mstate)
  (l : list nat) (lo : nat) (hi : option nat) (k : Re.mstate -> option Re.mstate) :
  monotone step l ->
  forall fuel count s m,
    Re.repLoop step lo hi k fuel count s = Some m ->
    exists s', k s' = Some m /\ extends [] s s'.
Proof.
  intros Hstep fuel.
  assert (Hstop : forall count s m,
             (if lo <=? count then k s else None) = Some m ->
             exists s', k s' = Some m /\ extends [] s s').
  { intros count s m H. destruct (lo <=? count); [|discriminate].
    exists s. split; [exact H | apply extends_refl]. }
  induction fuel as [|fuel IH]; intros count s m; cbn [Re.repLoop].
  - apply Hstop.
  - destruct (Re.below hi count); [|apply Hstop].
    destruct (step _ s) as [m'|] eqn:Hrun; [|apply Hstop].
    intros H. injection H as <-.
    apply Hstep in Hrun. destruct Hrun as [s1 [Hk1 Hext1]].
    destruct (_ && _); [discriminate|].
    apply IH in Hk1. destruct Hk1 as [s2 [Hk2 Hext2]].
    exists s2. split; [exact Hk2|].
    apply (extends_trans [] [] s s1 s2); [now apply extends_weaken in Hext1 | exact Hext2].
Qed.

Lemma run_monotone (ci : bool) (r : Re.regex) : monotone (Re.run ci r) (sets r).
Proof.
  induction r as [| neg p | | | | a IHa b IHb | a IHa b IHb | lo hi a IHa | i a IHa];
    intros k s m; cbn [Re.run sets].
  - intros H. exists s. split; [exact H | apply extends_refl].
  - destruct (Re.rest s) as [|c t]; [discriminate|].
    destruct (xorb _ _); [|discriminate].
    intros H. eexists. split; [exact H|]. split; [auto | intros i []].
  - destruct (Re.seen s); [|discriminate].
    intros H. exists s. split; [exact H | apply extends_refl].
  - destruct (Re.rest s); [|discriminate].
    intros H. exists s. split; [exact H | apply extends_refl].
  - destruct (xorb _ _); [|discriminate].
    intros H. exists s. split; [exact H | apply extends_refl].
  - intros H. apply IHa in H. destruct H as [s1 [H Hext1]].
    apply IHb in H. destruct H as [s2 [H Hext2]].
    exists s2. split; [exact H | now apply (extends_trans _ _ s s1 s2)].
  - destruct (Re.run ci a k s) as [m'|] eqn:Ha.
    + intros H. injection H as <-. apply IHa in Ha. destruct Ha as [s1 [H Hext]].
      exists s1. split; [exact H | now apply extends_weaken in Hext].
    + intros H. apply IHb in H. destruct H as [s1 [H Hext]].
      exists s1. split; [exact H | now apply extends_weaken in Hext].
  - apply (repLoop_monotone (Re.run ci a) (sets a)). exact IHa.
  - intros H. apply IHa in H. destruct H as [s1 [H [Hext Hsets]]].
    eexists. split; [exact H|]. split.
    + intros j Hj. apply recorded_setcap. auto.
    + intros j [<- | Hj]; [apply recorded_setcap_same | apply recorded_setcap; auto].
Qed.

Lemma search_sets (ci : bool) (r : Re.regex) (before after : list ascii)
  (s m : Re.mstate) :
  Re.search ci r before after = Some (s, m) ->
  forall i, In i (sets r) -> recorded i m.
Proof.
  revert before. induction after as [|c t IH]; intros before; cbn [Re.search].
  - destruct (Re.run ci r Some _) as [m'|] eqn:Hrun; [|discriminate].
    intros H. injection H as <- <-.
    apply run_monotone in Hrun. destruct Hrun as [s' [Hs' [_ Hsets]]].
    injection Hs' as <-. exact Hsets.
  - destruct (Re.run ci r Some _) as [m'|] eqn:Hrun.
    + intros H. injection H as <- <-.
      apply run_monotone in Hrun. destruct Hrun as [s' [Hs' [_ Hsets]]].
      injection Hs' as <-. exact Hsets.
    + apply IH.
Qed.

Lemma nth_error_map_seq {A : Type} (g : nat -> A) (lo len i : nat) :
  i < len -> nth_error (map g (seq lo len)) i = Some (g (lo + i)).
Proof.
  revert lo i. induction len as [|len IH]; intros lo i Hi; [lia|].
  destruct i as [|i]; cbn.
  - now rewrite Nat.add_0_r.
  - rewrite IH by lia. f_equal. f_equal. lia.
Qed.

(** In the match array of a literal, a group on the spine is never
    [undefined]. *)
Lemma matchLiteral_item (p : RegExpLiteral) (text : string)
  (m : list (option string)) (i : nat) :
  matchLiteral p text = Some m ->
  In i (sets (body p)) -> 1 <= i <= Re.groups (body p) ->
  exists v, Re.item i m = Some v.
Proof.
  unfold matchLiteral, Re.exec. intros H Hi Hrange.
  destruct (Re.search _ _ _ _) as [[s m']|] eqn:Hs; [|discriminate].
  injection H as <-.
  pose proof (search_sets _ _ _ _ _ _ Hs i Hi) as Hrec.
  unfold Re.item, Re.matchArray.
  destruct i as [|i]; [lia|]. cbn [nth_error].
  rewrite nth_error_map_seq by lia. cbn [Nat.add].
  unfold recorded in Hrec.
  destruct (Re.lookup (S i) (Re.caps m')) as [span|]; [|contradiction].
  eexists. reflexivity.
Qed.

(** Every date literal has its three groups on the spine. *)
Definition threeGroups (p : RegExpLiteral) : bool :=
  forallb (fun i => existsb (Nat.eqb i) (sets (body p)) && (i <=? Re.groups (body p)))
    [1; 2; 3].

Lemma expiry_patterns_threeGroups :
  forallb threeGroups Lot.EXPIRY_PATTERNS = true.
Proof. vm_compute. reflexivity. Qed.

Lemma threeGroups_item (p : RegExpLiteral) (text : string)
  (m : list (option string)) (i : nat) :
  threeGroups p = true -> matchLiteral p text = Some m ->
  In i [1; 2; 3] -> exists v, Re.item i m = Some v.
Proof.
  intros Hp Hm Hi. unfold threeGroups in Hp. rewrite forallb_forall in Hp.
  specialize (Hp i Hi). apply andb_prop in Hp. destruct Hp as [Hin Hle].
  apply existsb_exists in Hin. destruct Hin as [j [Hj Heq]].
  apply Nat.eqb_eq in Heq. subst j. apply Nat.leb_le in Hle.
  apply (matchLiteral_item p text m i Hm Hj).
  split; [|exact Hle]. cbn in Hi. lia.
Qed.

(** [parseExpiryDate] never throws: the property reads of its loop are on
    groups that every match records.  A date it returns is one the host's
    [Date] accepted. *)
Lemma parseExpiryLoop_returns (host : Host) (text cleaned : string)
  (patterns : list RegExpLiteral) :
  forallb threeGroups patterns = true ->
  exists r, Lot.parseExpiryLoop host text cleaned patterns = Ok r
            /\ forall p, r = Some p ->
                         Date_getTime host (Lot.expiryNormalized p) <> None.
Proof.
  induction patterns as [|pattern more IH]; cbn [forallb Lot.parseExpiryLoop].
  - intros _. exists None. split; [reflexivity | discriminate].
  - intros H. apply andb_prop in H. destruct H as [Hp Hmore].
    specialize (IH Hmore).
    destruct (matchLiteral pattern cleaned) as [m|] eqn:Hm; [|exact IH].
    destruct (threeGroups_item pattern cleaned m 1 Hp Hm) as [month Hmonth];
      [cbn; tauto|].
    destruct (threeGroups_item pattern cleaned m 2 Hp Hm) as [day Hday];
      [cbn; tauto|].
    destruct (threeGroups_item pattern cleaned m 3 Hp Hm) as [year Hyear];
      [cbn; tauto|].
    rewrite Hmonth, Hday, Hyear. cbn [Lot.member bind].
    destruct (_ || _); [exact IH|].
    destruct (Lot.invalidDate host _) eqn:Hdate; [exact IH|].
    eexists. split; [reflexivity|].
    intros p Hp'. injection Hp' as <-. cbn [Lot.expiryNormalized].
    unfold Lot.invalidDate in Hdate.
    destruct (Date_getTime host _); [discriminate | discriminate].
Qed.

Lemma parseExpiryDate_returns (host : Host) (text : string) :
  exists r, Lot.parseExpiryDate host text = Ok r
            /\ forall p, r = Some p ->
                         Date_getTime host (Lot.expiryNormalized p) <> None.
Proof.
  apply parseExpiryLoop_returns. apply expiry_patterns_threeGroups.
Qed.

(** ** The transposition loop of Jaro-Winkler terminates

    The matching loop marks one position of each string per match, so the
    two arrays hold equally many marks; the [while] of the transposition loop
    is entered once per mark of the first array and each time finds a mark of
    the second array at or after [k]. *)

Definition trues (l : list bool) : nat := List.length (filter (fun b => b) l).

(** The marks of [a] at the positions [indices]. *)
Definition marked (a : list bool) (indices : list nat) : nat :=
  List.length (filter (Text.flag a) indices).

Lemma mark_length (i : nat) (a : list bool) :
  List.length (Text.mark i a) = List.length a.
Proof.
  revert i. induction a as [|b a IH]; intros [|i]; cbn; auto.
Qed.

Lemma mark_trues (i : nat) (a : list bool) :
  i < List.length a -> Text.flag a i = false ->
  trues (Text.mark i a) = S (trues a).
Proof.
  unfold trues, Text.flag. revert i.
  induction a as [|b a IH]; intros [|i]; cbn; intros Hi Hf; try lia.
  - subst b. reflexivity.
  - destruct b; cbn; rewrite IH by (auto; lia); reflexivity.
Qed.

Lemma mark_other (i j : nat) (a : list bool) :
  i <> j -> Text.flag (Text.mark i a) j = Text.flag a j.
Proof.
  unfold Text.flag. revert i j.
  induction a as [|b a IH]; intros [|i] [|j] H; cbn; auto; try congruence.
Qed.

Lemma firstMatch_spec (s1Norm s2Norm : string) (taken : list bool) (i : nat)
  (js : list nat) (j : nat) :
  Text.firstMatch s1Norm s2Norm taken i js = Some j ->
  In j js /\ Text.flag taken j = false.
Proof.
  induction js as [|j0 js IH]; cbn; [discriminate|].
  destruct (Text.flag taken j0) eqn:Hf; cbn.
  - intros H. destruct (IH H). auto.
  - destruct (negb _).
    + intros H. destruct (IH H). auto.
    + intros H. injection H as <-. auto.
Qed.

(** The state of the matching loop before position [i]. *)
Definition balanced (len1 len2 i : nat) (m : Text.Marks) : Prop :=
  List.length (Text.s1Matches m) = len1
  /\ List.length (Text.s2Matches m) = len2
  /\ trues (Text.s1Matches m) = trues (Text.s2Matches m)
  /\ forall i', i <= i' -> Text.flag (Text.s1Matches m) i' = false.

Lemma findMatch_balanced (s1Norm s2Norm : string) (w i : nat) (m : Text.Marks) :
  i < String.length s1Norm ->
  balanced (String.length s1Norm) (String.length s2Norm) i m ->
  balanced (String.length s1Norm) (String.length s2Norm) (S i)
    (Text.findMatch s1Norm s2Norm w m i).
Proof.
  intros Hi (H1 & H2 & Ht & Hf). unfold Text.findMatch.
  destruct (Text.firstMatch _ _ _ _ _) as [j|] eqn:Hj.
  - apply firstMatch_spec in Hj. destruct Hj as [Hin Hfree].
    apply in_seq in Hin.
    assert (j < String.length s2Norm) by lia.
    repeat split; cbn [Text.s1Matches Text.s2Matches].
    + now rewrite mark_length.
    + now rewrite mark_length.
    + rewrite !mark_trues; auto; lia.
    + intros i' Hi'. rewrite mark_other by lia. apply Hf. lia.
  - repeat split; auto. intros i' Hi'. apply Hf. lia.
Qed.

Lemma fold_findMatch_balanced (s1Norm s2Norm : string) (w n lo : nat)
  (m : Text.Marks) :
  lo + n <= String.length s1Norm ->
  balanced (String.length s1Norm) (String.length s2Norm) lo m ->
  balanced (String.length s1Norm) (String.length s2Norm) (lo + n)
    (fold_left (Text.findMatch s1Norm s2Norm w) (seq lo n) m).
Proof.
  revert lo m. induction n as [|n IH]; intros lo m Hn Hb; cbn [seq fold_left].
  - now rewrite Nat.add_0_r.
  - replace (lo + S n) with (S lo + n) by lia.
    apply IH; [lia|]. apply findMatch_balanced; [lia | exact Hb].
Qed.

Lemma repeat_false_flag (n i : nat) : Text.flag (repeat false n) i = false.
Proof.
  unfold Text.flag. revert i. induction n as [|n IH]; intros [|i]; cbn; auto.
Qed.

Lemma repeat_false_trues (n : nat) : trues (repeat false n) = 0.
Proof. unfold trues. induction n as [|n IH]; cbn; auto. Qed.

Lemma findMatches_balanced (s1Norm s2Norm : string) (w : nat) :
  balanced (String.length s1Norm) (String.length s2Norm) (String.length s1Norm)
    (Text.findMatches s1Norm s2Norm w).
Proof.
  unfold Text.findMatches.
  apply (fold_findMatch_balanced s1Norm s2Norm w (String.length s1Norm) 0);
    [lia|].
  repeat split; cbn [Text.s1Matches Text.s2Matches].
  - apply repeat_length.
  - apply repeat_length.
  - now rewrite !repeat_false_trues.
  - intros i' _. apply repeat_false_flag.
Qed.

Lemma marked_seq (a : list bool) (lo : nat) :
  List.length (filter (fun i => Text.flag a (i - lo)) (seq lo (List.length a)))
  = trues a.
Proof.
  unfold trues, Text.flag. revert lo.
  induction a as [|b a IH]; intros lo; cbn [List.length seq filter]; [reflexivity|].
  assert (Htail : filter (fun i => nth (i - lo) (b :: a) false) (seq (S lo) (List.length a))
                  = filter (fun i => nth (i - S lo) a false) (seq (S lo) (List.length a))).
  { apply filter_ext_in. intros i Hi. apply in_seq in Hi.
    replace (i - lo) with (S (i - S lo)) by lia. reflexivity. }
  rewrite Htail, Nat.sub_diag. cbn [nth].
  destruct b; cbn [List.length]; now rewrite IH.
Qed.

Lemma marked_all (a : list bool) : marked a (seq 0 (List.length a)) = trues a.
Proof.
  unfold marked. rewrite <- (marked_seq a 0). f_equal.
  apply filter_ext. intros i. now rewrite Nat.sub_0_r.
Qed.

Lemma skipn_flag (a : list bool) (k : nat) :
  k < List.length a -> skipn k a = Text.flag a k :: skipn (S k) a.
Proof.
  unfold Text.flag. revert k.
  induction a as [|b a IH]; intros [|k] Hk; cbn in *; try lia; auto.
  apply IH. lia.
Qed.

Lemma skipUnmatched_returns (taken : list bool) (fuel k : nat) :
  0 < trues (skipn k taken) -> List.length taken < fuel + k ->
  exists k', Text.skipUnmatched fuel taken k = Ok k'
             /\ trues (skipn k taken) = S (trues (skipn (S k') taken)).
Proof.
  revert k. induction fuel as [|fuel IH]; intros k Hpos Hfuel.
  - rewrite skipn_all2 in Hpos by lia. cbn in Hpos. lia.
  - destruct (Nat.lt_ge_cases k (List.length taken)) as [Hk | Hk].
    + cbn [Text.skipUnmatched]. rewrite (skipn_flag taken k Hk) in *.
      destruct (Text.flag taken k).
      * exists k. split; reflexivity.
      * change (trues (false :: skipn (S k) taken)) with (trues (skipn (S k) taken)) in *.
        apply IH; [exact Hpos | lia].
    + rewrite skipn_all2 in Hpos by lia. cbn in Hpos. lia.
Qed.

Lemma countTranspositions_returns (s1Norm s2Norm : string) (m : Text.Marks)
  (indices : list nat) (k transpositions : nat) :
  marked (Text.s1Matches m) indices <= trues (skipn k (Text.s2Matches m)) ->
  returns (Text.countTranspositions s1Norm s2Norm m indices k transpositions).
Proof.
  revert k transpositions.
  induction indices as [|i more IH]; intros k t Hle; cbn [Text.countTranspositions].
  - apply returns_Ok.
  - unfold marked in Hle. cbn [filter] in Hle.
    destruct (Text.flag (Text.s1Matches m) i); cbn [negb].
    + cbn [List.length] in Hle.
      destruct (skipUnmatched_returns (Text.s2Matches m)
                  (S (List.length (Text.s2Matches m))) k) as [k' [Hk' Htrues]];
        [lia | lia |].
      rewrite Hk'. cbn [bind]. apply IH. unfold marked. lia.
    + apply IH. exact Hle.
Qed.

Lemma jaroWinklerSimilarity_returns (s1 s2 : string) :
  returns (Text.jaroWinklerSimilarity s1 s2).
Proof.
  unfold Text.jaroWinklerSimilarity.
  destruct (String.eqb _ _); [apply returns_Ok|].
  destruct (_ || _); [apply returns_Ok|].
  destruct (_ <? 0)%Z; [apply returns_Ok|].
  destruct (Text.matches _ =? 0); [apply returns_Ok|].
  match goal with
  | |- context [Text.findMatches ?a ?b ?w] =>
      destruct (findMatches_balanced a b w) as (H1 & _ & Ht & _);
      destruct (countTranspositions_returns a b (Text.findMatches a b w)
                  (seq 0 (String.length a)) 0 0) as [t Hcount]
  end.
  - match goal with
    | |- marked ?a _ <= _ => pose proof (marked_all a) as Hall
    end.
    rewrite H1 in Hall. rewrite Hall. cbn [skipn]. lia.
  - rewrite Hcount. cbn [bind]. apply returns_Ok.
Qed.

(** ** No exception escapes the core *)

Section Totality.

Variable host : Host.

Lemma isBrandSimilar_returns (brand1 brand2 : string) (threshold : Q) :
  returns (Text.isBrandSimilar brand1 brand2 threshold).
Proof.
  unfold Text.isBrandSimilar.
  apply returns_bind; [apply jaroWinklerSimilarity_returns|].
  intros; apply returns_Ok.
Qed.

Lemma isProductSimilar_returns (product1 product2 : string) (threshold : Q) :
  returns (Text.isProductSimilar host product1 product2 threshold).
Proof.
  unfold Text.isProductSimilar.
  apply returns_bind; [apply jaroWinklerSimilarity_returns|].
  intros; apply returns_Ok.
Qed.

Lemma brandProductMatch_returns (brand product : option string)
  (record : Schema.RecallRecord) :
  returns (Decision.brandProductMatch host brand product record).
Proof.
  unfold Decision.brandProductMatch.
  apply returns_bind.
  - destruct (Str.truthy brand); [|apply returns_Ok].
    apply someM_returns. intros; apply isBrandSimilar_returns.
  - intros brandMatch _. apply returns_bind.
    + destruct (Str.truthy product); [apply isProductSimilar_returns | apply returns_Ok].
    + intros; apply returns_Ok.
Qed.

Lemma findBrandProductMatches_returns (brand product : option string)
  (records : list Schema.RecallRecord) :
  exists matched,
    Decision.findBrandProductMatches host brand product records = Ok matched
    /\ incl matched records.
Proof.
  unfold Decision.findBrandProductMatches.
  destruct (negb _ && negb _).
  - exists []. split; [reflexivity | intros r []].
  - destruct (filterM_spec (Decision.brandProductMatch host brand product) records)
      as [kept [Hk Hin]]; [intros; apply brandProductMatch_returns|].
    exists kept. split; [exact Hk|]. intros r Hr. now apply Hin in Hr.
Qed.

End Totality.

Lemma findUPCMatches_incl (upc : option string) (records : list Schema.RecallRecord) :
  incl (Decision.findUPCMatches upc records) records.
Proof.
  unfold Decision.findUPCMatches.
  destruct (negb (Str.truthy upc)); [intros r []|].
  destruct (negb _); [intros r []|].
  intros r Hr. now apply filter_In in Hr.
Qed.

(** A [MatchResult] as the schema and the data model describe it: some
    reason is given, the matches are candidates, a confidence lies in [0, 1],
    and the answer is GREEN exactly when nothing matched. *)
Definition wellFormed (candidates : list Schema.RecallRecord)
  (res : Schema.MatchResult) : Prop :=
  Schema.reasons res <> []
  /\ incl (Schema.matches res) candidates
  /\ match Schema.confidence res with
     | Some c => (0 <= c /\ c <= 1)%Q
     | None => True
     end
  /\ (Schema.decision res = Schema.GREEN <-> Schema.matches res = []).

Lemma decide_wellFormed (host : Host) (input : Decision.DecisionInput) :
  exists res,
    Decision.decide host input = Ok res
    /\ wellFormed (Decision.sourceHits input) res.
Proof.
  destruct (Decision.findUPCMatches (Decision.upc input) (Decision.sourceHits input))
    as [|u us] eqn:Hupc.
  - destruct input as [upc brand product lot expiry hits].
    cbn [Decision.upc Decision.sourceHits] in *.
    unfold Decision.decide.
    destruct hits as [|h hits].
    { eexists. split; [reflexivity|]. cbn.
      repeat split; try discriminate; auto; try (intros r []). }
    cbn [List.length Nat.eqb]. rewrite Hupc. cbn [List.length Nat.ltb Nat.leb].
    destruct (findBrandProductMatches_returns host brand product (h :: hits))
      as [matched [Hm Hincl]].
    rewrite Hm. cbn [bind].
    destruct matched as [|m matched]; cbn [List.length Nat.ltb Nat.leb].
    { eexists. split; [reflexivity|]. cbn.
      repeat split; try discriminate; auto; try (intros r []). }
    destruct (filter Decision.constrained (m :: matched)) as [|c cs] eqn:Hcs;
      cbn [List.length Nat.ltb Nat.leb].
    { eexists. split; [reflexivity|].
      repeat split; cbn; try discriminate; auto; unfold Qle; cbn; lia. }
    assert (Hsub : incl (c :: cs) (h :: hits)).
    { intros r Hr. rewrite <- Hcs in Hr. apply filter_In in Hr. apply Hincl. tauto. }
    destruct (filterM_spec (Decision.constraintHolds host lot expiry) (c :: cs))
      as [kept [Hk Hkept]]; [intros; apply constraintHolds_returns|].
    rewrite Hk. cbn [bind].
    destruct kept as [|k kept]; cbn [List.length Nat.ltb Nat.leb].
    + eexists. split; [reflexivity|].
      repeat split; cbn; try discriminate; auto; unfold Qle; cbn; lia.
    + eexists. split; [reflexivity|].
      repeat split; cbn [Schema.reasons Schema.matches Schema.confidence Schema.decision];
        try discriminate; try (unfold Qle; cbn; lia).
      intros r Hr. apply Hsub. now apply Hkept in Hr.
  - destruct (decide_tier1 host input) as [red [_ [Hred Hdec]]];
      [rewrite Hupc; discriminate|].
    rewrite Hupc in Hred, Hdec.
    eexists. split; [exact Hdec|].
    pose proof (findUPCMatches_incl (Decision.upc input) (Decision.sourceHits input))
      as Hincl.
    rewrite Hupc in Hincl.
    destruct red as [|r red]; cbn [List.length Nat.ltb Nat.leb].
    + repeat split; cbn; try discriminate; auto; unfold Qle; cbn; lia.
    + repeat split; cbn [upcRed Schema.reasons Schema.matches Schema.confidence Schema.decision];
        try discriminate; try (unfold Qle; cbn; lia).
      intros r' Hr'. apply Hincl. now apply Hred in Hr'.
Qed.

Lemma isDateInRange_bad_date (host : Host) (date : string) (start end_ : option string) :
  Date_getTime host date = None -> Lot.isDateInRange host date start end_ = false.
Proof. intros H. unfold Lot.isDateInRange. now rewrite H. Qed.

Lemma isDateInRange_bad_start (host : Host) (date s : string) (end_ : option string) :
  s <> "" -> Date_getTime host s = None ->
  Lot.isDateInRange host date (Some s) end_ = false.
Proof.
  intros Hs H. unfold Lot.isDateInRange.
  destruct (Date_getTime host date); [|reflexivity].
  unfold Lot.badStart. cbn [Str.truthy Lot.orEmpty]. rewrite H.
  destruct (String.eqb_spec s ""); [contradiction | reflexivity].
Qed.

Lemma isDateInRange_bad_end (host : Host) (date e : string) (start : option string) :
  e <> "" -> Date_getTime host e = None ->
  Lot.isDateInRange host date start (Some e) = false.
Proof.
  intros He H. unfold Lot.isDateInRange.
  destruct (Date_getTime host date); [|reflexivity].
  destruct (_ && _); [reflexivity|].
  unfold Lot.badEnd. cbn [Str.truthy Lot.orEmpty]. rewrite H.
  destruct (String.eqb_spec e ""); [contradiction | reflexivity].
Qed.

(** C8: on every host and every input the core returns.  [matchesLotPattern]
    answers, and answers [false] for a pattern the [RegExp] constructor
    refuses; [isDateInRange] is [false] for a date, or a supplied bound, that
    [Date] cannot read; [parseExpiryDate] answers, and only with a date that
    [Date] accepted; [decide] answers with a well-formed [MatchResult].
    [parseLotCode] and [isDateInRange] contain no operation that throws and
    no unbounded loop: they are total functions by their types. *)
Theorem core_returns (host : Host) :
  (forall lot pattern,
      exists b, Lot.matchesLotPattern host lot pattern = Ok b
                /\ (RegExp_compile host pattern "i" = None -> b = false))
  /\ (forall date start end_,
         (Date_getTime host date = None
          \/ (exists s, start = Some s /\ s <> "" /\ Date_getTime host s = None)
          \/ (exists e, end_ = Some e /\ e <> "" /\ Date_getTime host e = None)) ->
         Lot.isDateInRange host date start end_ = false)
  /\ (forall text,
         exists r, Lot.parseLotCode text = r
                   /\ forall p, r = Some p -> Lot.raw p = Str.trim text)
  /\ (forall text,
         exists r, Lot.parseExpiryDate host text = Ok r
                   /\ forall p, r = Some p ->
                                Date_getTime host (Lot.expiryNormalized p) <> None)
  /\ (forall input,
         exists res, Decision.decide host input = Ok res
                     /\ wellFormed (Decision.sourceHits input) res).
Proof.
  split; [|split; [|split; [|split]]].
  - intros lot pattern. rewrite matchesLotPattern_value.
    eexists. split; [reflexivity|]. intros H. now rewrite H.
  - intros date start end_ [H | [[s [-> [Hs H]]] | [e [-> [He H]]]]].
    + now apply isDateInRange_bad_date.
    + now apply isDateInRange_bad_start.
    + now apply isDateInRange_bad_end.
  - intros text. eexists. split; [reflexivity|].
    unfold Lot.parseLotCode. generalize Lot.LOT_PATTERNS.
    intros patterns. induction patterns as [|pattern more IH]; cbn [Lot.parseLotLoop].
    + discriminate.
    + destruct (matchLiteral pattern _); [|exact IH].
      intros p Hp. injection Hp as <-. reflexivity.
  - apply parseExpiryDate_returns.
  - apply decide_wellFormed.
Qed.

(** On the reference host: an unclosed group is refused by the constructor
    and tests as non-matching; 29 February 2023 is no date; a record whose
    first lot pattern is malformed is still matched through its second. *)
Lemma core_returns_witness :
  (exists b, Lot.matchesLotPattern Reference.host "L2205" "^(L22" = Ok b /\ b = false)
  /\ Lot.isDateInRange Reference.host "2023-02-29" None None = false
  /\ (exists r, Lot.parseExpiryDate Reference.host "EXP 02/29/23" = Ok r)
  /\ (exists res,
        Decision.decide Reference.host scanBrandLotExpiry = Ok res
        /\ wellFormed (Decision.sourceHits scanBrandLotExpiry) res).
Proof.
  destruct (core_returns Reference.host) as (Hlot & Hrange & _ & Hexpiry & Hdecide).
  split; [|split; [|split]].
  - destruct (Hlot "L2205" "^(L22") as [b [Hb Hmalformed]].
    exists b. split; [exact Hb | apply Hmalformed; vm_compute; reflexivity].
  - apply Hrange. left. vm_compute. reflexivity.
  - destruct (Hexpiry "EXP 02/29/23") as [r [Hr _]]. now exists r.
  - apply Hdecide.
Defined.

Definition crackersBadPattern : Schema.RecallRecord :=
  {| Schema.id := "F-0002-2024";
     Schema.source := Schema.fda;
     Schema.brand := ["acme foods"];
     Schema.product := "peanut butter crackers";
     Schema.upcs := ["012345678905"];
     Schema.lotRegex := Some ["^(L22"; "^L220[1-5]$"];
     Schema.expiration := None;
     Schema.hazard := "Undeclared peanuts";
     Schema.actions := ["Do not consume"];
     Schema.jurisdictions := None;
     Schema.links := sampleLinks;
     Schema.published := "2024-01-15";
     Schema.updated := None;
     Schema.status := None |}.

Example malformed_pattern_skipped :
  Lot.matchesLotPattern Reference.host "L2205" "^(L22" = Ok false
  /\ Lot.parseExpiryDate Reference.host "EXP 02/29/23" = Ok None
  /\ Decision.decide Reference.host
       {| Decision.upc := Some "012345678905"; Decision.brand := None;
          Decision.product := None; Decision.lot := Some "L2205";
          Decision.expiry := None; Decision.sourceHits := [crackersBadPattern] |}
     = Ok (upcRed (Some "L2205") [crackersBadPattern]).
Proof. vm_compute. repeat split. Qed.

(** * Further properties of the core *)

(** ** Strings as lists of characters *)

Lemma chars_ofChars (l : list ascii) : Str.chars (Str.ofChars l) = l.
Proof. apply list_ascii_of_string_of_list_ascii. Qed.

Lemma ofChars_chars (s : string) : Str.ofChars (Str.chars s) = s.
Proof. apply string_of_list_ascii_of_string. Qed.

Lemma length_chars (s : string) : String.length s = List.length (Str.chars s).
Proof. induction s as [|c s IH]; cbn; [reflexivity | now rewrite IH]. Qed.

Lemma length_ofChars (l : list ascii) : String.length (Str.ofChars l) = List.length l.
Proof. now rewrite length_chars, chars_ofChars. Qed.

Lemma get_chars (s : string) (i : nat) :
  String.get i s = nth_error (Str.chars s) i.
Proof.
  revert i. induction s as [|c s IH]; intros [|i]; cbn; auto.
Qed.

Lemma substring_chars (s : string) (n : nat) :
  String.substring 0 n s = Str.ofChars (firstn n (Str.chars s)).
Proof.
  revert n. induction s as [|c s IH]; intros [|n]; cbn; auto.
  now rewrite IH.
Qed.

Lemma ofChars_inj (l l' : list ascii) : Str.ofChars l = Str.ofChars l' -> l = l'.
Proof.
  intros H. rewrite <- (chars_ofChars l), <- (chars_ofChars l'). now rewrite H.
Qed.

(** A global replacement by a one-character class works character by
    character. *)
Lemma replaceFrom_sym (neg : bool) (p : ascii -> bool) (repl before after : list ascii) :
  Re.replaceFrom false (Re.Sym neg p) repl 0 before after
  = flat_map (fun c => if xorb neg (p c) then repl else [c]) after.
Proof.
  revert before. induction after as [|c t IH]; intros before.
  - reflexivity.
  - cbn [Re.replaceFrom Re.run Re.rest flat_map].
    unfold Re.symTest. cbn [andb]. rewrite orb_false_r.
    destruct (xorb neg (p c)).
    + cbn [Re.advance Re.rest List.length].
      replace (S (List.length t) - List.length t) with 1 by lia.
      now rewrite IH.
    + cbn [app]. now rewrite IH.
Qed.

(** ** Barcode normalisation *)

(** The decimal digits of a text, in order. *)
Definition digitsOf (s : string) : string :=
  Str.ofChars (filter Str.isDigit (Str.chars s)).

Lemma cleaned_digitsOf (input : string) :
  Re.replaceAll false Upc.nonDigit "" input = digitsOf input.
Proof.
  unfold Re.replaceAll, Upc.nonDigit, digitsOf. rewrite replaceFrom_sym.
  f_equal. change (Str.chars "") with (@nil ascii).
  generalize (Str.chars input). intros l.
  induction l as [|c l IH]; cbn [flat_map filter]; [reflexivity|].
  rewrite IH. destruct (Str.isDigit c); reflexivity.
Qed.

Lemma padStart_full (n : nat) (c : ascii) (s : string) :
  String.length s = n -> Str.padStart n c s = s.
Proof.
  intros H. unfold Str.padStart. rewrite H, Nat.sub_diag. cbn.
  apply ofChars_chars.
Qed.

Lemma digitsOf_idem (s : string) : digitsOf (digitsOf s) = digitsOf s.
Proof.
  unfold digitsOf. rewrite chars_ofChars. f_equal.
  generalize (Str.chars s). intros l.
  induction l as [|c l IH]; cbn; [reflexivity|].
  destruct (Str.isDigit c) eqn:Hc; cbn; rewrite ?Hc, IH; reflexivity.
Qed.

Lemma digitsOf_all_digits (s : string) :
  forallb Str.isDigit (Str.chars (digitsOf s)) = true.
Proof.
  unfold digitsOf. rewrite chars_ofChars. apply forallb_forall.
  intros c Hc. now apply filter_In in Hc.
Qed.

Lemma normalizeUPC_fields (input : string) :
  Upc.normalized (Upc.normalizeUPC input) = digitsOf input
  /\ (Upc.type (Upc.normalizeUPC input) = Upc.invalid <->
      ~ In (String.length (digitsOf input)) [8; 12; 13])
  /\ (Upc.type (Upc.normalizeUPC input) = Upc.EAN_8 <->
      String.length (digitsOf input) = 8)
  /\ (Upc.type (Upc.normalizeUPC input) = Upc.UPC_A <->
      String.length (digitsOf input) = 12)
  /\ (Upc.type (Upc.normalizeUPC input) = Upc.EAN_13 <->
      String.length (digitsOf input) = 13)
  /\ (Upc.isValid (Upc.normalizeUPC input) = true ->
      Upc.type (Upc.normalizeUPC input) <> Upc.invalid).
Proof.
  unfold Upc.normalizeUPC. rewrite cleaned_digitsOf.
  destruct (String.length (digitsOf input) =? 8) eqn:H8;
    [|destruct (String.length (digitsOf input) =? 12) eqn:H12;
      [|destruct (String.length (digitsOf input) =? 13) eqn:H13]];
    cbn [Upc.normalized Upc.type Upc.isValid];
    rewrite ?Nat.eqb_eq, ?Nat.eqb_neq in *;
    rewrite ?padStart_full by assumption;
    (split; [reflexivity|]);
    repeat split; try discriminate; try congruence; cbn; try lia; intuition (try lia; try discriminate).
Qed.

(** X1: the [normalized] field of [normalizeUPC] is the digits of the input
    and nothing else, whatever the input; the type is [invalid] exactly when
    their number is not 8, 12 or 13, and an [invalid] result is never valid. *)
Theorem normalizeUPC_digits (input : string) :
  Upc.normalized (Upc.normalizeUPC input) = digitsOf input
  /\ (Upc.type (Upc.normalizeUPC input) = Upc.invalid <->
      ~ In (String.length (digitsOf input)) [8; 12; 13])
  /\ (Upc.type (Upc.normalizeUPC input) = Upc.EAN_8 <->
      String.length (digitsOf input) = 8)
  /\ (Upc.type (Upc.normalizeUPC input) = Upc.UPC_A <->
      String.length (digitsOf input) = 12)
  /\ (Upc.type (Upc.normalizeUPC input) = Upc.EAN_13 <->
      String.length (digitsOf input) = 13)
  /\ (Upc.isValid (Upc.normalizeUPC input) = true ->
      Upc.type (Upc.normalizeUPC input) <> Upc.invalid).
Proof. exact (normalizeUPC_fields input). Qed.

Lemma normalizeUPC_normalized (input : string) :
  Upc.normalized (Upc.normalizeUPC input) = digitsOf input.
Proof. apply normalizeUPC_fields. Qed.

Lemma normalizeUPC_again (input : string) :
  Upc.normalizeUPC (Upc.normalized (Upc.normalizeUPC input)) = Upc.normalizeUPC input.
Proof.
  rewrite normalizeUPC_normalized.
  unfold Upc.normalizeUPC. rewrite !cleaned_digitsOf, digitsOf_idem. reflexivity.
Qed.

(** X2: normalising is idempotent: the normalised digits normalise to the
    same result, type and validity included. *)
Theorem normalizeUPC_idempotent (input : string) :
  Upc.normalizeUPC (Upc.normalized (Upc.normalizeUPC input)) = Upc.normalizeUPC input.
Proof. exact (normalizeUPC_again input). Qed.

(** X3: [areUPCEquivalent] is symmetric. *)
Theorem areUPCEquivalent_sym (upc1 upc2 : string) :
  Upc.areUPCEquivalent upc1 upc2 = Upc.areUPCEquivalent upc2 upc1.
Proof.
  unfold Upc.areUPCEquivalent.
  rewrite (orb_comm (negb (Upc.isValid (Upc.normalizeUPC upc1)))).
  destruct (negb _ || negb _); [reflexivity|].
  rewrite (String.eqb_sym (Str.prefix 11 (Upc.normalized (Upc.normalizeUPC upc1)))).
  rewrite (String.eqb_sym (Str.prefix 12 (Upc.normalized (Upc.normalizeUPC upc1)))).
  destruct (Upc.type (Upc.normalizeUPC upc1)), (Upc.type (Upc.normalizeUPC upc2));
    reflexivity.
Qed.

(** ** Equivalent identifiers have the same digits *)

Lemma validateChecksum_true (code : string) (n : nat) :
  Upc.validateChecksum code n = true ->
  String.length code = n
  /\ exists check sum,
       Upc.digitAt code (n - 1) = Some check
       /\ Upc.weightedSum code n = Some sum
       /\ check = Z.rem (10 - Z.rem sum 10) 10.
Proof.
  unfold Upc.validateChecksum.
  destruct (String.length code =? n) eqn:Hlen; cbn [negb]; [|discriminate].
  apply Nat.eqb_eq in Hlen.
  destruct (Upc.digitAt code (n - 1)) as [check|]; [|discriminate].
  destruct (Upc.weightedSum code n) as [sum|]; [|discriminate].
  intros H. apply Z.eqb_eq in H. split; [exact Hlen|]. now exists check, sum.
Qed.

Lemma weighted_fold_ext (c1 c2 : string) (n : nat) (l : list nat) (acc : option Z) :
  (forall i, In i l -> Upc.digitAt c1 i = Upc.digitAt c2 i) ->
  fold_left
    (fun (sum : option Z) (i : nat) =>
       match sum, Upc.digitAt c1 i with
       | Some s, Some digit => Some (s + digit * Upc.weight n i)%Z
       | _, _ => None
       end) l acc
  = fold_left
      (fun (sum : option Z) (i : nat) =>
         match sum, Upc.digitAt c2 i with
         | Some s, Some digit => Some (s + digit * Upc.weight n i)%Z
         | _, _ => None
         end) l acc.
Proof.
  revert acc. induction l as [|i l IH]; intros acc H; cbn [fold_left]; [reflexivity|].
  rewrite (H i (or_introl eq_refl)). apply IH. intros j Hj. apply H. now right.
Qed.

Lemma digitAt_firstn (c1 c2 : string) (n i : nat) :
  firstn n (Str.chars c1) = firstn n (Str.chars c2) -> i < n ->
  Upc.digitAt c1 i = Upc.digitAt c2 i.
Proof.
  intros H Hi. unfold Upc.digitAt. rewrite !get_chars.
  pose proof (nth_error_firstn n (Str.chars c1) i) as H1.
  pose proof (nth_error_firstn n (Str.chars c2) i) as H2.
  apply Nat.ltb_lt in Hi. rewrite Hi in H1, H2.
  now rewrite <- H1, <- H2, H.
Qed.

Lemma digit_of_value (c d : ascii) :
  Str.isDigit c = true -> Str.isDigit d = true ->
  Str.parseInt (String c "") = Str.parseInt (String d "") -> c = d.
Proof.
  intros Hc Hd. rewrite (parseInt_digit c "" Hc), (parseInt_digit d "" Hd).
  cbn [Str.chars list_ascii_of_string Str.parseDigits]. rewrite Hc, Hd.
  intros H. injection H as H.
  unfold Str.isDigit, Str.inRange in Hc, Hd.
  apply andb_prop in Hc, Hd. destruct Hc as [Hc _], Hd as [Hd _].
  apply Nat.leb_le in Hc, Hd. unfold Str.digitValue in *.
  assert (Hcode : Str.code c = Str.code d) by lia.
  unfold Str.code in Hcode.
  rewrite <- (ascii_nat_embedding c), <- (ascii_nat_embedding d).
  now rewrite Hcode.
Qed.

Lemma last_split (l : list ascii) (n : nat) :
  List.length l = S n ->
  exists x, nth_error l n = Some x /\ l = firstn n l ++ [x].
Proof.
  intros Hlen.
  destruct (nth_error l n) as [x|] eqn:Hx.
  - exists x. split; [reflexivity|].
    pose proof (firstn_skipn_middle n l Hx) as Hmid.
    rewrite skipn_all2 in Hmid by lia. now symmetry.
  - apply nth_error_None in Hx. lia.
Qed.

(** Two digit strings with valid check digits that agree on all but their
    last digit agree on the last digit too. *)
Lemma checksum_determines_last (l1 l2 : list ascii) (n : nat) :
  forallb Str.isDigit l1 = true -> forallb Str.isDigit l2 = true ->
  firstn n l1 = firstn n l2 ->
  Upc.validateChecksum (Str.ofChars l1) (S n) = true ->
  Upc.validateChecksum (Str.ofChars l2) (S n) = true ->
  l1 = l2.
Proof.
  intros Hd1 Hd2 Hpre Hv1 Hv2.
  apply validateChecksum_true in Hv1. destruct Hv1 as [Hl1 (k1 & s1 & Hk1 & Hs1 & He1)].
  apply validateChecksum_true in Hv2. destruct Hv2 as [Hl2 (k2 & s2 & Hk2 & Hs2 & He2)].
  rewrite length_ofChars in Hl1, Hl2.
  replace (S n - 1) with n in * by lia.
  assert (Hsum : Upc.weightedSum (Str.ofChars l1) (S n) = Upc.weightedSum (Str.ofChars l2) (S n)).
  { unfold Upc.weightedSum. apply weighted_fold_ext.
    intros i Hi. apply in_seq in Hi.
    apply (digitAt_firstn _ _ n); [now rewrite !chars_ofChars | lia]. }
  rewrite Hs1, Hs2 in Hsum. injection Hsum as ->.
  assert (Hk : k1 = k2) by congruence. subst k2.
  destruct (last_split l1 n Hl1) as [x1 [Hx1 Hsplit1]].
  destruct (last_split l2 n Hl2) as [x2 [Hx2 Hsplit2]].
  unfold Upc.digitAt in Hk1, Hk2. rewrite get_chars, chars_ofChars in Hk1, Hk2.
  rewrite Hx1 in Hk1. rewrite Hx2 in Hk2.
  assert (x1 = x2).
  { apply digit_of_value.
    - rewrite forallb_forall in Hd1. apply Hd1. eapply nth_error_In; eauto.
    - rewrite forallb_forall in Hd2. apply Hd2. eapply nth_error_In; eauto.
    - congruence. }
  subst x2. rewrite Hsplit1, Hsplit2, Hpre. reflexivity.
Qed.

Lemma normalizeUPC_valid_checksum (input : string) :
  Upc.isValid (Upc.normalizeUPC input) = true ->
  Upc.validateChecksum (digitsOf input) (String.length (digitsOf input)) = true.
Proof.
  unfold Upc.normalizeUPC. rewrite cleaned_digitsOf.
  destruct (Nat.eqb_spec (String.length (digitsOf input)) 8) as [-> | _];
    [cbn [Upc.isValid]; auto|].
  destruct (Nat.eqb_spec (String.length (digitsOf input)) 12) as [-> | _];
    [cbn [Upc.isValid]; auto|].
  destruct (Nat.eqb_spec (String.length (digitsOf input)) 13) as [-> | _];
    [cbn [Upc.isValid]; auto|].
  cbn [Upc.isValid]. discriminate.
Qed.

Lemma prefix_eq_firstn (n : nat) (s1 s2 : string) :
  String.eqb (Str.prefix n s1) (Str.prefix n s2) = true ->
  firstn n (Str.chars s1) = firstn n (Str.chars s2).
Proof.
  intros H. apply String.eqb_eq in H. unfold Str.prefix in H.
  rewrite !substring_chars in H. now apply ofChars_inj.
Qed.

Lemma equivalent_same_digits (upc1 upc2 : string) :
  Upc.areUPCEquivalent upc1 upc2 = true ->
  Upc.isValid (Upc.normalizeUPC upc1) = true
  /\ Upc.isValid (Upc.normalizeUPC upc2) = true
  /\ Upc.normalized (Upc.normalizeUPC upc1) = Upc.normalized (Upc.normalizeUPC upc2).
Proof.
  unfold Upc.areUPCEquivalent.
  destruct (Upc.isValid (Upc.normalizeUPC upc1)) eqn:Hv1; [|discriminate].
  destruct (Upc.isValid (Upc.normalizeUPC upc2)) eqn:Hv2; [|discriminate].
  cbn [negb orb]. intros H. split; [reflexivity|]. split; [reflexivity|].
  pose proof (normalizeUPC_fields upc1) as (Hn1 & _ & _ & Ha1 & He1 & _).
  pose proof (normalizeUPC_fields upc2) as (Hn2 & _ & _ & Ha2 & He2 & _).
  apply normalizeUPC_valid_checksum in Hv1, Hv2.
  rewrite Hn1, Hn2 in *.
  assert (Hkey : forall n,
             String.length (digitsOf upc1) = S n ->
             String.length (digitsOf upc2) = S n ->
             String.eqb (Str.prefix n (digitsOf upc1)) (Str.prefix n (digitsOf upc2)) = true ->
             digitsOf upc1 = digitsOf upc2).
  { intros n H1 H2 Hp. rewrite H1 in Hv1. rewrite H2 in Hv2.
    apply prefix_eq_firstn in Hp.
    rewrite <- (ofChars_chars (digitsOf upc1)), <- (ofChars_chars (digitsOf upc2)).
    f_equal.
    apply (checksum_determines_last _ _ n);
      try apply digitsOf_all_digits; try exact Hp;
      now rewrite ofChars_chars. }
  destruct (Upc.type (Upc.normalizeUPC upc1)) eqn:Ht1;
    destruct (Upc.type (Upc.normalizeUPC upc2)) eqn:Ht2;
    cbn [Upc.isType andb] in H; try discriminate H.
  - apply (Hkey 11); [now apply Ha1 | now apply Ha2 | exact H].
  - apply (Hkey 12); [now apply He1 | now apply He2 | exact H].
Qed.

(** X4: two identifiers that [areUPCEquivalent] reports equivalent are both
    valid and have the same normalised digits: the check digit that the
    comparison leaves out is fixed by the digits it compares. *)
Theorem areUPCEquivalent_same_digits (upc1 upc2 : string) :
  Upc.areUPCEquivalent upc1 upc2 = true ->
  Upc.isValid (Upc.normalizeUPC upc1) = true
  /\ Upc.isValid (Upc.normalizeUPC upc2) = true
  /\ Upc.normalized (Upc.normalizeUPC upc1) = Upc.normalized (Upc.normalizeUPC upc2).
Proof. exact (equivalent_same_digits upc1 upc2). Qed.

Lemma areUPCEquivalent_same_digits_witness :
  Upc.isValid (Upc.normalizeUPC "012345678905") = true
  /\ Upc.isValid (Upc.normalizeUPC "0 12345-67890 5") = true
  /\ Upc.normalized (Upc.normalizeUPC "012345678905")
     = Upc.normalized (Upc.normalizeUPC "0 12345-67890 5").
Proof.
  apply (areUPCEquivalent_same_digits "012345678905" "0 12345-67890 5").
  vm_compute. reflexivity.
Defined.

(** X5: against a valid scan, an entry of [upcs] matches exactly when it is
    valid and has the scan's digits; the call of [areUPCEquivalent] in
    [findUPCMatches] never adds a match. *)
Theorem upcEntryMatches_exact (upc recordUPC : string) :
  Decision.upcEntryMatches (Upc.normalizeUPC upc) recordUPC
  = Upc.isValid (Upc.normalizeUPC recordUPC)
    && String.eqb (Upc.normalized (Upc.normalizeUPC upc))
         (Upc.normalized (Upc.normalizeUPC recordUPC)).
Proof.
  unfold Decision.upcEntryMatches. f_equal.
  destruct (String.eqb _ _) eqn:Heq; [reflexivity|]. cbn [orb].
  destruct (Upc.areUPCEquivalent _ _) eqn:He; [|reflexivity].
  apply equivalent_same_digits in He. destruct He as (_ & _ & He).
  rewrite !normalizeUPC_again in He.
  apply String.eqb_neq in Heq. contradiction.
Qed.

(** X6: [getManufacturerCode] answers only for a valid UPC-A, and its answer
    is then the first six digits of the code: six characters, all decimal
    digits. *)
Theorem getManufacturerCode_spec (upc code : string) :
  Upc.getManufacturerCode upc = Some code <->
  Upc.type (Upc.normalizeUPC upc) = Upc.UPC_A
  /\ Upc.isValid (Upc.normalizeUPC upc) = true
  /\ code = Str.ofChars (firstn 6 (filter Str.isDigit (Str.chars upc)))
  /\ String.length code = 6
  /\ forallb Str.isDigit (Str.chars code) = true.
Proof.
  unfold Upc.getManufacturerCode.
  pose proof (normalizeUPC_fields upc) as (Hn & _ & _ & Ha & _).
  rewrite Hn. unfold Str.prefix. rewrite substring_chars.
  unfold digitsOf at 1. rewrite chars_ofChars.
  remember (Str.ofChars (firstn 6 (filter Str.isDigit (Str.chars upc)))) as six eqn:Hsix.
  split.
  - destruct (Upc.type (Upc.normalizeUPC upc)) eqn:Ht; cbn [Upc.isType andb];
      try discriminate.
    destruct (Upc.isValid (Upc.normalizeUPC upc)); [|discriminate].
    intros H. injection H as <-.
    assert (Hlen : List.length (filter Str.isDigit (Str.chars upc)) = 12).
    { rewrite <- length_ofChars. now apply Ha. }
    split; [reflexivity|]. split; [reflexivity|]. split; [reflexivity|].
    subst six. split.
    + rewrite length_ofChars, length_firstn, Hlen. reflexivity.
    + rewrite chars_ofChars. apply forallb_forall. intros c Hc.
      assert (Hin : In c (filter Str.isDigit (Str.chars upc))).
      { rewrite <- (firstn_skipn 6 (filter Str.isDigit (Str.chars upc))).
        apply in_or_app. now left. }
      now apply filter_In in Hin.
  - intros (Ht & Hv & -> & _). rewrite Ht, Hv. reflexivity.
Qed.

Lemma getManufacturerCode_witness :
  Upc.type (Upc.normalizeUPC "0-36000-29145-8") = Upc.UPC_A
  /\ Upc.isValid (Upc.normalizeUPC "0-36000-29145-8") = true
  /\ "036000" = Str.ofChars (firstn 6 (filter Str.isDigit (Str.chars "0-36000-29145-8")))
  /\ String.length "036000" = 6
  /\ forallb Str.isDigit (Str.chars "036000") = true.
Proof.
  apply (proj1 (getManufacturerCode_spec "0-36000-29145-8" "036000")).
  vm_compute. reflexivity.
Defined.

(** X7: for an input with thirteen digits, the validity that [normalizeUPC]
    reports is the public EAN-13 rule on those digits. *)
Theorem normalizeUPC_ean13_standard (input : string) :
  String.length (digitsOf input) = 13 ->
  Upc.type (Upc.normalizeUPC input) = Upc.EAN_13
  /\ Upc.isValid (Upc.normalizeUPC input) = Upc.standardValid (digitsOf input).
Proof.
  intros Hlen. unfold Upc.normalizeUPC. rewrite cleaned_digitsOf, Hlen.
  cbn [Nat.eqb Upc.type Upc.isValid]. split; [reflexivity|].
  now apply validateChecksum_13_standard.
Qed.

Lemma normalizeUPC_ean13_standard_witness :
  Upc.type (Upc.normalizeUPC "4 006381 333931") = Upc.EAN_13
  /\ Upc.isValid (Upc.normalizeUPC "4 006381 333931")
     = Upc.standardValid (digitsOf "4 006381 333931").
Proof.
  apply (normalizeUPC_ean13_standard "4 006381 333931").
  vm_compute. reflexivity.
Defined.

(** ** A single wrong digit is always detected *)

Lemma digitAt_digit (code : string) (i : nat) (d : Z) :
  Upc.digitAt code i = Some d ->
  exists c, String.get i code = Some c /\ Str.isDigit c = true
            /\ d = Str.digitValue c /\ (0 <= d <= 9)%Z.
Proof.
  unfold Upc.digitAt. destruct (String.get i code) as [c|]; [|discriminate].
  unfold Str.parseInt, Str.chars. cbn [list_ascii_of_string Str.dropSpaces].
  destruct (Str.isSpace c); [discriminate|].
  destruct (Str.isDigit c) eqn:Hc.
  - cbn [Str.parseDigits]. rewrite Hc. intros H. injection H as <-.
    exists c. repeat split; auto.
    + unfold Str.digitValue. lia.
    + unfold Str.isDigit, Str.inRange in Hc. apply andb_prop in Hc.
      destruct Hc as [_ Hc]. apply Nat.leb_le in Hc. unfold Str.digitValue. lia.
  - cbn [Str.startsWithDigit]. rewrite andb_false_r. discriminate.
Qed.

Lemma weight_1_or_3 (n i : nat) : Upc.weight n i = 1%Z \/ Upc.weight n i = 3%Z.
Proof.
  unfold Upc.weight. destruct (_ && _); [now right|].
  destruct (_ =? 0); [now left | now right].
Qed.

(** The two weighted sums of codes that agree outside position [j] differ by
    the weighted difference of their digits at [j]. *)
Lemma weighted_fold_diff (c1 c2 : string) (n j : nat) (d1 d2 : Z) (l : list nat) :
  NoDup l ->
  (forall i, In i l -> i <> j -> Upc.digitAt c1 i = Upc.digitAt c2 i) ->
  Upc.digitAt c1 j = Some d1 -> Upc.digitAt c2 j = Some d2 ->
  forall a1 a2 s1 s2,
    fold_left
      (fun (sum : option Z) (i : nat) =>
         match sum, Upc.digitAt c1 i with
         | Some s, Some digit => Some (s + digit * Upc.weight n i)%Z
         | _, _ => None
         end) l (Some a1) = Some s1 ->
    fold_left
      (fun (sum : option Z) (i : nat) =>
         match sum, Upc.digitAt c2 i with
         | Some s, Some digit => Some (s + digit * Upc.weight n i)%Z
         | _, _ => None
         end) l (Some a2) = Some s2 ->
    ((In j l -> s1 - s2 = a1 - a2 + (d1 - d2) * Upc.weight n j)
     /\ (~ In j l -> s1 - s2 = a1 - a2))%Z.
Proof.
  intros Hnd Hsame Hd1 Hd2.
  induction l as [|i l IH]; intros a1 a2 s1 s2; cbn [fold_left].
  - intros H1 H2. injection H1 as <-. injection H2 as <-.
    split; [intros [] | reflexivity].
  - inversion Hnd as [|? ? Hnotin Hnd']. subst.
    destruct (Nat.eq_dec i j) as [-> | Hij].
    + rewrite Hd1, Hd2. intros H1 H2.
      destruct (IH Hnd' (fun k Hk => Hsame k (or_intror Hk)) _ _ _ _ H1 H2) as [_ Hout].
      split; [intros _; rewrite (Hout Hnotin); lia | intros Hno; exfalso; apply Hno; now left].
    + rewrite <- (Hsame i (or_introl eq_refl) Hij).
      destruct (Upc.digitAt c1 i) as [d|].
      * intros H1 H2.
        destruct (IH Hnd' (fun k Hk => Hsame k (or_intror Hk)) _ _ _ _ H1 H2) as [Hin Hout].
        split.
        -- intros [Heq | Hj]; [congruence | rewrite (Hin Hj); lia].
        -- intros Hno. rewrite Hout; [lia | intros Hj; apply Hno; now right].
      * intros H1. exfalso. clear - H1.
        induction l as [|k l IHl]; cbn in H1; [discriminate | auto].
Qed.

Lemma checksum_single_error (c1 c2 : string) (n j : nat) :
  Upc.validateChecksum c1 n = true ->
  Upc.validateChecksum c2 n = true ->
  (forall i, i <> j -> String.get i c1 = String.get i c2) ->
  String.get j c1 = String.get j c2.
Proof.
  intros Hv1 Hv2 Hsame.
  apply validateChecksum_true in Hv1. destruct Hv1 as [Hl1 (k1 & s1 & Hk1 & Hs1 & He1)].
  apply validateChecksum_true in Hv2. destruct Hv2 as [Hl2 (k2 & s2 & Hk2 & Hs2 & He2)].
  assert (Hdig : forall i, i <> j -> Upc.digitAt c1 i = Upc.digitAt c2 i).
  { intros i Hi. unfold Upc.digitAt. now rewrite (Hsame i Hi). }
  destruct (Nat.lt_ge_cases j n) as [Hjn | Hjn].
  2:{ rewrite !get_chars.
      assert (Hn1 : nth_error (Str.chars c1) j = None)
        by (apply nth_error_None; rewrite <- length_chars; lia).
      assert (Hn2 : nth_error (Str.chars c2) j = None)
        by (apply nth_error_None; rewrite <- length_chars; lia).
      congruence. }
  destruct (Nat.eq_dec j (n - 1)) as [-> | Hj].
  - (* the check digit itself *)
    assert (Hsum : Upc.weightedSum c1 n = Upc.weightedSum c2 n).
    { unfold Upc.weightedSum. apply weighted_fold_ext.
      intros i Hi. apply in_seq in Hi. apply Hdig. lia. }
    assert (k1 = k2) by congruence. subst k2.
    apply digitAt_digit in Hk1, Hk2.
    destruct Hk1 as (x1 & Hx1 & Hdx1 & Hv1 & _), Hk2 as (x2 & Hx2 & Hdx2 & Hv2 & _).
    rewrite Hx1, Hx2. f_equal.
    apply digit_of_value; auto.
    rewrite (parseInt_digit x1 "" Hdx1), (parseInt_digit x2 "" Hdx2).
    cbn [Str.chars list_ascii_of_string Str.parseDigits]. rewrite Hdx1, Hdx2.
    f_equal. lia.
  - (* a digit of the payload *)
    assert (Hk : k1 = k2).
    { rewrite (Hdig (n - 1)) in Hk1 by auto. congruence. }
    assert (Hin : In j (seq 0 (n - 1))) by (apply in_seq; lia).
    destruct (Upc.digitAt c1 j) as [d1|] eqn:Hd1.
    2:{ exfalso. unfold Upc.weightedSum in Hs1.
        apply in_split in Hin. destruct Hin as (la & lb & Hl). rewrite Hl in Hs1.
        rewrite fold_left_app in Hs1. cbn [fold_left] in Hs1. rewrite Hd1 in Hs1.
        assert (Hnone : forall (l : list nat) (acc : option Z),
                   acc = None \/ (exists a, acc = Some a /\ False) ->
                   fold_left
                     (fun (sum : option Z) (i : nat) =>
                        match sum, Upc.digitAt c1 i with
                        | Some s, Some digit => Some (s + digit * Upc.weight n i)%Z
                        | _, _ => None
                        end) l acc = None).
        { intros l. induction l as [|k l IHl]; intros acc [-> | (a & _ & [])]; cbn; auto. }
        rewrite Hnone in Hs1; [discriminate|]. left.
        destruct (fold_left _ la (Some 0%Z)); reflexivity. }
    destruct (Upc.digitAt c2 j) as [d2|] eqn:Hd2.
    2:{ exfalso. unfold Upc.weightedSum in Hs2.
        apply in_split in Hin. destruct Hin as (la & lb & Hl). rewrite Hl in Hs2.
        rewrite fold_left_app in Hs2. cbn [fold_left] in Hs2. rewrite Hd2 in Hs2.
        assert (Hnone : forall (l : list nat) (acc : option Z),
                   acc = None \/ (exists a, acc = Some a /\ False) ->
                   fold_left
                     (fun (sum : option Z) (i : nat) =>
                        match sum, Upc.digitAt c2 i with
                        | Some s, Some digit => Some (s + digit * Upc.weight n i)%Z
                        | _, _ => None
                        end) l acc = None).
        { intros l. induction l as [|k l IHl]; intros acc [-> | (a & _ & [])]; cbn; auto. }
        rewrite Hnone in Hs2; [discriminate|]. left.
        destruct (fold_left _ la (Some 0%Z)); reflexivity. }
    unfold Upc.weightedSum in Hs1, Hs2.
    destruct (weighted_fold_diff c1 c2 n j d1 d2 (seq 0 (n - 1)) (seq_NoDup _ _)
                (fun i _ Hi => Hdig i Hi) Hd1 Hd2 _ _ _ _ Hs1 Hs2) as [Hdiff _].
    specialize (Hdiff Hin).
    assert (0 <= s1)%Z.
    { apply (weighted_fold_nonneg c1 (Upc.weight n) (seq 0 (n - 1)) (Some 0%Z) s1); auto.
      - intros i. destruct (weight_1_or_3 n i) as [-> | ->]; lia.
      - intros a Ha. injection Ha as <-. lia. }
    assert (0 <= s2)%Z.
    { apply (weighted_fold_nonneg c2 (Upc.weight n) (seq 0 (n - 1)) (Some 0%Z) s2); auto.
      - intros i. destruct (weight_1_or_3 n i) as [-> | ->]; lia.
      - intros a Ha. injection Ha as <-. lia. }
    pose proof (digitAt_digit _ _ _ Hd1) as (x1 & Hx1 & Hdx1 & Hv1 & Hb1).
    pose proof (digitAt_digit _ _ _ Hd2) as (x2 & Hx2 & Hdx2 & Hv2 & Hb2).
    rewrite Hx1, Hx2. f_equal.
    assert (Hd : d1 = d2).
    { subst k1 k2.
      rewrite (Z.rem_mod_nonneg s1 10), (Z.rem_mod_nonneg s2 10) in Hk by lia.
      pose proof (Z.mod_pos_bound s1 10 ltac:(lia)).
      pose proof (Z.mod_pos_bound s2 10 ltac:(lia)).
      rewrite (Z.rem_mod_nonneg (10 - s1 mod 10) 10),
              (Z.rem_mod_nonneg (10 - s2 mod 10) 10) in Hk by lia.
      assert (Hr : (s1 mod 10 = s2 mod 10)%Z).
      { destruct (Z.eq_dec (s1 mod 10) 0) as [E1 | E1];
          destruct (Z.eq_dec (s2 mod 10) 0) as [E2 | E2].
        - congruence.
        - rewrite E1 in Hk. change ((10 - 0) mod 10)%Z with 0%Z in Hk.
          rewrite (Z.mod_small (10 - s2 mod 10) 10) in Hk by lia. lia.
        - rewrite E2 in Hk. change ((10 - 0) mod 10)%Z with 0%Z in Hk.
          rewrite (Z.mod_small (10 - s1 mod 10) 10) in Hk by lia. lia.
        - rewrite (Z.mod_small (10 - s1 mod 10) 10),
                  (Z.mod_small (10 - s2 mod 10) 10) in Hk by lia. lia. }
      pose proof (Z.div_mod s1 10 ltac:(lia)).
      pose proof (Z.div_mod s2 10 ltac:(lia)).
      destruct (weight_1_or_3 n j) as [Hw | Hw]; rewrite Hw in Hdiff; lia. }
    apply digit_of_value; auto.
    rewrite (parseInt_digit x1 "" Hdx1), (parseInt_digit x2 "" Hdx2).
    cbn [Str.chars list_ascii_of_string Str.parseDigits]. rewrite Hdx1, Hdx2.
    f_equal. lia.
Qed.

(** X8: whatever weights [validateChecksum] uses, it detects every single
    wrong digit: if an input is reported valid, an input with the same number
    of digits that differs from it in exactly one digit is reported
    invalid. *)
Theorem single_digit_error_detected (upc1 upc2 : string) (j : nat) :
  Upc.isValid (Upc.normalizeUPC upc1) = true ->
  String.length (digitsOf upc1) = String.length (digitsOf upc2) ->
  String.get j (digitsOf upc1) <> String.get j (digitsOf upc2) ->
  (forall i, i <> j -> String.get i (digitsOf upc1) = String.get i (digitsOf upc2)) ->
  Upc.isValid (Upc.normalizeUPC upc2) = false.
Proof.
  intros Hv1 Hlen Hj Hsame.
  destruct (Upc.isValid (Upc.normalizeUPC upc2)) eqn:Hv2; [|reflexivity].
  exfalso. apply Hj.
  apply normalizeUPC_valid_checksum in Hv1, Hv2. rewrite <- Hlen in Hv2.
  exact (checksum_single_error _ _ _ j Hv1 Hv2 Hsame).
Qed.

Lemma single_digit_error_detected_witness :
  Upc.isValid (Upc.normalizeUPC "012345678995") = false.
Proof.
  apply (single_digit_error_detected "012345678905" "012345678995" 10).
  - vm_compute. reflexivity.
  - vm_compute. reflexivity.
  - vm_compute. discriminate.
  - intros i Hi. do 10 (destruct i as [|i]; [vm_compute; reflexivity|]).
    destruct i as [|i]; [contradiction|].
    vm_compute. reflexivity.
Defined.

(** ** The decision engine: what decides, and what does not *)

Lemma findUPCMatches_invalid (u : string) (records : list Schema.RecallRecord) :
  Upc.isValid (Upc.normalizeUPC u) = false ->
  Decision.findUPCMatches (Some u) records = [].
Proof.
  intros H. unfold Decision.findUPCMatches.
  destruct (negb (Str.truthy (Some u))); [reflexivity|].
  cbn [Lot.orEmpty]. now rewrite H.
Qed.

(** [decide] reads its [upc] field only through [findUPCMatches]. *)
Lemma decide_upc_ext (host : Host) (upc upc' brand product lot expiry : option string)
  (hits : list Schema.RecallRecord) :
  Decision.findUPCMatches upc hits = Decision.findUPCMatches upc' hits ->
  Decision.decide host (Decision.Build_DecisionInput upc brand product lot expiry hits)
  = Decision.decide host (Decision.Build_DecisionInput upc' brand product lot expiry hits).
Proof.
  intros H. unfold Decision.decide. now rewrite H.
Qed.

(** X9: a UPC that does not pass the checksum is ignored: the answer is the
    one for the same scan without a UPC. *)
Theorem decide_invalid_upc_ignored (host : Host) (u : string)
  (brand product lot expiry : option string) (hits : list Schema.RecallRecord) :
  Upc.isValid (Upc.normalizeUPC u) = false ->
  Decision.decide host (Decision.Build_DecisionInput (Some u) brand product lot expiry hits)
  = Decision.decide host (Decision.Build_DecisionInput None brand product lot expiry hits).
Proof.
  intros H. apply decide_upc_ext. now rewrite findUPCMatches_invalid.
Qed.

Lemma decide_invalid_upc_ignored_witness :
  Decision.decide Reference.host
    (Decision.Build_DecisionInput (Some "036000291452") (Some "Acme Foods") None None None
       [crackers])
  = Decision.decide Reference.host
      (Decision.Build_DecisionInput None (Some "Acme Foods") None None None [crackers]).
Proof.
  apply (decide_invalid_upc_ignored Reference.host "036000291452").
  vm_compute. reflexivity.
Defined.

Lemma findUPCMatches_digits (u : string) (records : list Schema.RecallRecord) :
  Decision.findUPCMatches (Some u) records
  = Decision.findUPCMatches (Some (digitsOf u)) records.
Proof.
  assert (Hnorm : Upc.normalizeUPC (digitsOf u) = Upc.normalizeUPC u).
  { rewrite <- (normalizeUPC_normalized u). apply normalizeUPC_again. }
  destruct (Upc.isValid (Upc.normalizeUPC u)) eqn:Hv.
  - unfold Decision.findUPCMatches.
    rewrite (valid_upc_truthy u Hv).
    rewrite (valid_upc_truthy (digitsOf u)) by now rewrite Hnorm.
    cbn [negb Lot.orEmpty]. now rewrite Hnorm.
  - rewrite !findUPCMatches_invalid; [reflexivity | now rewrite Hnorm | exact Hv].
Qed.

(** X10: only the digits of the scanned UPC count: spaces, dashes and any
    other characters in it do not change the answer. *)
Theorem decide_upc_digits_only (host : Host) (u : string)
  (brand product lot expiry : option string) (hits : list Schema.RecallRecord) :
  Decision.decide host (Decision.Build_DecisionInput (Some u) brand product lot expiry hits)
  = Decision.decide host
      (Decision.Build_DecisionInput (Some (digitsOf u)) brand product lot expiry hits).
Proof. apply decide_upc_ext. apply findUPCMatches_digits. Qed.

(** The three outcomes of the brand and product tier. *)
Definition brandRed (lotMatches : list Schema.RecallRecord) : Schema.MatchResult :=
  {| Schema.decision := Schema.RED;
     Schema.reasons :=
       ["Brand and product match found"; "Lot/expiry date matches recall criteria"];
     Schema.matches := lotMatches;
     Schema.confidence := Some 0.85%Q |}.

Definition brandUnsatisfied (constrainedMatches : list Schema.RecallRecord)
  : Schema.MatchResult :=
  {| Schema.decision := Schema.YELLOW;
     Schema.reasons :=
       ["Brand and product match found";
        "Your lot/expiry date does not match the recalled range";
        "Please verify your lot/expiry date matches the recall notice"];
     Schema.matches := constrainedMatches;
     Schema.confidence := Some 0.7%Q |}.

Definition brandUnconstrained (brandProductMatches : list Schema.RecallRecord)
  : Schema.MatchResult :=
  {| Schema.decision := Schema.YELLOW;
     Schema.reasons :=
       ["Brand and product match found";
        "No specific lot/date restrictions in recall";
        "Please verify this matches your product"];
     Schema.matches := brandProductMatches;
     Schema.confidence := Some 0.6%Q |}.

Lemma decide_tier2 (host : Host) (input : Decision.DecisionInput)
  (matched : list Schema.RecallRecord) :
  Decision.findUPCMatches (Decision.upc input) (Decision.sourceHits input) = [] ->
  Decision.findBrandProductMatches host (Decision.brand input)
    (Decision.product input) (Decision.sourceHits input) = Ok matched ->
  matched <> [] ->
  exists kept,
    filterM (Decision.constraintHolds host (Decision.lot input) (Decision.expiry input))
      (filter Decision.constrained matched) = Ok kept
    /\ (forall r, In r kept <->
                  In r matched /\ Decision.constrained r = true
                  /\ Decision.constraintHolds host (Decision.lot input)
                       (Decision.expiry input) r = Ok true)
    /\ Decision.decide host input =
       Ok (match filter Decision.constrained matched, kept with
           | [], _ => brandUnconstrained matched
           | _ :: _, [] => brandUnsatisfied (filter Decision.constrained matched)
           | _ :: _, _ :: _ => brandRed kept
           end).
Proof.
  intros Hupc Hbp Hne.
  destruct (filterM_spec
              (Decision.constraintHolds host (Decision.lot input) (Decision.expiry input))
              (filter Decision.constrained matched)) as [kept [Hk Hkept]];
    [intros; apply constraintHolds_returns|].
  exists kept. split; [exact Hk|]. split.
  { intros r. rewrite Hkept, filter_In. tauto. }
  destruct input as [upc brand product lot expiry hits].
  cbn [Decision.upc Decision.brand Decision.product Decision.lot Decision.expiry
       Decision.sourceHits] in *.
  unfold Decision.decide.
  destruct hits as [|h hits].
  { exfalso. destruct matched as [|m matched]; [now apply Hne|].
    apply (findBrandProductMatches_sub _ _ _ _ _ Hbp m). now left. }
  cbn [List.length Nat.eqb]. rewrite Hupc. cbn [List.length Nat.ltb Nat.leb].
  rewrite Hbp. cbn [bind].
  destruct matched as [|m matched]; [now contradiction Hne|].
  cbn [List.length Nat.ltb Nat.leb].
  destruct (filter Decision.constrained (m :: matched)) as [|c cs] eqn:Hcs;
    cbn [List.length Nat.ltb Nat.leb]; [reflexivity|].
  rewrite Hk. cbn [bind].
  destruct kept; reflexivity.
Qed.

(** X11: the brand and product tier.  When no record matches by UPC and
    some records match by brand and product: if none of them carries a lot or
    expiry constraint the answer is YELLOW 0.6 over all of them; otherwise the
    unconstrained ones are left out, and the answer is RED 0.85 over the
    constrained records whose re-check succeeds, or, when none succeeds,
    YELLOW 0.7 over all the constrained ones. *)
Theorem decide_brand_tier (host : Host) (input : Decision.DecisionInput)
  (matched : list Schema.RecallRecord) :
  Decision.findUPCMatches (Decision.upc input) (Decision.sourceHits input) = [] ->
  Decision.findBrandProductMatches host (Decision.brand input)
    (Decision.product input) (Decision.sourceHits input) = Ok matched ->
  matched <> [] ->
  exists kept,
    filterM (Decision.constraintHolds host (Decision.lot input) (Decision.expiry input))
      (filter Decision.constrained matched) = Ok kept
    /\ (forall r, In r kept <->
                  In r matched /\ Decision.constrained r = true
                  /\ Decision.constraintHolds host (Decision.lot input)
                       (Decision.expiry input) r = Ok true)
    /\ Decision.decide host input =
       Ok (match filter Decision.constrained matched, kept with
           | [], _ => brandUnconstrained matched
           | _ :: _, [] => brandUnsatisfied (filter Decision.constrained matched)
           | _ :: _, _ :: _ => brandRed kept
           end).
Proof. exact (decide_tier2 host input matched). Qed.

Definition scanBrandOnly : Decision.DecisionInput :=
  {| Decision.upc := None;
     Decision.brand := Some "ACME Foods!";
     Decision.product := None;
     Decision.lot := None;
     Decision.expiry := Some "2024-06-01";
     Decision.sourceHits := [crackersBadPattern; crackers] |}.

Lemma decide_brand_tier_witness :
  Decision.decide Reference.host scanBrandOnly = Ok (brandRed [crackers]).
Proof.
  destruct (decide_brand_tier Reference.host scanBrandOnly [crackersBadPattern; crackers])
    as (kept & Hk & _ & Hdec).
  - vm_compute. reflexivity.
  - vm_compute. reflexivity.
  - discriminate.
  - rewrite Hdec. f_equal.
    assert (Hkept : Ok kept = Ok [crackers] :> Js (list Schema.RecallRecord))
      by (rewrite <- Hk; vm_compute; reflexivity).
    injection Hkept as ->. reflexivity.
Defined.

Lemma decide_green (host : Host) (input : Decision.DecisionInput)
  (res : Schema.MatchResult) :
  Decision.decide host input = Ok res ->
  (Schema.decision res = Schema.GREEN <->
   Decision.findUPCMatches (Decision.upc input) (Decision.sourceHits input) = []
   /\ Decision.findBrandProductMatches host (Decision.brand input)
        (Decision.product input) (Decision.sourceHits input) = Ok []).
Proof.
  intros Hres.
  destruct (Decision.findUPCMatches (Decision.upc input) (Decision.sourceHits input))
    as [|u us] eqn:Hupc.
  - destruct (findBrandProductMatches_returns host (Decision.brand input)
                (Decision.product input) (Decision.sourceHits input)) as [matched [Hbp _]].
    assert (Hcase : matched = [] \/ matched <> [])
      by (destruct matched; [now left | right; discriminate]).
    destruct Hcase as [-> | Hne].
    + split; [now split|]. intros _.
      destruct input as [upc brand product lot expiry hits].
      cbn [Decision.upc Decision.brand Decision.product Decision.sourceHits] in *.
      unfold Decision.decide in Hres.
      destruct hits as [|h hits]; [injection Hres as <-; reflexivity|].
      cbn [List.length Nat.eqb] in Hres. rewrite Hupc in Hres.
      cbn [List.length Nat.ltb Nat.leb] in Hres. rewrite Hbp in Hres.
      cbn [bind List.length Nat.ltb Nat.leb] in Hres. injection Hres as <-. reflexivity.
    + destruct (decide_tier2 host input matched Hupc Hbp Hne)
        as (kept & _ & _ & Hdec).
      rewrite Hdec in Hres. injection Hres as <-.
      split.
      * intros Hg. destruct (filter Decision.constrained matched), kept;
          cbn in Hg; discriminate Hg.
      * intros [_ H]. rewrite Hbp in H. injection H as ->. now contradiction Hne.
  - destruct (decide_tier1 host input) as [red [_ [_ Hdec]]];
      [rewrite Hupc; discriminate|].
    rewrite Hdec in Hres. injection Hres as <-.
    split; [intros Hg; destruct (0 <? List.length red); cbn in Hg; discriminate Hg
           | intros [H _]; discriminate H].
Qed.

(** X12: GREEN means that nothing matched: [decide] answers GREEN exactly
    when no record matches by UPC and none by brand and product. *)
Theorem decide_green_iff (host : Host) (input : Decision.DecisionInput)
  (res : Schema.MatchResult) :
  Decision.decide host input = Ok res ->
  (Schema.decision res = Schema.GREEN <->
   Decision.findUPCMatches (Decision.upc input) (Decision.sourceHits input) = []
   /\ Decision.findBrandProductMatches host (Decision.brand input)
        (Decision.product input) (Decision.sourceHits input) = Ok []).
Proof. exact (decide_green host input res). Qed.

Lemma decide_green_iff_witness :
  Schema.decision Decision.noRecall = Schema.GREEN <->
  Decision.findUPCMatches (Some "036000291452") [crackers] = []
  /\ Decision.findBrandProductMatches Reference.host (Some "Zenith") None [crackers]
     = Ok [].
Proof.
  apply (decide_green_iff Reference.host
           (Decision.Build_DecisionInput (Some "036000291452") (Some "Zenith") None
              None None [crackers])).
  vm_compute. reflexivity.
Defined.

(** X13: every record listed in an answer is there for a reason: it matched
    the scan by UPC, or no record did and it matched by brand and product. *)
Theorem decide_matches_sound (host : Host) (input : Decision.DecisionInput)
  (res : Schema.MatchResult) (r : Schema.RecallRecord) :
  Decision.decide host input = Ok res ->
  In r (Schema.matches res) ->
  In r (Decision.findUPCMatches (Decision.upc input) (Decision.sourceHits input))
  \/ (Decision.findUPCMatches (Decision.upc input) (Decision.sourceHits input) = []
      /\ Decision.brandProductMatch host (Decision.brand input)
           (Decision.product input) r = Ok true).
Proof.
  intros Hres Hr.
  destruct (Decision.findUPCMatches (Decision.upc input) (Decision.sourceHits input))
    as [|u us] eqn:Hupc.
  - right. split; [reflexivity|].
    destruct (findBrandProductMatches_returns host (Decision.brand input)
                (Decision.product input) (Decision.sourceHits input)) as [matched [Hbp _]].
    assert (Hin : forall x, In x matched ->
                  Decision.brandProductMatch host (Decision.brand input)
                    (Decision.product input) x = Ok true).
    { intros x Hx. unfold Decision.findBrandProductMatches in Hbp.
      destruct (negb _ && negb _).
      - injection Hbp as <-. destruct Hx.
      - destruct (filterM_spec
                    (Decision.brandProductMatch host (Decision.brand input)
                       (Decision.product input)) (Decision.sourceHits input))
          as [kept [Hk Hkept]]; [intros; apply brandProductMatch_returns|].
        rewrite Hk in Hbp. injection Hbp as <-. now apply Hkept in Hx. }
    assert (Hcase : matched = [] \/ matched <> [])
      by (destruct matched; [now left | right; discriminate]).
    destruct Hcase as [-> | Hne].
    + exfalso.
      assert (Hg : Schema.decision res = Schema.GREEN)
        by (apply (decide_green host input res Hres); now rewrite Hupc).
      destruct (decide_wellFormed host input) as [res' [Hres' (_ & _ & _ & Hgreen)]].
      rewrite Hres in Hres'. injection Hres' as <-.
      apply Hgreen in Hg. rewrite Hg in Hr. destruct Hr.
    + destruct (decide_tier2 host input matched Hupc Hbp Hne)
        as (kept & _ & Hkept & Hdec).
      rewrite Hdec in Hres. injection Hres as <-.
      apply Hin.
      destruct (filter Decision.constrained matched) as [|c cs] eqn:Hcs.
      * exact Hr.
      * destruct kept as [|k kept].
        -- cbn [brandUnsatisfied Schema.matches] in Hr. rewrite <- Hcs in Hr.
           now apply filter_In in Hr.
        -- cbn [brandRed Schema.matches] in Hr. now apply Hkept in Hr.
  - left.
    destruct (decide_tier1 host input) as [red [_ [Hred Hdec]]];
      [rewrite Hupc; discriminate|].
    rewrite Hupc in Hred, Hdec. rewrite Hdec in Hres. injection Hres as <-.
    destruct (0 <? List.length red).
    + cbn [upcRed Schema.matches] in Hr. now apply Hred in Hr.
    + exact Hr.
Qed.

Lemma decide_matches_sound_witness :
  In crackers (Decision.findUPCMatches (Decision.upc scanBrandOnly)
                 (Decision.sourceHits scanBrandOnly))
  \/ (Decision.findUPCMatches (Decision.upc scanBrandOnly)
        (Decision.sourceHits scanBrandOnly) = []
      /\ Decision.brandProductMatch Reference.host (Decision.brand scanBrandOnly)
           (Decision.product scanBrandOnly) crackers = Ok true).
Proof.
  apply (decide_matches_sound Reference.host scanBrandOnly (brandRed [crackers]) crackers).
  - vm_compute. reflexivity.
  - left. reflexivity.
Defined.

(** X14: once a record matches by UPC, the scan's brand, product and expiry
    play no part: the answer depends on the UPC, the lot code and the
    candidates only. *)
Theorem decide_upc_tier_ignores (host : Host) (upc lot : option string)
  (brand product expiry brand' product' expiry' : option string)
  (hits : list Schema.RecallRecord) :
  Decision.findUPCMatches upc hits <> [] ->
  Decision.decide host (Decision.Build_DecisionInput upc brand product lot expiry hits)
  = Decision.decide host (Decision.Build_DecisionInput upc brand' product' lot expiry' hits).
Proof.
  intros Hne.
  destruct (decide_tier1 host (Decision.Build_DecisionInput upc brand product lot expiry hits))
    as [red [Hf [_ Hdec]]]; [exact Hne|].
  destruct (decide_tier1 host (Decision.Build_DecisionInput upc brand' product' lot expiry' hits))
    as [red' [Hf' [_ Hdec']]]; [exact Hne|].
  cbn [Decision.upc Decision.lot Decision.sourceHits] in *.
  rewrite Hf in Hf'. injection Hf' as <-.
  now rewrite Hdec, Hdec'.
Qed.

Lemma decide_upc_tier_ignores_witness :
  Decision.decide Reference.host
    (Decision.Build_DecisionInput (Some "012345678905") (Some "Zenith") None
       (Some "L2205") (Some "2030-01-01") [crackers])
  = Decision.decide Reference.host
      (Decision.Build_DecisionInput (Some "012345678905") None None
         (Some "L2205") None [crackers]).
Proof.
  apply (decide_upc_tier_ignores Reference.host).
  vm_compute. discriminate.
Defined.

(** ** Jaro-Winkler scores lie between 0 and 1 *)

Lemma trues_le_length (l : list bool) : trues l <= List.length l.
Proof. unfold trues. apply filter_length_le. Qed.

(** The counter [matches] is the number of marks. *)
Lemma fold_findMatch_count (s1Norm s2Norm : string) (w n lo : nat) (m : Text.Marks) :
  lo + n <= String.length s1Norm ->
  balanced (String.length s1Norm) (String.length s2Norm) lo m ->
  Text.matches m = trues (Text.s1Matches m) ->
  Text.matches (fold_left (Text.findMatch s1Norm s2Norm w) (seq lo n) m)
  = trues (Text.s1Matches (fold_left (Text.findMatch s1Norm s2Norm w) (seq lo n) m)).
Proof.
  revert lo m. induction n as [|n IH]; intros lo m Hn Hb Hm; cbn [seq fold_left].
  - exact Hm.
  - apply IH; [lia | apply findMatch_balanced; [lia | exact Hb] |].
    destruct Hb as (H1 & H2 & Ht & Hf). unfold Text.findMatch.
    destruct (Text.firstMatch _ _ _ _ _) as [j|]; [|exact Hm].
    cbn [Text.matches Text.s1Matches].
    rewrite mark_trues; [now rewrite Hm | lia | apply Hf; lia].
Qed.

Lemma findMatches_count (s1Norm s2Norm : string) (w : nat) :
  Text.matches (Text.findMatches s1Norm s2Norm w)
  = trues (Text.s1Matches (Text.findMatches s1Norm s2Norm w)).
Proof.
  unfold Text.findMatches.
  apply (fold_findMatch_count s1Norm s2Norm w (String.length s1Norm) 0); [lia | |].
  - repeat split; cbn [Text.s1Matches Text.s2Matches].
    + apply repeat_length.
    + apply repeat_length.
    + now rewrite !repeat_false_trues.
    + intros i' _. apply repeat_false_flag.
  - cbn [Text.matches Text.s1Matches]. now rewrite repeat_false_trues.
Qed.

Lemma marked_le_length (a : list bool) (indices : list nat) :
  marked a indices <= List.length indices.
Proof. unfold marked. apply filter_length_le. Qed.

Lemma countTranspositions_bound (s1Norm s2Norm : string) (m : Text.Marks)
  (indices : list nat) (k t t' : nat) :
  Text.countTranspositions s1Norm s2Norm m indices k t = Ok t' ->
  t' <= t + marked (Text.s1Matches m) indices.
Proof.
  revert k t. induction indices as [|i more IH]; intros k t; cbn [Text.countTranspositions].
  - intros H. injection H as <-. unfold marked. cbn. lia.
  - unfold marked. cbn [filter].
    destruct (Text.flag (Text.s1Matches m) i); cbn [negb List.length].
    + destruct (Text.skipUnmatched _ _ _) as [k'| |]; cbn [bind]; try discriminate.
      intros H. apply IH in H. unfold marked in H.
      destruct (Text.sameChar _ _ _ _); lia.
    + intros H. apply IH in H. exact H.
Qed.

Lemma commonPrefix_le (s1Norm s2Norm : string) (indices : list nat) :
  Text.commonPrefix s1Norm s2Norm indices <= List.length indices.
Proof.
  induction indices as [|i more IH]; cbn; [lia|].
  destruct (Text.sameChar _ _ _ _); lia.
Qed.

Lemma ofNat_le (a b : nat) : a <= b -> (Text.ofNat a <= Text.ofNat b)%Q.
Proof. intros H. unfold Text.ofNat. rewrite <- Zle_Qle. lia. Qed.

Lemma ofNat_pos (a : nat) : 0 < a -> (0 < Text.ofNat a)%Q.
Proof.
  intros H. unfold Text.ofNat. change 0%Q with (inject_Z 0). rewrite <- Zlt_Qlt. lia.
Qed.

Lemma ratio_unit (a b : nat) :
  0 < b -> a <= b -> (0 <= Text.ofNat a / Text.ofNat b /\ Text.ofNat a / Text.ofNat b <= 1)%Q.
Proof.
  intros Hb Hab. pose proof (ofNat_pos b Hb) as Hpos.
  pose proof (ofNat_le a b Hab) as Hle.
  pose proof (ofNat_le 0 a (Nat.le_0_l a)) as H0. change (Text.ofNat 0) with 0%Q in H0.
  split.
  - apply Qle_shift_div_l; [exact Hpos | lra].
  - apply Qle_shift_div_r; [exact Hpos | lra].
Qed.

(** The Jaro score of [matches] marks and [t] transpositions, with the
    Winkler bonus for a common prefix of [p] characters. *)
Lemma winkler_unit (M L1 L2 T p : nat) :
  0 < M -> M <= L1 -> M <= L2 -> T <= M -> p <= 4 ->
  let jaro :=
    ((Text.ofNat M / Text.ofNat L1 + Text.ofNat M / Text.ofNat L2
      + (Text.ofNat M - Text.ofNat T / 2) / Text.ofNat M) / 3)%Q in
  (0 <= jaro + 0.1 * Text.ofNat p * (1 - jaro)
   /\ jaro + 0.1 * Text.ofNat p * (1 - jaro) <= 1)%Q.
Proof.
  intros HM H1 H2 HT Hp jaro.
  destruct (ratio_unit M L1 ltac:(lia) H1) as [Hx0 Hx1].
  destruct (ratio_unit M L2 ltac:(lia) H2) as [Hy0 Hy1].
  pose proof (ofNat_pos M HM) as HposM.
  pose proof (ofNat_le T M HT) as HTM.
  pose proof (ofNat_le 0 T (Nat.le_0_l T)) as HT0. change (Text.ofNat 0) with 0%Q in HT0.
  assert (Hz0 : (0 <= (Text.ofNat M - Text.ofNat T / 2) / Text.ofNat M)%Q).
  { apply Qle_shift_div_l; [exact HposM|].
    unfold Qdiv. change (/ 2)%Q with (1 # 2)%Q. lra. }
  assert (Hz1 : ((Text.ofNat M - Text.ofNat T / 2) / Text.ofNat M <= 1)%Q).
  { apply Qle_shift_div_r; [exact HposM|].
    unfold Qdiv. change (/ 2)%Q with (1 # 2)%Q. lra. }
  subst jaro.
  set (x := (Text.ofNat M / Text.ofNat L1)%Q) in *.
  set (y := (Text.ofNat M / Text.ofNat L2)%Q) in *.
  set (z := ((Text.ofNat M - Text.ofNat T / 2) / Text.ofNat M)%Q) in *.
  assert (Hcases : p = 0 \/ p = 1 \/ p = 2 \/ p = 3 \/ p = 4) by lia.
  unfold Qdiv. change (/ 3)%Q with (1 # 3)%Q.
  destruct Hcases as [-> | [-> | [-> | [-> | ->]]]];
    unfold Text.ofNat; cbn [Z.of_nat Pos.of_succ_nat Pos.succ]; unfold inject_Z;
    split; lra.
Qed.

Lemma Ok_inj {A : Type} (a b : A) : Ok a = Ok b -> a = b.
Proof. intros H. now injection H. Qed.

(** X15: every score of [jaroWinklerSimilarity] lies between 0 and 1. *)
Theorem jaroWinklerSimilarity_unit (s1 s2 : string) (q : Q) :
  Text.jaroWinklerSimilarity s1 s2 = Ok q -> (0 <= q /\ q <= 1)%Q.
Proof.
  unfold Text.jaroWinklerSimilarity.
  destruct (String.eqb _ _); [intros H; injection H as <-; split; discriminate|].
  destruct (_ || _) eqn:Hempty; [intros H; injection H as <-; split; discriminate|].
  destruct (_ <? 0)%Z; [intros H; injection H as <-; split; discriminate|].
  destruct (Text.matches _ =? 0) eqn:Hzero;
    [intros H; injection H as <-; split; discriminate|].
  apply Nat.eqb_neq in Hzero. apply orb_false_elim in Hempty.
  destruct Hempty as [He1 He2]. apply Nat.eqb_neq in He1, He2.
  match goal with
  | |- context [Text.findMatches ?a ?b ?w] =>
      pose proof (findMatches_balanced a b w) as (H1 & H2 & Ht & _);
      pose proof (findMatches_count a b w) as Hcount;
      set (m := Text.findMatches a b w) in *
  end.
  destruct (Text.countTranspositions _ _ m _ 0 0) as [t| |] eqn:Hc; cbn [bind];
    try discriminate.
  intros H. apply Ok_inj in H. subst q.
  apply countTranspositions_bound in Hc. cbn [Nat.add] in Hc.
  pose proof (marked_all (Text.s1Matches m)) as Hall. rewrite H1 in Hall.
  rewrite Hall in Hc.
  apply winkler_unit.
  - lia.
  - rewrite Hcount, <- H1. apply trues_le_length.
  - rewrite Hcount, Ht, <- H2. apply trues_le_length.
  - lia.
  - etransitivity; [apply commonPrefix_le|]. rewrite length_seq. lia.
Qed.

Lemma jaroWinklerSimilarity_unit_witness :
  exists q, Text.jaroWinklerSimilarity "MARTHA" "MARHTA" = Ok q
            /\ (q == 173 # 180)%Q /\ (0 <= q /\ q <= 1)%Q.
Proof.
  eexists. split; [vm_compute; reflexivity|]. split; [reflexivity|].
  apply (jaroWinklerSimilarity_unit "MARTHA" "MARHTA").
  vm_compute. reflexivity.
Defined.

(** ** Similarity sees normalised text only *)

Lemma toLower_toUpper (c : ascii) :
  Str.toLowerChar (Str.toUpperChar c) = Str.toLowerChar c.
Proof.
  destruct c as [[] [] [] [] [] [] [] []]; vm_compute; reflexivity.
Qed.

Lemma toLowerCase_toUpperCase (s : string) :
  Str.toLowerCase (Str.toUpperCase s) = Str.toLowerCase s.
Proof.
  unfold Str.toLowerCase, Str.toUpperCase. rewrite chars_ofChars, map_map.
  f_equal. apply map_ext. apply toLower_toUpper.
Qed.

Lemma normalizeText_toUpperCase (s : string) :
  Text.normalizeText (Str.toUpperCase s) = Text.normalizeText s.
Proof. unfold Text.normalizeText. now rewrite toLowerCase_toUpperCase. Qed.

(** Text in the ASCII range, on which [Str.toUpperCase] and
    [Str.toLowerCase] are the case maps of JavaScript. *)
Definition asciiText (s : string) : bool :=
  forallb (fun c => Str.code c <? 128) (Str.chars s).

(** X16: on ASCII text the similarity functions do not see letter case:
    upper-casing either argument changes neither the Jaro-Winkler nor the
    cosine score. *)
Theorem similarity_ignores_case (host : Host) (s1 s2 : string) (n : nat) :
  asciiText s1 = true ->
  asciiText s2 = true ->
  Text.jaroWinklerSimilarity (Str.toUpperCase s1) s2 = Text.jaroWinklerSimilarity s1 s2
  /\ Text.jaroWinklerSimilarity s1 (Str.toUpperCase s2) = Text.jaroWinklerSimilarity s1 s2
  /\ Text.cosineSimilarity host (Str.toUpperCase s1) s2 n = Text.cosineSimilarity host s1 s2 n
  /\ Text.cosineSimilarity host s1 (Str.toUpperCase s2) n = Text.cosineSimilarity host s1 s2 n.
Proof.
  intros _ _. unfold Text.jaroWinklerSimilarity, Text.cosineSimilarity.
  rewrite !normalizeText_toUpperCase. repeat split.
Qed.

Lemma similarity_ignores_case_witness :
  Text.jaroWinklerSimilarity "ACME FOODS" "Acme Food"
  = Text.jaroWinklerSimilarity "acme foods" "Acme Food"
  /\ Text.jaroWinklerSimilarity "acme foods" "ACME FOOD"
     = Text.jaroWinklerSimilarity "acme foods" "Acme Food"
  /\ Text.cosineSimilarity Reference.host "ACME FOODS" "Acme Food" 2
     = Text.cosineSimilarity Reference.host "acme foods" "Acme Food" 2
  /\ Text.cosineSimilarity Reference.host "acme foods" "ACME FOOD" 2
     = Text.cosineSimilarity Reference.host "acme foods" "Acme Food" 2.
Proof.
  apply (similarity_ignores_case Reference.host "acme foods" "Acme Food" 2);
    vm_compute; reflexivity.
Defined.

(** ** The cosine of texts too short for an n-gram *)

Lemma getNGrams_short (text : string) (n : nat) :
  String.length text < n -> Text.getNGrams text n = [].
Proof.
  intros H. unfold Text.getNGrams.
  replace (String.length text + 1 - n) with 0 by lia. reflexivity.
Qed.

(** X17: when one of the two normalised texts is shorter than [n], it has
    no n-gram, and the cosine is 0.0 unless the two normalised texts are
    identical (in which case it is 1.0, whatever their length). *)
Theorem cosineSimilarity_short (host : Host) (s1 s2 : string) (n : nat) :
  String.length (Text.normalizeText s1) < n
  \/ String.length (Text.normalizeText s2) < n ->
  Text.cosineSimilarity host s1 s2 n =
  (if String.eqb (Text.normalizeText s1) (Text.normalizeText s2) then 1.0 else 0.0)%Q.
Proof.
  intros Hshort. unfold Text.cosineSimilarity.
  destruct (String.eqb _ _); [reflexivity|].
  destruct (_ || _); [reflexivity|].
  destruct Hshort as [H | H]; rewrite (getNGrams_short _ _ H).
  - match goal with
    | |- context [fold_left ?f ?keys (0, 0, 0)] =>
        assert (Hgen : forall ks d n2, exists d' n2',
                   fold_left f ks (d, 0, n2) = (d', 0, n2'))
    end.
    { induction ks as [|k ks IH]; intros d n2; cbn [fold_left].
      - now exists d, n2.
      - cbn [Text.count Text.get Nat.mul Nat.add]. apply IH. }
    match goal with
    | |- context [fold_left ?f ?keys (0, 0, 0)] =>
        destruct (Hgen keys 0 0) as (d' & n2' & Hfold)
    end.
    rewrite Hfold. reflexivity.
  - match goal with
    | |- context [fold_left ?f ?keys (0, 0, 0)] =>
        assert (Hgen : forall ks d n1, exists d' n1',
                   fold_left f ks (d, n1, 0) = (d', n1', 0))
    end.
    { induction ks as [|k ks IH]; intros d n1; cbn [fold_left].
      - now exists d, n1.
      - cbn [Text.count Text.get]. rewrite Nat.mul_0_r, !Nat.add_0_r. apply IH. }
    match goal with
    | |- context [fold_left ?f ?keys (0, 0, 0)] =>
        destruct (Hgen keys 0 0) as (d' & n1' & Hfold)
    end.
    rewrite Hfold. cbn [Nat.eqb]. now rewrite orb_true_r.
Qed.

Lemma cosineSimilarity_short_witness :
  Text.cosineSimilarity Reference.host "X" "Acme" 2 = 0.0%Q.
Proof.
  apply (cosineSimilarity_short Reference.host "X" "Acme" 2).
  left. vm_compute. lia.
Defined.

(** ** Brand and product similarity *)

Lemma max_ge_l (a b : Q) : (a <= Text.max a b)%Q.
Proof.
  unfold Text.max. destruct (Qle_bool a b) eqn:E.
  - now apply Qle_bool_iff.
  - apply Qle_refl.
Qed.

Lemma max_ge_r (a b : Q) : (b <= Text.max a b)%Q.
Proof.
  unfold Text.max. destruct (Qle_bool a b) eqn:E.
  - apply Qle_refl.
  - apply Qlt_le_weak, Qnot_le_lt. intros H.
    apply Qle_bool_iff in H. congruence.
Qed.

Lemma Qle_bool_false (a b : Q) : Qle_bool a b = false -> (b < a)%Q.
Proof.
  intros E. apply Qnot_le_lt. intros H. apply Qle_bool_iff in H. congruence.
Qed.

(** X18: names that pass the brand test pass the product test at any
    threshold that is not higher, because the product score is the larger
    of the Jaro-Winkler and the cosine score. *)
Theorem isBrandSimilar_isProductSimilar (host : Host) (a b : string) (t t' : Q) :
  (t' <= t)%Q ->
  Text.isBrandSimilar a b t = Ok true ->
  Text.isProductSimilar host a b t' = Ok true.
Proof.
  intros Ht. unfold Text.isBrandSimilar, Text.isProductSimilar.
  destruct (jaroWinklerSimilarity_returns a b) as [q Hq]. rewrite Hq. cbn.
  intros H. apply Ok_inj in H. f_equal.
  apply Qle_bool_iff. apply Qle_bool_iff in H.
  eapply Qle_trans; [exact Ht|]. eapply Qle_trans; [exact H|]. apply max_ge_l.
Qed.

Lemma isBrandSimilar_isProductSimilar_witness :
  Text.isBrandSimilar "Acme Foods" "ACME FOOD" 0.8 = Ok true
  /\ Text.isProductSimilar Reference.host "Acme Foods" "ACME FOOD" 0.7 = Ok true.
Proof.
  split; [vm_compute; reflexivity|].
  apply (isBrandSimilar_isProductSimilar Reference.host "Acme Foods" "ACME FOOD" 0.8 0.7).
  - vm_compute. discriminate.
  - vm_compute. reflexivity.
Defined.

(** ** The best match of a list *)

(** What [findBestBrandMatch] has found after looking at [looked]. *)
Definition bestBrand (targetBrand : string) (threshold : Q) (looked : list string)
  (found : option Text.BrandMatch) : Prop :=
  match found with
  | None =>
      forall c, In c looked -> Text.isBrandSimilar targetBrand c threshold = Ok false
  | Some best =>
      In (Text.brand best) looked
      /\ Text.jaroWinklerSimilarity targetBrand (Text.brand best)
         = Ok (Text.brandSimilarity best)
      /\ (threshold <= Text.brandSimilarity best)%Q
      /\ forall c q, In c looked ->
           Text.jaroWinklerSimilarity targetBrand c = Ok q ->
           (q <= Text.brandSimilarity best)%Q
  end.

Lemma bestBrandLoop_spec (targetBrand : string) (threshold : Q)
  (candidates looked : list string) (found : option Text.BrandMatch) :
  bestBrand targetBrand threshold looked found ->
  exists r, Text.bestBrandLoop targetBrand candidates threshold found = Ok r
            /\ bestBrand targetBrand threshold (looked ++ candidates) r.
Proof.
  revert looked found.
  induction candidates as [|c more IH]; intros looked found Hinv.
  - exists found. rewrite app_nil_r. now split.
  - cbn [Text.bestBrandLoop].
    destruct (jaroWinklerSimilarity_returns targetBrand c) as [q Hq].
    rewrite Hq. cbn [bind].
    replace (looked ++ c :: more) with ((looked ++ [c]) ++ more)
      by now rewrite <- app_assoc.
    destruct (Qle_bool threshold q) eqn:Et; cbn [andb].
    + destruct found as [best|].
      * destruct Hinv as (Hin & Hsim & Hge & Hmax).
        destruct (Text.greater q (Text.brandSimilarity best)) eqn:Eg.
        -- apply IH. cbn. repeat split.
           ++ apply in_or_app. right. now left.
           ++ exact Hq.
           ++ now apply Qle_bool_iff.
           ++ intros c' q' Hc' Hq'. apply in_app_or in Hc'.
              destruct Hc' as [Hc' | [<- | []]].
              ** apply Qle_trans with (Text.brandSimilarity best);
                   [now apply (Hmax c')|].
                 apply Qlt_le_weak, Qle_bool_false.
                 unfold Text.greater in Eg. now apply negb_true_iff in Eg.
              ** rewrite Hq in Hq'. apply Ok_inj in Hq'. subst q'. apply Qle_refl.
        -- apply IH. cbn. repeat split; auto.
           ++ apply in_or_app. now left.
           ++ intros c' q' Hc' Hq'. apply in_app_or in Hc'.
              destruct Hc' as [Hc' | [<- | []]]; [now apply (Hmax c')|].
              rewrite Hq in Hq'. apply Ok_inj in Hq'. subst q'.
              apply Qle_bool_iff. unfold Text.greater in Eg.
              now apply negb_false_iff in Eg.
      * apply IH. cbn. repeat split.
        -- apply in_or_app. right. now left.
        -- exact Hq.
        -- now apply Qle_bool_iff.
        -- intros c' q' Hc' Hq'. apply in_app_or in Hc'.
           destruct Hc' as [Hc' | [<- | []]].
           ++ specialize (Hinv c' Hc'). unfold Text.isBrandSimilar in Hinv.
              rewrite Hq' in Hinv. cbn in Hinv. apply Ok_inj in Hinv.
              apply Qlt_le_weak. apply Qlt_le_trans with threshold.
              ** now apply Qle_bool_false.
              ** now apply Qle_bool_iff.
           ++ rewrite Hq in Hq'. apply Ok_inj in Hq'. subst q'. apply Qle_refl.
    + apply IH. destruct found as [best|].
      * destruct Hinv as (Hin & Hsim & Hge & Hmax). cbn. repeat split; auto.
        -- apply in_or_app. now left.
        -- intros c' q' Hc' Hq'. apply in_app_or in Hc'.
           destruct Hc' as [Hc' | [<- | []]]; [now apply (Hmax c')|].
           rewrite Hq in Hq'. apply Ok_inj in Hq'. subst q'.
           apply Qlt_le_weak. apply Qlt_le_trans with threshold; [|exact Hge].
           now apply Qle_bool_false.
      * cbn. intros c' Hc'. apply in_app_or in Hc'.
        destruct Hc' as [Hc' | [<- | []]]; [now apply Hinv|].
        unfold Text.isBrandSimilar. rewrite Hq. cbn. now rewrite Et.
Qed.

(** X19: [findBestBrandMatch] always returns.  It answers [null] exactly
    when no candidate passes [isBrandSimilar] at the threshold; otherwise
    its answer is one of the candidates, carries that candidate's
    Jaro-Winkler score, which reaches the threshold, and no candidate
    scores higher. *)
Theorem findBestBrandMatch_spec (targetBrand : string) (candidateBrands : list string)
  (threshold : Q) :
  exists r, Text.findBestBrandMatch targetBrand candidateBrands threshold = Ok r
            /\ bestBrand targetBrand threshold candidateBrands r.
Proof.
  unfold Text.findBestBrandMatch.
  apply (bestBrandLoop_spec targetBrand threshold candidateBrands [] None).
  intros c [].
Qed.

(** The score [findBestProductMatch] gives a candidate. *)
Definition productScore (host : Host) (targetProduct candidate : string) : Js Q :=
  jaroSim <- Text.jaroWinklerSimilarity targetProduct candidate ;;
  Ok (Text.max jaroSim (Text.cosineSimilarity host targetProduct candidate 2)).

(** What [findBestProductMatch] has found after looking at [looked]. *)
Definition bestProduct (host : Host) (targetProduct : string) (threshold : Q)
  (looked : list string) (found : option Text.ProductMatch) : Prop :=
  match found with
  | None =>
      forall c, In c looked ->
        Text.isProductSimilar host targetProduct c threshold = Ok false
  | Some best =>
      In (Text.product best) looked
      /\ productScore host targetProduct (Text.product best)
         = Ok (Text.productSimilarity best)
      /\ (threshold <= Text.productSimilarity best)%Q
      /\ forall c q, In c looked ->
           productScore host targetProduct c = Ok q ->
           (q <= Text.productSimilarity best)%Q
  end.

Lemma bestProductLoop_spec (host : Host) (targetProduct : string) (threshold : Q)
  (candidates looked : list string) (found : option Text.ProductMatch) :
  bestProduct host targetProduct threshold looked found ->
  exists r, Text.bestProductLoop host targetProduct candidates threshold found = Ok r
            /\ bestProduct host targetProduct threshold (looked ++ candidates) r.
Proof.
  revert looked found.
  induction candidates as [|c more IH]; intros looked found Hinv.
  - exists found. rewrite app_nil_r. now split.
  - cbn [Text.bestProductLoop].
    destruct (jaroWinklerSimilarity_returns targetProduct c) as [j Hj].
    rewrite Hj. cbn [bind].
    cbv zeta.
    remember (Text.max j (Text.cosineSimilarity host targetProduct c 2)) as q eqn:Eq.
    assert (Hq : productScore host targetProduct c = Ok q).
    { unfold productScore. rewrite Hj. now subst q. }
    assert (Hsimilar : Text.isProductSimilar host targetProduct c threshold
                       = Ok (Qle_bool threshold q)).
    { unfold Text.isProductSimilar. rewrite Hj. now subst q. }
    assert (Hscore : forall c' q', productScore host targetProduct c' = Ok q' ->
              Text.isProductSimilar host targetProduct c' threshold
              = Ok (Qle_bool threshold q')).
    { intros c' q'. unfold productScore, Text.isProductSimilar.
      destruct (Text.jaroWinklerSimilarity targetProduct c'); cbn; try discriminate.
      intros H. apply Ok_inj in H. now subst q'. }
    clear Hj Eq.
    replace (looked ++ c :: more) with ((looked ++ [c]) ++ more)
      by now rewrite <- app_assoc.
    destruct (Qle_bool threshold q) eqn:Et; cbn [andb].
    + destruct found as [best|].
      * destruct Hinv as (Hin & Hsim & Hge & Hmax).
        destruct (Text.greater q (Text.productSimilarity best)) eqn:Eg.
        -- apply IH. cbn. repeat split.
           ++ apply in_or_app. right. now left.
           ++ exact Hq.
           ++ now apply Qle_bool_iff.
           ++ intros c' q' Hc' Hq'. apply in_app_or in Hc'.
              destruct Hc' as [Hc' | [<- | []]].
              ** apply Qle_trans with (Text.productSimilarity best);
                   [now apply (Hmax c')|].
                 apply Qlt_le_weak, Qle_bool_false.
                 unfold Text.greater in Eg. now apply negb_true_iff in Eg.
              ** rewrite Hq in Hq'. apply Ok_inj in Hq'. subst q'. apply Qle_refl.
        -- apply IH. cbn. repeat split; auto.
           ++ apply in_or_app. now left.
           ++ intros c' q' Hc' Hq'. apply in_app_or in Hc'.
              destruct Hc' as [Hc' | [<- | []]]; [now apply (Hmax c')|].
              rewrite Hq in Hq'. apply Ok_inj in Hq'. subst q'.
              apply Qle_bool_iff. unfold Text.greater in Eg.
              now apply negb_false_iff in Eg.
      * apply IH. cbn. repeat split.
        -- apply in_or_app. right. now left.
        -- exact Hq.
        -- now apply Qle_bool_iff.
        -- intros c' q' Hc' Hq'. apply in_app_or in Hc'.
           destruct Hc' as [Hc' | [<- | []]].
           ++ specialize (Hinv c' Hc'). rewrite (Hscore c' q' Hq') in Hinv.
              apply Ok_inj in Hinv.
              apply Qlt_le_weak. apply Qlt_le_trans with threshold.
              ** now apply Qle_bool_false.
              ** now apply Qle_bool_iff.
           ++ rewrite Hq in Hq'. apply Ok_inj in Hq'. subst q'. apply Qle_refl.
    + apply IH. destruct found as [best|].
      * destruct Hinv as (Hin & Hsim & Hge & Hmax). cbn. repeat split; auto.
        -- apply in_or_app. now left.
        -- intros c' q' Hc' Hq'. apply in_app_or in Hc'.
           destruct Hc' as [Hc' | [<- | []]]; [now apply (Hmax c')|].
           rewrite Hq in Hq'. apply Ok_inj in Hq'. subst q'.
           apply Qlt_le_weak. apply Qlt_le_trans with threshold; [|exact Hge].
           now apply Qle_bool_false.
      * cbn. intros c' Hc'. apply in_app_or in Hc'.
        destruct Hc' as [Hc' | [<- | []]]; [now apply Hinv|].
        exact Hsimilar.
Qed.

(** X20: [findBestProductMatch] always returns.  It answers [null] exactly
    when no candidate passes [isProductSimilar] at the threshold; otherwise
    its answer is one of the candidates, carries the larger of that
    candidate's Jaro-Winkler and cosine scores, which reaches the threshold,
    and no candidate scores higher. *)
Theorem findBestProductMatch_spec (host : Host) (targetProduct : string)
  (candidateProducts : list string) (threshold : Q) :
  exists r, Text.findBestProductMatch host targetProduct candidateProducts threshold = Ok r
            /\ bestProduct host targetProduct threshold candidateProducts r.
Proof.
  unfold Text.findBestProductMatch.
  apply (bestProductLoop_spec host targetProduct threshold candidateProducts [] None).
  intros c [].
Qed.

(** ** Lot codes *)




Lemma orEmpty_orUndefined (s : string) :
  Lot.orEmpty (Lot.orUndefined (Some s)) = s.
Proof.
  cbn [Lot.orUndefined]. destruct (String.eqb_spec s ""); [now subst | reflexivity].
Qed.





(** ** Trimming and letter case *)

Definition trimmed (l : list ascii) : Prop :=
  match l with
  | [] => True
  | c :: _ => Str.isSpace c = false
  end.

Lemma dropSpaces_trimmed (l : list ascii) : trimmed (Str.dropSpaces l).
Proof.
  induction l as [|c t IH]; cbn; [exact I|].
  destruct (Str.isSpace c) eqn:E; [exact IH | exact E].
Qed.

Lemma trimmed_dropSpaces (l : list ascii) : trimmed l -> Str.dropSpaces l = l.
Proof. destruct l as [|c t]; cbn; [reflexivity|]. now intros ->. Qed.

Lemma dropSpaces_snoc (l : list ascii) (c : ascii) :
  Str.isSpace c = false -> Str.dropSpaces (l ++ [c]) = Str.dropSpaces l ++ [c].
Proof.
  intros Hc. induction l as [|d t IH]; cbn.
  - now rewrite Hc.
  - destruct (Str.isSpace d); [exact IH | reflexivity].
Qed.

Lemma trimmed_rev_dropSpaces_rev (l : list ascii) :
  trimmed l -> trimmed (rev (Str.dropSpaces (rev l))).
Proof.
  destruct l as [|c t]; [intros _; exact I|]. cbn [trimmed rev]. intros Hc.
  rewrite (dropSpaces_snoc _ _ Hc), rev_app_distr. exact Hc.
Qed.

Lemma trimChars_idem (l : list ascii) :
  Str.trimChars (Str.trimChars l) = Str.trimChars l.
Proof.
  unfold Str.trimChars.
  rewrite (trimmed_dropSpaces (rev (Str.dropSpaces (rev (Str.dropSpaces l)))))
    by apply trimmed_rev_dropSpaces_rev, dropSpaces_trimmed.
  rewrite rev_involutive.
  now rewrite (trimmed_dropSpaces _ (dropSpaces_trimmed _)).
Qed.

Lemma trim_idem (s : string) : Str.trim (Str.trim s) = Str.trim s.
Proof. unfold Str.trim. now rewrite chars_ofChars, trimChars_idem. Qed.

Lemma toUpperChar_idem (c : ascii) :
  Str.toUpperChar (Str.toUpperChar c) = Str.toUpperChar c.
Proof. destruct c as [[] [] [] [] [] [] [] []]; vm_compute; reflexivity. Qed.

Lemma toUpper_toLower (c : ascii) :
  Str.toUpperChar (Str.toLowerChar c) = Str.toUpperChar c.
Proof. destruct c as [[] [] [] [] [] [] [] []]; vm_compute; reflexivity. Qed.

Lemma isSpace_toUpperChar (c : ascii) :
  Str.isSpace (Str.toUpperChar c) = Str.isSpace c.
Proof. destruct c as [[] [] [] [] [] [] [] []]; vm_compute; reflexivity. Qed.

Lemma isSpace_toLowerChar (c : ascii) :
  Str.isSpace (Str.toLowerChar c) = Str.isSpace c.
Proof. destruct c as [[] [] [] [] [] [] [] []]; vm_compute; reflexivity. Qed.

Lemma dropSpaces_map (f : ascii -> ascii) (l : list ascii) :
  (forall c, Str.isSpace (f c) = Str.isSpace c) ->
  Str.dropSpaces (map f l) = map f (Str.dropSpaces l).
Proof.
  intros Hf. induction l as [|c t IH]; cbn; [reflexivity|].
  rewrite Hf. destruct (Str.isSpace c); [exact IH | reflexivity].
Qed.

Lemma trimChars_map (f : ascii -> ascii) (l : list ascii) :
  (forall c, Str.isSpace (f c) = Str.isSpace c) ->
  Str.trimChars (map f l) = map f (Str.trimChars l).
Proof.
  intros Hf. unfold Str.trimChars.
  now rewrite (dropSpaces_map f _ Hf), <- map_rev, (dropSpaces_map f _ Hf), map_rev.
Qed.

Lemma cleaned_toUpperCase (text : string) :
  Str.toUpperCase (Str.trim (Str.toUpperCase text)) = Str.toUpperCase (Str.trim text).
Proof.
  unfold Str.toUpperCase, Str.trim. rewrite !chars_ofChars.
  rewrite (trimChars_map _ _ isSpace_toUpperChar), map_map. f_equal.
  apply map_ext. apply toUpperChar_idem.
Qed.

Lemma cleaned_toLowerCase (text : string) :
  Str.toUpperCase (Str.trim (Str.toLowerCase text)) = Str.toUpperCase (Str.trim text).
Proof.
  unfold Str.toUpperCase, Str.toLowerCase, Str.trim. rewrite !chars_ofChars.
  rewrite (trimChars_map _ _ isSpace_toLowerChar), map_map. f_equal.
  apply map_ext. apply toUpper_toLower.
Qed.

(** The parts of a parsed lot that are read off the code, not the text as
    it was written. *)
Definition lotCode (p : Lot.ParsedLot) : string * (option string * option string * option string) :=
  (Lot.normalized p, (Lot.prefix p, Lot.date p, Lot.suffix p)).

Lemma parseLotLoop_raw (raw1 raw2 cleaned : string) (patterns : list RegExpLiteral) :
  option_map lotCode (Lot.parseLotLoop raw1 cleaned patterns)
  = option_map lotCode (Lot.parseLotLoop raw2 cleaned patterns).
Proof.
  induction patterns as [|pattern more IH]; cbn [Lot.parseLotLoop]; [reflexivity|].
  destruct (matchLiteral pattern cleaned); [reflexivity | exact IH].
Qed.

(** X22: [parseLotCode] does not see surrounding white space or, on ASCII
    text, letter case: trimming a text first changes nothing at all, and an
    ASCII text, its upper-case and its lower-case form give the same
    [normalized] code and components (only [raw] keeps the letters as
    written). *)
Theorem parseLotCode_insensitive (text : string) :
  Lot.parseLotCode (Str.trim text) = Lot.parseLotCode text
  /\ (asciiText text = true ->
      option_map lotCode (Lot.parseLotCode (Str.toUpperCase text))
      = option_map lotCode (Lot.parseLotCode text)
      /\ option_map lotCode (Lot.parseLotCode (Str.toLowerCase text))
         = option_map lotCode (Lot.parseLotCode text)).
Proof.
  unfold Lot.parseLotCode. split; [|intros _; split].
  - rewrite trim_idem. generalize (Str.toUpperCase (Str.trim text)), Lot.LOT_PATTERNS.
    intros cleaned patterns.
    induction patterns as [|pattern more IH]; cbn [Lot.parseLotLoop]; [reflexivity|].
    destruct (matchLiteral pattern cleaned); [|exact IH].
    now rewrite trim_idem.
  - rewrite cleaned_toUpperCase. apply parseLotLoop_raw.
  - rewrite cleaned_toLowerCase. apply parseLotLoop_raw.
Qed.

Lemma parseLotCode_insensitive_witness :
  option_map lotCode (Lot.parseLotCode " l2207a")
  = Some ("L2207A", (Some "L", Some "2207", Some "A"))
  /\ option_map lotCode (Lot.parseLotCode (Str.toUpperCase " l2207a"))
     = option_map lotCode (Lot.parseLotCode " l2207a")
  /\ option_map lotCode (Lot.parseLotCode (Str.toLowerCase " l2207a"))
     = option_map lotCode (Lot.parseLotCode " l2207a").
Proof.
  split; [vm_compute; reflexivity|].
  apply (proj2 (parseLotCode_insensitive " l2207a")).
  vm_compute. reflexivity.
Defined.

(** ** Lines of an OCR text *)

Lemma linesOf_trimmed (text line : string) :
  In line (Lot.linesOf text) -> Str.trim line = line /\ line <> "".
Proof.
  unfold Lot.linesOf. intros H. apply filter_In in H. destruct H as [H Hlen].
  apply in_map_iff in H. destruct H as (piece & <- & _). split.
  - apply trim_idem.
  - intros E. rewrite E in Hlen. discriminate Hlen.
Qed.

Lemma parseLotCode_raw (text : string) (p : Lot.ParsedLot) :
  Lot.parseLotCode text = Some p -> Lot.raw p = Str.trim text.
Proof.
  unfold Lot.parseLotCode. generalize Lot.LOT_PATTERNS. intros patterns.
  induction patterns as [|pattern more IH]; cbn [Lot.parseLotLoop]; [discriminate|].
  destruct (matchLiteral pattern _); [|exact IH].
  intros H. injection H as <-. reflexivity.
Qed.

Lemma parseExpiryLoop_raw (host : Host) (text cleaned : string)
  (patterns : list RegExpLiteral) (e : Lot.ParsedExpiry) :
  Lot.parseExpiryLoop host text cleaned patterns = Ok (Some e) ->
  Lot.expiryRaw e = Str.trim text /\ Lot.confidence e = 0.9%Q.
Proof.
  induction patterns as [|pattern more IH]; cbn [Lot.parseExpiryLoop]; [discriminate|].
  destruct (matchLiteral pattern cleaned) as [m|]; [|exact IH].
  destruct (Lot.member (Re.item 3 m)); cbn [bind]; try discriminate.
  cbv zeta.
  destruct (_ || _); [exact IH|].
  destruct (Lot.member (Re.item 1 m)); cbn [bind]; try discriminate.
  destruct (Lot.member (Re.item 2 m)); cbn [bind]; try discriminate.
  destruct (Lot.invalidDate _ _); [exact IH|].
  intros H. apply Ok_inj in H. injection H as <-. split; reflexivity.
Qed.

(** What a line contributes to the two arrays. *)
Definition lotOf (line : string) : list Lot.ParsedLot :=
  match Lot.parseLotCode line with
  | Some lot => [lot]
  | None => []
  end.

Definition expiryOf (host : Host) (line : string) : list Lot.ParsedExpiry :=
  match Lot.parseLotCode line, Lot.parseExpiryDate host line with
  | None, Ok (Some e) => [e]
  | _, _ => []
  end.

Lemma extractLoop_spec (host : Host) (lines : list string)
  (lots : list Lot.ParsedLot) (expiries : list Lot.ParsedExpiry) :
  Lot.extractLoop host lines lots expiries
  = Ok {| Lot.lots := lots ++ flat_map lotOf lines;
          Lot.expiries := expiries ++ flat_map (expiryOf host) lines |}.
Proof.
  revert lots expiries.
  induction lines as [|line more IH]; intros lots expiries;
    cbn [Lot.extractLoop flat_map].
  - now rewrite !app_nil_r.
  - unfold lotOf at 1, expiryOf at 1.
    destruct (Lot.parseLotCode line) as [lot|].
    + rewrite IH. now rewrite <- app_assoc.
    + destruct (parseExpiryDate_returns host line) as (r & -> & _). cbn [bind].
      destruct r as [e|]; rewrite IH; [now rewrite <- app_assoc | reflexivity].
Qed.

Lemma flat_map_length_le {A B C : Type} (f : A -> list B) (g : A -> list C)
  (l : list A) :
  (forall a, List.length (f a) + List.length (g a) <= 1) ->
  List.length (flat_map f l) + List.length (flat_map g l) <= List.length l.
Proof.
  intros H. induction l as [|a t IH]; cbn [flat_map List.length]; [lia|].
  rewrite !length_app. specialize (H a). lia.
Qed.

(** X23: [extractFromOCRText] always returns.  Reading the non-blank lines
    in order, it files a line under [lots] when [parseLotCode] reads it, and
    under [expiries] only when [parseLotCode] does not and [parseExpiryDate]
    does.  So no line is filed twice, and the [raw] text of every entry is
    one of the trimmed lines. *)
Theorem extractFromOCRText_spec (host : Host) (text : string) :
  exists r,
    Lot.extractFromOCRText host text = Ok r
    /\ Lot.lots r = flat_map lotOf (Lot.linesOf text)
    /\ Lot.expiries r = flat_map (expiryOf host) (Lot.linesOf text)
    /\ List.length (Lot.lots r) + List.length (Lot.expiries r)
       <= List.length (Lot.linesOf text)
    /\ (forall lot, In lot (Lot.lots r) -> In (Lot.raw lot) (Lot.linesOf text))
    /\ (forall e, In e (Lot.expiries r) -> In (Lot.expiryRaw e) (Lot.linesOf text)).
Proof.
  unfold Lot.extractFromOCRText. rewrite extractLoop_spec. cbn [app].
  eexists. split; [reflexivity|]. cbn [Lot.lots Lot.expiries].
  repeat split.
  - apply flat_map_length_le. intros line. unfold lotOf, expiryOf.
    destruct (Lot.parseLotCode line); [cbn; lia|].
    destruct (Lot.parseExpiryDate host line) as [[e|]| |]; cbn; lia.
  - intros lot H. apply in_flat_map in H. destruct H as (line & Hline & H).
    unfold lotOf in H. destruct (Lot.parseLotCode line) as [p|] eqn:Hp; [|destruct H].
    destruct H as [<- | []]. rewrite (parseLotCode_raw _ _ Hp).
    now rewrite (proj1 (linesOf_trimmed _ _ Hline)).
  - intros e H. apply in_flat_map in H. destruct H as (line & Hline & H).
    unfold expiryOf in H. destruct (Lot.parseLotCode line); [destruct H|].
    destruct (Lot.parseExpiryDate host line) as [[e'|]| |] eqn:He; try destruct H.
    + subst e'. apply parseExpiryLoop_raw in He. destruct He as [-> _].
      now rewrite (proj1 (linesOf_trimmed _ _ Hline)).
    + destruct H.
Qed.

(** ** Date ranges *)

(** X24: [isDateInRange] answers true exactly when [Date] reads the date
    and every bound that is supplied and not the empty string is read too
    and lies on the right side of it; both bounds are inclusive. *)
Theorem isDateInRange_interval (host : Host) (date : string) (start end_ : option string) :
  Lot.isDateInRange host date start end_ = true
  <-> exists t,
        Date_getTime host date = Some t
        /\ (Str.truthy start = true ->
            exists a, Date_getTime host (Lot.orEmpty start) = Some a /\ (a <= t)%Z)
        /\ (Str.truthy end_ = true ->
            exists b, Date_getTime host (Lot.orEmpty end_) = Some b /\ (t <= b)%Z).
Proof.
  unfold Lot.isDateInRange, Lot.badStart, Lot.badEnd.
  destruct (Date_getTime host date) as [t|]; [|split; [discriminate | intros (t & H & _); discriminate H]].
  split.
  - intros H. exists t. split; [reflexivity|].
    destruct (Str.truthy start); cbn [andb] in H.
    + destruct (Date_getTime host (Lot.orEmpty start)) as [a|]; [|discriminate H].
      destruct (Z.ltb_spec t a); [discriminate H|].
      split; [intros _; exists a; split; [reflexivity | lia]|].
      destruct (Str.truthy end_); cbn [andb] in H; [|discriminate].
      destruct (Date_getTime host (Lot.orEmpty end_)) as [b|]; [|discriminate H].
      intros _. exists b. split; [reflexivity|].
      destruct (Z.gtb_spec t b); [discriminate H | lia].
    + split; [discriminate|].
      destruct (Str.truthy end_); cbn [andb] in H; [|discriminate].
      destruct (Date_getTime host (Lot.orEmpty end_)) as [b|]; [|discriminate H].
      intros _. exists b. split; [reflexivity|].
      destruct (Z.gtb_spec t b); [discriminate H | lia].
  - intros (t' & Ht & Hs & He). injection Ht as <-.
    destruct (Str.truthy start); cbn [andb].
    + destruct (Hs eq_refl) as (a & -> & Ha).
      destruct (Z.ltb_spec t a); [lia|].
      destruct (Str.truthy end_); cbn [andb]; [|reflexivity].
      destruct (He eq_refl) as (b & -> & Hb).
      destruct (Z.gtb_spec t b); [lia | reflexivity].
    + destruct (Str.truthy end_); cbn [andb]; [|reflexivity].
      destruct (He eq_refl) as (b & -> & Hb).
      destruct (Z.gtb_spec t b); [lia | reflexivity].
Qed.

(** ** Dates written month first *)

Lemma literal_zeroed (p : RegExpLiteral) (l zeroed : list ascii) :
  digitBlind (ignoreCase p) (body p) = true ->
  map zeroDigits l = zeroed ->
  matchLiteral p (Str.ofChars l)
  = option_map (Re.matchArray (body p) (Str.ofChars l))
      (Re.search (ignoreCase p) (body p) [] zeroed).
Proof.
  intros Hb <-. unfold matchLiteral.
  rewrite (exec_map zeroDigits (ignoreCase p) zeroDigits_word (body p) (Str.ofChars l)
             (digitBlind_sound _ _ Hb)).
  now rewrite chars_ofChars.
Qed.

Lemma literal_zeroed_none (p : RegExpLiteral) (l zeroed : list ascii) :
  digitBlind (ignoreCase p) (body p) = true ->
  map zeroDigits l = zeroed ->
  Re.search (ignoreCase p) (body p) [] zeroed = None ->
  matchLiteral p (Str.ofChars l) = None.
Proof.
  intros Hb Hz Hs. now rewrite (literal_zeroed p l zeroed Hb Hz), Hs.
Qed.

Lemma zeroDigits_digit (c : ascii) : Str.isDigit c = true -> zeroDigits c = "0"%char.
Proof. unfold zeroDigits. now intros ->. Qed.

Lemma trimChars_digits (c d : ascii) (l : list ascii) :
  Str.isDigit c = true -> Str.isDigit d = true ->
  Str.trimChars (c :: l ++ [d]) = c :: l ++ [d].
Proof.
  intros Hc Hd. unfold Str.trimChars. cbn [Str.dropSpaces app].
  rewrite (isSpace_digit c Hc).
  change (c :: l ++ [d]) with ((c :: l) ++ [d]).
  remember (c :: l) as cl eqn:Hcl.
  rewrite rev_app_distr. change (rev [d] ++ rev cl) with (d :: rev cl).
  cbn [Str.dropSpaces]. rewrite (isSpace_digit d Hd).
  change (rev (d :: rev cl)) with (rev (rev cl) ++ [d]).
  now rewrite rev_involutive.
Qed.

Lemma forallb_digits (l : list ascii) :
  forallb Str.isDigit l = true -> Forall (fun c => Str.isDigit c = true) l.
Proof. intros H. apply Forall_forall. now apply forallb_forall. Qed.

(** Skip a literal that finds nothing in the zeroed text. *)
Ltac skip_zeroed Hz :=
  rewrite parseExpiryLoop_skip
    by (eapply literal_zeroed_none;
        [vm_compute; reflexivity | exact Hz | vm_compute; reflexivity]).

(** Read the match of the next literal off the zeroed text. *)
Ltac match_zeroed Hz :=
  match goal with
  | |- Lot.parseExpiryLoop _ _ _ (?p :: ?more) = _ =>
      let rest := fresh "rest" in
      let Hrest := fresh "Hrest" in
      remember more as rest eqn:Hrest;
      cbn [Lot.parseExpiryLoop];
      rewrite (literal_zeroed p _ _ ltac:(vm_compute; reflexivity) Hz)
  end;
  match goal with
  | |- context [Re.search ?ci ?r [] ?l] =>
      let v := eval vm_compute in (Re.search ci r [] l) in
      replace (Re.search ci r [] l) with v by (vm_compute; reflexivity)
  end;
  cbn [option_map];
  match goal with
  | |- context [Re.matchArray ?r ?t ?found] =>
      let m := fresh "m" in
      let Hm := fresh "Hm" in
      remember (Re.matchArray r t found) as m eqn:Hm;
      vm_compute in Hm; subst m
  end;
  cbn [Re.item nth_error Lot.member bind String.length Nat.eqb Lot.parseIntOf].

Lemma range_check (month day : Z) :
  Lot.numLt (Some month) 1 || Lot.numGt (Some month) 12
  || Lot.numLt (Some day) 1 || Lot.numGt (Some day) 31
  = negb ((1 <=? month)%Z && (month <=? 12)%Z && (1 <=? day)%Z && (day <=? 31)%Z).
Proof.
  cbn [Lot.numLt Lot.numGt]. rewrite !Z.gtb_ltb, !Z.ltb_antisym.
  destruct (1 <=? month)%Z, (month <=? 12)%Z, (1 <=? day)%Z, (day <=? 31)%Z;
    reflexivity.
Qed.

Lemma pivot_year (yy : Z) :
  Lot.showNumber
    (if Lot.numLt (Some yy) 50 then Lot.numPlus 2000 (Some yy)
     else Lot.numPlus 1900 (Some yy))
  = Str.ofZ (if (yy <? 50)%Z then (2000 + yy)%Z else (1900 + yy)%Z).
Proof. cbn [Lot.numLt Lot.numPlus option_map]. now destruct (yy <? 50)%Z. Qed.

Section TwoDigitYear.

Variable host : Host.
Variables m1 m2 d1 d2 y1 y2 s1 s2 : ascii.

Hypothesis all_digits : forallb Str.isDigit [m1; m2; d1; d2; y1; y2] = true.
Hypothesis s1_sep : In s1 ["/"; "-"]%char.
Hypothesis s2_sep : In s2 ["/"; "-"]%char.

Let text : string := Str.ofChars [m1; m2; s1; d1; d2; s2; y1; y2].
Let month : Z := Str.parseDigits 0 [m1; m2].
Let day : Z := Str.parseDigits 0 [d1; d2].
Let yy : Z := Str.parseDigits 0 [y1; y2].
Let year : Z := if (yy <? 50)%Z then (2000 + yy)%Z else (1900 + yy)%Z.
Let isoDate : string :=
  (Str.ofZ year ++ "-" ++ Str.ofChars [m1; m2] ++ "-" ++ Str.ofChars [d1; d2])%string.

Lemma two_digit_year_parse :
  Lot.parseExpiryDate host text
  = Ok (if (1 <=? month)%Z && (month <=? 12)%Z && (1 <=? day)%Z && (day <=? 31)%Z
           && negb (Lot.invalidDate host isoDate)
        then Some {| Lot.expiryRaw := text;
                     Lot.expiryNormalized := isoDate;
                     Lot.confidence := 0.9%Q |}
        else None).
Proof.
  pose proof (forallb_digits _ all_digits) as Hd.
  inversion Hd as [|? ? Hm1 Hd1]; subst. inversion Hd1 as [|? ? Hm2 Hd2]; subst.
  inversion Hd2 as [|? ? Hd1' Hd3]; subst. inversion Hd3 as [|? ? Hd2' Hd4]; subst.
  inversion Hd4 as [|? ? Hy1 Hd5]; subst. inversion Hd5 as [|? ? Hy2 _]; subst.
  assert (Hz : map zeroDigits [m1; m2; s1; d1; d2; s2; y1; y2]
               = ["0"; "0"; s1; "0"; "0"; s2; "0"; "0"]%char).
  { cbn [map].
    rewrite (zeroDigits_digit m1 Hm1), (zeroDigits_digit m2 Hm2),
      (zeroDigits_digit d1 Hd1'), (zeroDigits_digit d2 Hd2'),
      (zeroDigits_digit y1 Hy1), (zeroDigits_digit y2 Hy2).
    destruct s1_sep as [<- | [<- | []]]; destruct s2_sep as [<- | [<- | []]];
      reflexivity. }
  assert (Htrim : Str.trim text = text).
  { unfold Str.trim, text. rewrite chars_ofChars. f_equal.
    apply (trimChars_digits m1 y2 [m2; s1; d1; d2; s2; y1]); assumption. }
  unfold Lot.parseExpiryDate. rewrite Htrim. unfold Lot.EXPIRY_PATTERNS, text.
  destruct s1_sep as [<- | [<- | []]]; destruct s2_sep as [<- | [<- | []]];
    skip_zeroed Hz; match_zeroed Hz;
    rewrite (parseInt_digit y1 _ Hy1), (parseInt_digit m1 _ Hm1),
      (parseInt_digit d1 _ Hd1');
    cbn [Str.chars list_ascii_of_string];
    rewrite range_check, pivot_year;
    fold month; fold day; fold yy; fold year;
    change (Str.padStart 2 "0" (String m1 (String m2 ""))) with (Str.ofChars [m1; m2]);
    change (Str.padStart 2 "0" (String d1 (String d2 ""))) with (Str.ofChars [d1; d2]);
    fold isoDate; fold text; subst rest;
    (destruct ((1 <=? month)%Z && (month <=? 12)%Z && (1 <=? day)%Z && (day <=? 31)%Z);
     cbn [negb andb];
     [destruct (Lot.invalidDate host isoDate); cbn [negb];
      [unfold text; do 5 skip_zeroed Hz; reflexivity | rewrite Htrim; reflexivity]
     | unfold text; do 5 skip_zeroed Hz; reflexivity]).
Qed.

End TwoDigitYear.

(** X25: a date written [MM/DD/YY], with slashes or dashes, is read with
    the century chosen by the pivot 50: years 00 to 49 are 2000 to 2049 and
    years 50 to 99 are 1950 to 1999.  The answer is the ISO text of that
    date, provided the month is 1 to 12, the day 1 to 31 and [Date] accepts
    the ISO text; otherwise it is [null]. *)
Theorem parseExpiryDate_two_digit_year (host : Host)
  (m1 m2 d1 d2 y1 y2 s1 s2 : ascii) :
  forallb Str.isDigit [m1; m2; d1; d2; y1; y2] = true ->
  In s1 ["/"; "-"]%char ->
  In s2 ["/"; "-"]%char ->
  let text := Str.ofChars [m1; m2; s1; d1; d2; s2; y1; y2] in
  let month := Str.parseDigits 0 [m1; m2] in
  let day := Str.parseDigits 0 [d1; d2] in
  let yy := Str.parseDigits 0 [y1; y2] in
  let year := if (yy <? 50)%Z then (2000 + yy)%Z else (1900 + yy)%Z in
  let isoDate :=
    (Str.ofZ year ++ "-" ++ Str.ofChars [m1; m2] ++ "-" ++ Str.ofChars [d1; d2])%string in
  Lot.parseExpiryDate host text
  = Ok (if (1 <=? month)%Z && (month <=? 12)%Z && (1 <=? day)%Z && (day <=? 31)%Z
           && negb (Lot.invalidDate host isoDate)
        then Some {| Lot.expiryRaw := text;
                     Lot.expiryNormalized := isoDate;
                     Lot.confidence := 0.9%Q |}
        else None).
Proof.
  intros Hd Hs1 Hs2. apply two_digit_year_parse; assumption.
Qed.

Lemma parseExpiryDate_two_digit_year_witness :
  Lot.parseExpiryDate Reference.host "03/15/24"
  = Ok (Some {| Lot.expiryRaw := "03/15/24";
                Lot.expiryNormalized := "2024-03-15";
                Lot.confidence := 0.9%Q |})
  /\ Lot.parseExpiryDate Reference.host "03-15-85"
     = Ok (Some {| Lot.expiryRaw := "03-15-85";
                   Lot.expiryNormalized := "1985-03-15";
                   Lot.confidence := 0.9%Q |}).
Proof.
  split.
  - apply (parseExpiryDate_two_digit_year Reference.host "0" "3" "1" "5" "2" "4" "/" "/");
      [reflexivity | left; reflexivity | left; reflexivity].
  - apply (parseExpiryDate_two_digit_year Reference.host "0" "3" "1" "5" "8" "5" "-" "-");
      [reflexivity | right; left; reflexivity | right; left; reflexivity].
Defined.

Lemma parseDigits_one (c : ascii) :
  Str.isDigit c = true -> (Str.parseDigits 0 [c] <= 9)%Z.
Proof.
  intros H. apply digit_cases in H. cbn in H.
  repeat (destruct H as [<- | H]; [vm_compute; discriminate|]). destruct H.
Qed.

Section FourDigitYear.

Variable host : Host.
Variables m d y1 y2 y3 y4 s1 s2 : ascii.

Hypothesis all_digits : forallb Str.isDigit [m; d; y1; y2; y3; y4] = true.
Hypothesis s1_sep : In s1 ["/"; "-"; " "]%char.
Hypothesis s2_sep : In s2 ["/"; "-"; " "]%char.

Let text : string := Str.ofChars [m; s1; d; s2; y1; y2; y3; y4].
Let month : Z := Str.parseDigits 0 [m].
Let day : Z := Str.parseDigits 0 [d].
Let year : Z := Str.parseDigits 0 [y1; y2; y3; y4].
Let isoDate : string :=
  (Str.ofZ year ++ "-" ++ Str.ofChars ["0"%char; m] ++ "-" ++ Str.ofChars ["0"%char; d])%string.

Lemma four_digit_year_parse :
  Lot.parseExpiryDate host text
  = Ok (if (1 <=? month)%Z && (1 <=? day)%Z && negb (Lot.invalidDate host isoDate)
        then Some {| Lot.expiryRaw := text;
                     Lot.expiryNormalized := isoDate;
                     Lot.confidence := 0.9%Q |}
        else None).
Proof.
  pose proof (forallb_digits _ all_digits) as Hd.
  inversion Hd as [|? ? Hm Hd1]; subst. inversion Hd1 as [|? ? Hd' Hd2]; subst.
  inversion Hd2 as [|? ? Hy1 Hd3]; subst. inversion Hd3 as [|? ? Hy2 Hd4]; subst.
  inversion Hd4 as [|? ? Hy3 Hd5]; subst. inversion Hd5 as [|? ? Hy4 _]; subst.
  assert (Hz : map zeroDigits [m; s1; d; s2; y1; y2; y3; y4]
               = ["0"; s1; "0"; s2; "0"; "0"; "0"; "0"]%char).
  { cbn [map].
    rewrite (zeroDigits_digit m Hm), (zeroDigits_digit d Hd'),
      (zeroDigits_digit y1 Hy1), (zeroDigits_digit y2 Hy2),
      (zeroDigits_digit y3 Hy3), (zeroDigits_digit y4 Hy4).
    destruct s1_sep as [<- | [<- | [<- | []]]];
      destruct s2_sep as [<- | [<- | [<- | []]]]; reflexivity. }
  assert (Htrim : Str.trim text = text).
  { unfold Str.trim, text. rewrite chars_ofChars. f_equal.
    apply (trimChars_digits m y4 [s1; d; s2; y1; y2; y3]); assumption. }
  assert (Hmonth : (month <=? 12)%Z = true).
  { apply Z.leb_le. pose proof (parseDigits_one m Hm). unfold month. lia. }
  assert (Hday : (day <=? 31)%Z = true).
  { apply Z.leb_le. pose proof (parseDigits_one d Hd'). unfold day. lia. }
  unfold Lot.parseExpiryDate. rewrite Htrim. unfold Lot.EXPIRY_PATTERNS, text.
  destruct s1_sep as [<- | [<- | [<- | []]]];
    destruct s2_sep as [<- | [<- | [<- | []]]];
    match_zeroed Hz;
    rewrite (parseInt_digit y1 _ Hy1), (parseInt_digit m _ Hm),
      (parseInt_digit d _ Hd');
    cbn [Str.chars list_ascii_of_string];
    rewrite range_check;
    fold month; fold day; fold year;
    rewrite Hmonth, Hday, !andb_true_r; cbn [Lot.showNumber];
    change (Str.padStart 2 "0" (String m "")) with (Str.ofChars ["0"%char; m]);
    change (Str.padStart 2 "0" (String d "")) with (Str.ofChars ["0"%char; d]);
    fold isoDate; fold text; subst rest;
    (destruct ((1 <=? month)%Z && (1 <=? day)%Z);
     cbn [negb andb];
     [destruct (Lot.invalidDate host isoDate); cbn [negb];
      [unfold text; do 6 skip_zeroed Hz; reflexivity | rewrite Htrim; reflexivity]
     | unfold text; do 6 skip_zeroed Hz; reflexivity]).
Qed.

End FourDigitYear.

(** X26: a date written [M/D/YYYY] with a one-digit month and day,
    separated by slashes, dashes or spaces, is read as the ISO text with
    month and day padded to two digits, provided neither is 0 and [Date]
    accepts the ISO text; otherwise the answer is [null].  The year is
    printed as a number, without the zeros it may begin with. *)
Theorem parseExpiryDate_pads (host : Host) (m d y1 y2 y3 y4 s1 s2 : ascii) :
  forallb Str.isDigit [m; d; y1; y2; y3; y4] = true ->
  In s1 ["/"; "-"; " "]%char ->
  In s2 ["/"; "-"; " "]%char ->
  let text := Str.ofChars [m; s1; d; s2; y1; y2; y3; y4] in
  let month := Str.parseDigits 0 [m] in
  let day := Str.parseDigits 0 [d] in
  let year := Str.parseDigits 0 [y1; y2; y3; y4] in
  let isoDate :=
    (Str.ofZ year ++ "-" ++ Str.ofChars ["0"%char; m] ++ "-"
     ++ Str.ofChars ["0"%char; d])%string in
  Lot.parseExpiryDate host text
  = Ok (if (1 <=? month)%Z && (1 <=? day)%Z && negb (Lot.invalidDate host isoDate)
        then Some {| Lot.expiryRaw := text;
                     Lot.expiryNormalized := isoDate;
                     Lot.confidence := 0.9%Q |}
        else None).
Proof.
  intros Hd Hs1 Hs2. apply four_digit_year_parse; assumption.
Qed.

Lemma parseExpiryDate_pads_witness :
  Lot.parseExpiryDate Reference.host "3/5/2024"
  = Ok (Some {| Lot.expiryRaw := "3/5/2024";
                Lot.expiryNormalized := "2024-03-05";
                Lot.confidence := 0.9%Q |}).
Proof.
  apply (parseExpiryDate_pads Reference.host "3" "5" "2" "0" "2" "4" "/" "/");
    [reflexivity | left; reflexivity | left; reflexivity].
Defined.

(** ** The alphabet of normalised text *)

(** A global replacement puts nothing into a text but the replacement. *)
Lemma replaceFrom_Forall (P : ascii -> Prop) (ci : bool) (r : Re.regex)
  (repl : list ascii) (after : list ascii) :
  Forall P repl -> Forall P after ->
  forall skip before, Forall P (Re.replaceFrom ci r repl skip before after).
Proof.
  intros Hrepl. induction after as [|c t IH]; intros Hafter skip before.
  - destruct skip; cbn [Re.replaceFrom]; [|constructor].
    destruct (Re.run _ _ _ _); [|constructor].
    rewrite app_nil_r. exact Hrepl.
  - inversion Hafter as [|? ? Hc Ht]; subst.
    destruct skip; cbn [Re.replaceFrom]; [|now apply IH].
    destruct (Re.run _ _ _ _).
    + apply Forall_app. split; [exact Hrepl|].
      destruct (_ - _); [constructor; [exact Hc|]|]; now apply IH.
    + constructor; [exact Hc | now apply IH].
Qed.

Lemma replaceAll_Forall (P : ascii -> Prop) (ci : bool) (r : Re.regex)
  (repl text : string) :
  Forall P (Str.chars repl) -> Forall P (Str.chars text) ->
  Forall P (Str.chars (Re.replaceAll ci r repl text)).
Proof.
  intros Hrepl Htext. unfold Re.replaceAll. rewrite chars_ofChars.
  now apply replaceFrom_Forall.
Qed.

Lemma Forall_dropSpaces (P : ascii -> Prop) (l : list ascii) :
  Forall P l -> Forall P (Str.dropSpaces l).
Proof.
  induction 1 as [|c t Hc Ht IH]; cbn [Str.dropSpaces]; [constructor|].
  destruct (Str.isSpace c); [exact IH | now constructor].
Qed.

Lemma Forall_trim (P : ascii -> Prop) (s : string) :
  Forall P (Str.chars s) -> Forall P (Str.chars (Str.trim s)).
Proof.
  intros H. unfold Str.trim, Str.trimChars. rewrite chars_ofChars.
  apply Forall_rev, Forall_dropSpaces, Forall_rev, Forall_dropSpaces, H.
Qed.

Definition headSpace (l : list ascii) : bool :=
  match l with
  | c :: _ => Str.isSpace c
  | [] => false
  end.

(** The greedy [\s+] passes all the white space ahead. *)
Lemma repLoop_spaces (fuel count : nat) (b a : list ascii) (cs : list (nat * (nat * nat))) :
  List.length a <= fuel ->
  Re.repLoop (Re.run false Re.space) 1 None Some fuel count (Re.MState b a cs)
  = (if (1 <=? count) || headSpace a
     then Re.repLoop (Re.run false Re.space) 1 None Some fuel count (Re.MState b a cs)
     else None)
  /\ (((1 <=? count) || headSpace a) = true ->
      exists m, Re.repLoop (Re.run false Re.space) 1 None Some fuel count (Re.MState b a cs)
                = Some m
                /\ Re.rest m = Str.dropSpaces a).
Proof.
  revert count b a. induction fuel as [|fuel IH]; intros count b a Hlen.
  - destruct a as [|c t]; [|cbn in Hlen; lia].
    cbn [Re.repLoop headSpace]. rewrite orb_false_r.
    destruct (1 <=? count); split; try reflexivity; try discriminate.
    intros _. eexists. split; reflexivity.
  - cbn [Re.repLoop Re.below]. unfold Re.space at 1 3 5. cbn [Re.run Re.rest].
    destruct a as [|c t].
    + cbn [headSpace]. rewrite orb_false_r.
      destruct (1 <=? count); split; try reflexivity; try discriminate.
      intros _. eexists. split; reflexivity.
    + cbn [headSpace Str.dropSpaces]. unfold Re.symTest. cbn [andb xorb].
      rewrite orb_false_r.
      destruct (Str.isSpace c) eqn:Ec.
      * rewrite orb_true_r. unfold Re.advance. cbn [Re.rest Re.seen Re.caps List.length].
        replace (List.length t =? S (List.length t)) with false
          by (symmetry; apply Nat.eqb_neq; lia).
        rewrite andb_false_r.
        destruct (IH (S count) (c :: b) t) as [_ Hsome]; [cbn in Hlen; lia|].
        destruct (Hsome eq_refl) as (m & Hm & Hrest).
        rewrite Hm. split; [reflexivity|]. intros _. now exists m.
      * rewrite orb_false_r.
        destruct (1 <=? count); split; try reflexivity; try discriminate.
        intros _. eexists. split; [reflexivity|]. cbn [Re.rest]. reflexivity.
Qed.

Lemma run_spaces (before after : list ascii) :
  (headSpace after = true ->
   exists m, Re.run false Text.spaces Some (Re.MState before after []) = Some m
             /\ Re.rest m = Str.dropSpaces after)
  /\ (headSpace after = false ->
      Re.run false Text.spaces Some (Re.MState before after []) = None).
Proof.
  unfold Text.spaces, Re.plus. cbn [Re.run Re.repFuel Re.rest].
  destruct (repLoop_spaces (1 + List.length after) 0 before after [])
    as [Hnone Hsome]; [lia|].
  cbn [Nat.leb orb] in Hnone, Hsome. split.
  - exact Hsome.
  - intros H. rewrite H in Hnone. exact Hnone.
Qed.

Lemma dropSpaces_length (l : list ascii) :
  List.length (Str.dropSpaces l) <= List.length l.
Proof.
  induction l as [|c t IH]; cbn [Str.dropSpaces List.length]; [lia|].
  destruct (Str.isSpace c); cbn [List.length]; lia.
Qed.

Lemma dropped_spaces (l : list ascii) :
  Forall (fun c => Str.isSpace c = true)
    (firstn (List.length l - List.length (Str.dropSpaces l)) l).
Proof.
  induction l as [|c t IH]; cbn [Str.dropSpaces List.length]; [constructor|].
  destruct (Str.isSpace c) eqn:Ec.
  - pose proof (dropSpaces_length t).
    replace (S (List.length t) - List.length (Str.dropSpaces t))
      with (S (List.length t - List.length (Str.dropSpaces t))) by lia.
    cbn [firstn]. now constructor.
  - cbn [List.length]. rewrite Nat.sub_diag. constructor.
Qed.

(** White space other than the space character. *)
Definition plain (c : ascii) : Prop := Str.isSpace c = false \/ c = " "%char.

(** After [\s+] is replaced by a space, the space is the only white space
    left. *)
Lemma replace_spaces_plain (after : list ascii) :
  forall skip before,
    Forall (fun c => Str.isSpace c = true) (firstn skip after) ->
    Forall plain (Re.replaceFrom false Text.spaces [" "%char] skip before after).
Proof.
  induction after as [|c t IH]; intros skip before Hskip.
  - destruct skip; cbn [Re.replaceFrom]; [|constructor].
    destruct (Re.run _ _ _ _); [|constructor].
    constructor; [now right | constructor].
  - destruct skip as [|n]; cbn [Re.replaceFrom].
    + destruct (run_spaces before (c :: t)) as [Hsome Hnone].
      cbn [headSpace] in Hsome, Hnone.
      destruct (Str.isSpace c) eqn:Ec.
      * destruct (Hsome eq_refl) as (m & -> & Hrest). rewrite Hrest.
        cbn [app Str.dropSpaces List.length]. rewrite Ec.
        constructor; [now right|].
        pose proof (dropSpaces_length t).
        replace (S (List.length t) - List.length (Str.dropSpaces t))
          with (S (List.length t - List.length (Str.dropSpaces t))) by lia.
        apply IH. apply dropped_spaces.
      * rewrite (Hnone eq_refl).
        constructor; [now left|]. apply IH. constructor.
    + cbn [firstn] in Hskip. inversion Hskip; subst. now apply IH.
Qed.

Lemma trimmed_headSpace (l : list ascii) : trimmed l -> headSpace l = false.
Proof. destruct l; [reflexivity | exact (fun H => H)]. Qed.

Lemma trimChars_ends (l : list ascii) :
  headSpace (Str.trimChars l) = false /\ headSpace (rev (Str.trimChars l)) = false.
Proof.
  unfold Str.trimChars. rewrite rev_involutive. split; apply trimmed_headSpace.
  - apply trimmed_rev_dropSpaces_rev, dropSpaces_trimmed.
  - apply dropSpaces_trimmed.
Qed.

(** The characters of a normalised text: lower-case letters, digits, the
    underscore and the space. *)
Definition normalChar (c : ascii) : bool :=
  Str.isLower c || Str.isDigit c || (Str.code c =? 95) || Ascii.eqb c " ".

Lemma toLowerChar_not_upper (c : ascii) : Str.isUpper (Str.toLowerChar c) = false.
Proof. destruct c as [[] [] [] [] [] [] [] []]; vm_compute; reflexivity. Qed.

Lemma normalChar_intro (c : ascii) :
  Str.isUpper c = false -> (Str.isWord c || Str.isSpace c) = true -> plain c ->
  normalChar c = true.
Proof.
  unfold normalChar, Str.isWord. intros Hu Hw Hp.
  rewrite Hu, orb_false_r in Hw.
  destruct Hp as [Hs | ->]; [|reflexivity].
  rewrite Hs, orb_false_r in Hw.
  destruct (Str.isLower c), (Str.isDigit c), (Str.code c =? 95);
    try reflexivity; discriminate Hw.
Qed.

(** X27: a normalised text is written with lower-case letters, digits,
    underscores and the space character only: no upper-case letter, no
    punctuation, no tab or line break.  It neither begins nor ends with a
    space. *)
Theorem normalizeText_alphabet (text : string) :
  Forall (fun c => normalChar c = true) (Str.chars (Text.normalizeText text))
  /\ headSpace (Str.chars (Text.normalizeText text)) = false
  /\ headSpace (rev (Str.chars (Text.normalizeText text))) = false.
Proof.
  split.
  - unfold Text.normalizeText.
    apply Forall_trim. apply replaceAll_Forall; [constructor|].
    set (lower := Str.trim (Str.toLowerCase text)).
    assert (Hlower : Forall (fun c => Str.isUpper c = false) (Str.chars lower)).
    { apply Forall_trim. unfold Str.toLowerCase. rewrite chars_ofChars.
      apply Forall_forall. intros c Hc. apply in_map_iff in Hc.
      destruct Hc as (d & <- & _). apply toLowerChar_not_upper. }
    set (Q := fun c => Str.isUpper c = false /\ (Str.isWord c || Str.isSpace c) = true).
    assert (Hpunct : Forall Q
              (Str.chars (Re.replaceAll false Text.punctuation " " lower))).
    { unfold Re.replaceAll, Text.punctuation. rewrite chars_ofChars, replaceFrom_sym.
      induction Hlower as [|c t Hc Ht IH]; cbn [flat_map]; [constructor|].
      apply Forall_app. split; [|exact IH].
      destruct (Str.isWord c || Str.isSpace c) eqn:E; cbn [xorb negb].
      - constructor; [now split | constructor].
      - constructor; [split; reflexivity | constructor]. }
    assert (Hkeep : Forall Q
              (Str.chars
                 (Re.replaceAll false Text.spaces " "
                    (Re.replaceAll false Text.punctuation " " lower)))).
    { apply replaceAll_Forall; [|exact Hpunct].
      constructor; [split; reflexivity | constructor]. }
    assert (Hplain : Forall plain
              (Str.chars
                 (Re.replaceAll false Text.spaces " "
                    (Re.replaceAll false Text.punctuation " " lower)))).
    { unfold Re.replaceAll at 1. rewrite chars_ofChars.
      apply (replace_spaces_plain _ 0 []). constructor. }
    rewrite Forall_forall in Hkeep, Hplain. apply Forall_forall. intros c Hc.
    destruct (Hkeep c Hc) as [Hu Hw].
    exact (normalChar_intro c Hu Hw (Hplain c Hc)).
  - unfold Text.normalizeText.
    generalize (Re.replaceAll false Text.stopWords ""
                  (Re.replaceAll false Text.spaces " "
                     (Re.replaceAll false Text.punctuation " "
                        (Str.trim (Str.toLowerCase text))))).
    intros s. unfold Str.trim. rewrite chars_ofChars. apply trimChars_ends.
Qed.

(** ** Reasons *)

(** X28: the reasons of [generateReasons] tell the decision apart: calls
    that give the same list of reasons were made for the same decision,
    whatever the matches.  RED and GREEN give two reasons, YELLOW three. *)
Theorem generateReasons_decision (d d' : Schema.Decision)
  (matches matches' : list Schema.RecallRecord) :
  Decision.generateReasons d matches = Decision.generateReasons d' matches' ->
  d = d'
  /\ List.length (Decision.generateReasons d matches)
     = match d with Schema.YELLOW => 3 | _ => 2 end.
Proof.
  intros H. split; [|destruct d; reflexivity].
  destruct d, d'; try reflexivity; cbn [Decision.generateReasons] in H;
    try discriminate H; injection H as H _; discriminate H.
Qed.

Lemma generateReasons_decision_witness :
  Schema.GREEN = Schema.GREEN
  /\ List.length (Decision.generateReasons Schema.GREEN [crackers]) = 2.
Proof.
  apply (generateReasons_decision Schema.GREEN Schema.GREEN [crackers] []).
  reflexivity.
Defined.

(** ** Decisions and their confidence *)

(** X29: the confidence tells the tier.  Every answer of [decide] is one
    of: RED with confidence 0.95 or 0.85, two reasons and at least one
    match; YELLOW with confidence 0.8, 0.7 or 0.6, three reasons and at
    least one match; GREEN with no confidence, no match and the single
    reason that no recall was found. *)
Theorem decide_confidence_table (host : Host) (input : Decision.DecisionInput)
  (res : Schema.MatchResult) :
  Decision.decide host input = Ok res ->
  (Schema.decision res = Schema.RED
   /\ (Schema.confidence res = Some 0.95%Q \/ Schema.confidence res = Some 0.85%Q)
   /\ Schema.matches res <> [] /\ List.length (Schema.reasons res) = 2)
  \/ (Schema.decision res = Schema.YELLOW
      /\ (Schema.confidence res = Some 0.8%Q \/ Schema.confidence res = Some 0.7%Q
          \/ Schema.confidence res = Some 0.6%Q)
      /\ Schema.matches res <> [] /\ List.length (Schema.reasons res) = 3)
  \/ (Schema.decision res = Schema.GREEN
      /\ Schema.confidence res = None
      /\ Schema.matches res = []
      /\ Schema.reasons res = ["No recalls found for this product"]).
Proof.
  intros Hres.
  destruct (Decision.findUPCMatches (Decision.upc input) (Decision.sourceHits input))
    as [|u us] eqn:Hupc.
  - destruct (findBrandProductMatches_returns host (Decision.brand input)
                (Decision.product input) (Decision.sourceHits input)) as [matched [Hbp _]].
    assert (Hcase : matched = [] \/ matched <> [])
      by (destruct matched; [now left | right; discriminate]).
    destruct Hcase as [-> | Hne].
    + right. right.
      destruct input as [upc brand product lot expiry hits].
      cbn [Decision.upc Decision.brand Decision.product Decision.sourceHits] in *.
      unfold Decision.decide in Hres.
      destruct hits as [|h hits]; [injection Hres as <-; repeat split|].
      cbn [List.length Nat.eqb] in Hres. rewrite Hupc in Hres.
      cbn [List.length Nat.ltb Nat.leb] in Hres. rewrite Hbp in Hres.
      cbn [bind List.length Nat.ltb Nat.leb] in Hres. injection Hres as <-.
      repeat split.
    + destruct (decide_tier2 host input matched Hupc Hbp Hne)
        as (kept & _ & _ & Hdec).
      rewrite Hdec in Hres. injection Hres as <-.
      destruct (filter Decision.constrained matched) as [|c cs], kept as [|k kept].
      * right. left. cbn. repeat split; auto.
      * right. left. cbn. repeat split; auto.
      * right. left. cbn. repeat split; auto. discriminate.
      * left. cbn. repeat split; auto. discriminate.
  - destruct (decide_tier1 host input) as [red [_ [_ Hdec]]];
      [rewrite Hupc; discriminate|].
    rewrite Hdec in Hres. injection Hres as <-.
    destruct red as [|r red]; cbn [List.length Nat.ltb Nat.leb].
    + right. left. rewrite Hupc. cbn. repeat split; auto. discriminate.
    + left. cbn. repeat split; auto. discriminate.
Qed.

Lemma decide_confidence_table_witness :
  Decision.decide Reference.host scanUpcAndLot = Ok (upcYellow [crackers])
  /\ ((Schema.decision (upcYellow [crackers]) = Schema.RED
       /\ (Schema.confidence (upcYellow [crackers]) = Some 0.95%Q
           \/ Schema.confidence (upcYellow [crackers]) = Some 0.85%Q)
       /\ Schema.matches (upcYellow [crackers]) <> []
       /\ List.length (Schema.reasons (upcYellow [crackers])) = 2)
      \/ (Schema.decision (upcYellow [crackers]) = Schema.YELLOW
          /\ (Schema.confidence (upcYellow [crackers]) = Some 0.8%Q
              \/ Schema.confidence (upcYellow [crackers]) = Some 0.7%Q
              \/ Schema.confidence (upcYellow [crackers]) = Some 0.6%Q)
          /\ Schema.matches (upcYellow [crackers]) <> []
          /\ List.length (Schema.reasons (upcYellow [crackers])) = 3)
      \/ (Schema.decision (upcYellow [crackers]) = Schema.GREEN
          /\ Schema.confidence (upcYellow [crackers]) = None
          /\ Schema.matches (upcYellow [crackers]) = []
          /\ Schema.reasons (upcYellow [crackers])
             = ["No recalls found for this product"])).
Proof.
  split; [vm_compute; reflexivity|].
  apply (decide_confidence_table Reference.host scanUpcAndLot).
  vm_compute. reflexivity.
Defined.

(** X30: RED needs evidence beyond the names.  [decide] answers RED only
    when a record matches by UPC, or when the scan carries a lot code or an
    expiry date: a match by brand and product alone is never RED. *)
Theorem decide_red_needs_evidence (host : Host) (input : Decision.DecisionInput)
  (res : Schema.MatchResult) :
  Decision.decide host input = Ok res ->
  Schema.decision res = Schema.RED ->
  Decision.findUPCMatches (Decision.upc input) (Decision.sourceHits input) <> []
  \/ Str.truthy (Decision.lot input) = true
  \/ Str.truthy (Decision.expiry input) = true.
Proof.
  intros Hres Hred.
  destruct (Decision.findUPCMatches (Decision.upc input) (Decision.sourceHits input))
    as [|u us] eqn:Hupc; [|left; discriminate].
  right.
  destruct (findBrandProductMatches_returns host (Decision.brand input)
              (Decision.product input) (Decision.sourceHits input)) as [matched [Hbp _]].
  assert (Hcase : matched = [] \/ matched <> [])
    by (destruct matched; [now left | right; discriminate]).
  destruct Hcase as [-> | Hne].
  - exfalso.
    assert (Hg : Schema.decision res = Schema.GREEN)
      by (apply (decide_green host input res Hres); now rewrite Hupc).
    rewrite Hg in Hred. discriminate Hred.
  - destruct (decide_tier2 host input matched Hupc Hbp Hne)
      as (kept & _ & Hkept & Hdec).
    rewrite Hdec in Hres. injection Hres as <-.
    destruct (filter Decision.constrained matched) as [|c cs]; [discriminate Hred|].
    destruct kept as [|k kept]; [discriminate Hred|].
    destruct (Hkept k) as [Hk _]. destruct (Hk (or_introl eq_refl)) as (_ & _ & Hholds).
    unfold Decision.constraintHolds in Hholds.
    destruct (Str.truthy (Decision.lot input)); [now left|].
    destruct (Str.truthy (Decision.expiry input)); [now right|].
    rewrite !andb_false_r in Hholds. discriminate Hholds.
Qed.

Lemma decide_red_needs_evidence_witness :
  Decision.findUPCMatches (Decision.upc scanUpcOnly) (Decision.sourceHits scanUpcOnly) <> []
  \/ Str.truthy (Decision.lot scanUpcOnly) = true
  \/ Str.truthy (Decision.expiry scanUpcOnly) = true.
Proof.
  apply (decide_red_needs_evidence Reference.host scanUpcOnly (upcRed None [crackers])).
  - vm_compute. reflexivity.
  - reflexivity.
Defined.
